(** * Anchor labelling and sampling of the Faster-RCNN data loader

    A shallow embedding of [examples/faster-rcnn/objectlocalization.py]:
    the overlap matrix ([calculate_bb_overlap]), the anchor filter
    ([inside_im_bounds]), the labelling pass ([add_anchors]), the scatter back
    to the full anchor grid ([_unmap], [unmap]), the per-image sampler
    ([_sample_anchors]), the aspect-ratio grouped shuffle ([_shuffle_roidb])
    and the resize rule ([calculate_scale_shape]).

    Conventions of the embedding.
    - Where the code rounds and the result decides what is returned, the
      numbers are IEEE 754 values ([spec_float] of the Standard Library)
      with the operations of their format: the double-precision quotient
      and products of [calculate_scale_shape], the product
      [fg_fractions * nrois] of [_sample_anchors], and the [float32] arrays
      that [_unmap] builds.  Integer arrays wrap as their dtype does.
    - The box coordinates, the overlaps and the regression targets are exact
      rationals ([Q]) that stand for the float64 values of the code; their
      arithmetic is exact, except in [normalize_bbox_targets], which rounds
      each difference and quotient to the nearest double.  Equality of
      rationals is [Qeq] ([==]).
    - Python exceptions are the [Raise] branch of [result]; every numpy call
      that can raise on the inputs reachable here is modelled with its error
      case (zero-size reductions, out-of-range indexing, a reshape that does
      not divide, a failed [assert]).
    - numpy arrays are lists; a two-dimensional array is a list of rows.
    - The random source [self.be.rng] is an explicit state threaded through
      the calls that draw from it. *)

From Stdlib Require Import ZArith QArith Qround Qminmax Lia Lqa Sorted.
From Stdlib Require Import Qpower SpecFloat.
From stdpp Require Import base list.

Set Default Proof Using "Type".

(** ** Python exceptions and the error monad *)

Inductive exn : Set :=
  | ValueError
  | AssertionError
  | IndexError
  | ZeroDivisionError
  | OverflowError.

Inductive result (A : Type) : Type :=
  | Ok (a : A)
  | Raise (e : exn).
Arguments Ok {A} a.
Arguments Raise {A} e.

#[global] Instance result_ret : MRet result := fun A a => Ok a.
#[global] Instance result_bind : MBind result :=
  fun A B f m => match m with Ok a => f a | Raise e => Raise e end.

(** [assert cond] *)
Definition py_assert (cond : bool) : result unit :=
  if cond then Ok () else Raise AssertionError.

(** [l[i]] for a non-negative position [i]. *)
Definition py_index {A} (l : list A) (i : nat) : result A :=
  match l !! i with
  | Some x => Ok x
  | None => Raise IndexError
  end.

(** Division of two Python floats. *)
Definition py_div (a b : Q) : result Q :=
  if Qeq_bool b 0 then Raise ZeroDivisionError else Ok (a / b)%Q.

(** [for i in l: s = body(i, s)] *)
Fixpoint for_list {S} (l : list nat) (body : nat -> S -> result S) (s : S)
  : result S :=
  match l with
  | [] => Ok s
  | i :: l' => s' ← body i s; for_list l' body s'
  end.

(** [for i in range(n): s = body(i, s)] *)
Definition for_range {S} (n : nat) (body : nat -> S -> result S) (s : S)
  : result S :=
  for_list (seq 0 n) body s.

(** ** Boxes and matrices *)

(** A row [(x_min, y_min, x_max, y_max)] of a box array; the fields are the
    columns [BB_XMIN_IDX] .. [BB_YMAX_IDX]. *)
Record Box : Set := mkBox {
  x_min : Q;
  y_min : Q;
  x_max : Q;
  y_max : Q
}.

Abbreviation matrix := (list (list Q)).

(** [np.zeros((R, G))] *)
Definition zeros (R G : nat) : matrix := replicate R (replicate G 0%Q).

(** [m[r, g] = v] for a position inside the matrix. *)
Definition set_entry (m : matrix) (r g : nat) (v : Q) : matrix :=
  match m !! r with
  | Some row => <[r := <[g := v]> row]> m
  | None => m
  end.

(** [m[r, g]] *)
Definition entry (m : matrix) (r g : nat) : option Q :=
  row ← m !! r; row !! g.

(** ** [calculate_bb_overlap] *)

(** The cells are the exact quotients.  The code computes each one in
    [float64] and stores it in a [float32] matrix, which can make two close
    overlaps equal; what is stated of this function is what the stored
    values share with the exact ones: the shape of the matrix, the range of
    its cells, their symmetry, the overlap 1 of a box with itself and the
    overlap 0 of boxes that share no pixel. *)
Definition calculate_bb_overlap (rp gt : list Box) : result matrix :=
  let R := length rp in
  let G := length gt in
  let overlaps := zeros R G in
  for_range G (fun g overlaps =>
    gt_g ← py_index gt g;
    let gt_box_area :=
      ((x_max gt_g - x_min gt_g + 1) * (y_max gt_g - y_min gt_g + 1))%Q in
    for_range R (fun r overlaps =>
      rp_r ← py_index rp r;
      let iw :=
        (Qmin (x_max rp_r) (x_max gt_g) - Qmax (x_min rp_r) (x_min gt_g) + 1)%Q in
      if Qlt_le_dec 0 iw then
        let ih :=
          (Qmin (y_max rp_r) (y_max gt_g) - Qmax (y_min rp_r) (y_min gt_g) + 1)%Q in
        if Qlt_le_dec 0 ih then
          let ua :=
            ((x_max rp_r - x_min rp_r + 1) * (y_max rp_r - y_min rp_r + 1)
             + gt_box_area - iw * ih)%Q in
          v ← py_div (iw * ih) ua;
          Ok (set_entry overlaps r g v)
        else Ok overlaps
      else Ok overlaps) overlaps) overlaps.

(** The value the two loops leave in cell [(r, g)]: the zero of
    [np.zeros] unless both guards pass. *)
Definition iou (rp_r gt_g : Box) : Q :=
  let gt_box_area :=
    ((x_max gt_g - x_min gt_g + 1) * (y_max gt_g - y_min gt_g + 1))%Q in
  let iw :=
    (Qmin (x_max rp_r) (x_max gt_g) - Qmax (x_min rp_r) (x_min gt_g) + 1)%Q in
  if Qlt_le_dec 0 iw then
    let ih :=
      (Qmin (y_max rp_r) (y_max gt_g) - Qmax (y_min rp_r) (y_min gt_g) + 1)%Q in
    if Qlt_le_dec 0 ih then
      let ua :=
        ((x_max rp_r - x_min rp_r + 1) * (y_max rp_r - y_min rp_r + 1)
         + gt_box_area - iw * ih)%Q in
      (iw * ih / ua)%Q
    else 0%Q
  else 0%Q.

(** The box invariant of the data model. *)
Definition valid_box (b : Box) : Prop :=
  (x_min b <= x_max b)%Q /\ (y_min b <= y_max b)%Q.

(** Two boxes share no pixel: with pixel-inclusive coordinates a box covers
    [x_min, x_max + 1) x [y_min, y_max + 1). *)
Definition disjoint_boxes (a b : Box) : Prop :=
  (x_max a + 1 <= x_min b)%Q \/ (x_max b + 1 <= x_min a)%Q \/
  (y_max a + 1 <= y_min b)%Q \/ (y_max b + 1 <= y_min a)%Q.

(** The overlap of one box with one box, as an isolated call. *)
Definition pairwise_overlap (a b : Box) : result Q :=
  m ← calculate_bb_overlap [a] [b];
  row ← py_index m 0;
  py_index row 0.

(** The guards and the divisor of one cell, named. *)
Definition cell_iw (a b : Box) : Q :=
  (Qmin (x_max a) (x_max b) - Qmax (x_min a) (x_min b) + 1)%Q.
Definition cell_ih (a b : Box) : Q :=
  (Qmin (y_max a) (y_max b) - Qmax (y_min a) (y_min b) + 1)%Q.
Definition box_area (a : Box) : Q :=
  ((x_max a - x_min a + 1) * (y_max a - y_min a + 1))%Q.
Definition cell_ua (a b : Box) : Q :=
  (box_area a + box_area b - cell_iw a b * cell_ih a b)%Q.

(** The matrix [calculate_bb_overlap] returns, cell by cell. *)
Definition overlap_matrix (rp gt : list Box) : matrix :=
  (fun a => iou a <$> gt) <$> rp.

Definition shape (R G : nat) (m : matrix) : Prop :=
  length m = R /\ Forall (fun row => length row = G) m.


(** ** Numbers *)

Definition Qlt_bool (a b : Q) : bool := negb (Qle_bool b a).

(** The integer nearest to a rational, a tie going to the even neighbour:
    the rule of [np.round]. *)
Definition np_round (q : Q) : Z :=
  let f := Qfloor q in
  match (q - inject_Z f ?= 1 # 2)%Q with
  | Lt => f
  | Gt => (f + 1)%Z
  | Eq => if Z.even f then f else (f + 1)%Z
  end.

(** ** numpy on lists *)

Fixpoint where_from (i : nat) (mask : list bool) : list nat :=
  match mask with
  | [] => []
  | b :: mask' =>
      if b then i :: where_from (S i) mask' else where_from (S i) mask'
  end.

(** [np.where(mask)[0]] for a one-dimensional boolean array: the positions
    that hold [True], ascending. *)
Definition np_where (mask : list bool) : list nat := where_from 0 mask.

Fixpoint where_rows_from (r : nat) (mask : list (list bool)) : list nat :=
  match mask with
  | [] => []
  | row :: mask' =>
      replicate (length (filter (fun b => b = true) row)) r
      ++ where_rows_from (S r) mask'
  end.

(** [np.where(mask)[0]] for a two-dimensional boolean array: the row number
    of every [True] cell, in row-major order (a row with several [True] cells
    is listed once per cell). *)
Definition where_rows (mask : list (list bool)) : list nat :=
  where_rows_from 0 mask.

(** [a[mask] = v] for a boolean array [mask]. *)
Definition mask_assign {A} (a : list A) (mask : list bool) (v : A)
  : result (list A) :=
  if decide (length mask = length a)
  then Ok (zip_with (fun x (b : bool) => if b then v else x) a mask)
  else Raise IndexError.

(** [a[idx] = v] for an array [idx] of non-negative positions. *)
Definition index_assign {A} (a : list A) (idx : list nat) (v : A)
  : result (list A) :=
  if forallb (fun i => i <? length a) idx
  then Ok (foldl (fun a i => <[i := v]> a) a idx)
  else Raise IndexError.

(** [max] of a one-dimensional array; numpy raises on a zero-size one. *)
Definition np_max (row : list Q) : result Q :=
  match row with
  | [] => Raise ValueError
  | x :: row' => Ok (foldl Qmax x row')
  end.

Fixpoint argmax_from (best : Q) (best_i i : nat) (row : list Q) : nat :=
  match row with
  | [] => best_i
  | x :: row' =>
      if Qlt_bool best x then argmax_from x i (S i) row'
      else argmax_from best best_i (S i) row'
  end.

(** [argmax] of a one-dimensional array: the first position of the
    maximum. *)
Definition np_argmax (row : list Q) : result nat :=
  match row with
  | [] => Raise ValueError
  | x :: row' => Ok (argmax_from x 0 1 row')
  end.

(** [m.max(axis=1)] for [m] of shape [(length m, ncols)]: a reduction over an
    axis of size zero raises, whatever the number of rows. *)
Definition max_axis1 (ncols : nat) (m : matrix) : result (list Q) :=
  if decide (ncols = 0%nat) then Raise ValueError else mapM np_max m.

(** [m.argmax(axis=1)] *)
Definition argmax_axis1 (ncols : nat) (m : matrix) : result (list nat) :=
  if decide (ncols = 0%nat) then Raise ValueError else mapM np_argmax m.

(** [m.max(axis=0)]: the reduced axis is the rows, so no row raises. *)
Definition max_axis0 (m : matrix) : result (list Q) :=
  match m with
  | [] => Raise ValueError
  | row :: m' => Ok (foldl (zip_with Qmax) row m')
  end.

(** A position of an integer index array, resolved against an axis of
    length [n]: negative positions count from the end. *)
Definition norm_index (n : nat) (i : Z) : result nat :=
  if ((0 <=? i) && (i <? Z.of_nat n))%Z then Ok (Z.to_nat i)
  else if ((- Z.of_nat n <=? i) && (i <? 0))%Z then Ok (Z.to_nat (i + Z.of_nat n))
  else Raise IndexError.

(** [a[inds]] for an integer index array: the gather. *)
Definition np_take {A} (a : list A) (inds : list Z) : result (list A) :=
  mapM (fun i => j ← norm_index (length a) i; py_index a j) inds.

(** [ret[inds] = data] (and [ret[inds, :] = data] on rows): the scatter.
    [data] has one item per index, or a single item that is broadcast. *)
Definition scatter {A} (ret : list A) (inds : list Z) (data : list A)
  : result (list A) :=
  js ← mapM (norm_index (length ret)) inds;
  if decide (length data = length inds)
  then Ok (foldl (fun r (jx : nat * A) => <[jx.1 := jx.2]> r) ret (zip js data))
  else
    match data with
    | [x] => Ok (foldl (fun r j => <[j := x]> r) ret js)
    | _ => Raise ValueError
    end.

(** [l[:k]] *)
Definition py_slice_to {A} (l : list A) (k : Z) : list A :=
  if (0 <=? k)%Z then take (Z.to_nat k) l
  else take (length l - Z.to_nat (- k)) l.

(** [np.reshape(l, (-1, 2))] *)
Fixpoint reshape_rows2 {A} (l : list A) : result (list (list A)) :=
  match l with
  | [] => Ok []
  | [_] => Raise ValueError
  | a :: b :: l' => rows ← reshape_rows2 l'; Ok ([a; b] :: rows)
  end.

(** An array of one or of two dimensions; the second dimension of the shape
    is kept, since a two-dimensional array without rows still has it. *)
Inductive ndarray (T : Type) : Type :=
  | Arr1 (data : list T)
  | Arr2 (ncols : nat) (rows : list (list T)).
Arguments Arr1 {T} data.
Arguments Arr2 {T} ncols rows.

(** ** Binary floating-point numbers *)

(** A Python [float] and a numpy [float64] are IEEE 754 binary64 numbers, a
    numpy [float32] is a binary32 number.  Both are values of [spec_float]:
    a signed zero, a signed infinity, NaN, or the finite number
    [(-1)^s * m * 2^e].  The operations of the Standard Library take the
    precision and the exponent bound of the format, 53 and 1024 for binary64,
    24 and 128 for binary32, and round to nearest, ties to even. *)
Abbreviation float64 := spec_float.
Abbreviation float32 := spec_float.

Definition f64_mul : float64 -> float64 -> float64 := SFmul 53 1024.
Definition f64_div : float64 -> float64 -> float64 := SFdiv 53 1024.

(** The number a finite value stands for (0 for the infinities and NaN,
    which stand for none). *)
Definition float_value (x : spec_float) : Q :=
  match x with
  | S754_finite s m e => inject_Z (cond_Zopp s (Zpos m)) * 2 ^ e
  | _ => 0
  end.

(** An integer as a [float64], as numpy converts an integer operand: the
    nearest double, infinite beyond the range. *)
Definition np_float64 (z : Z) : float64 := binary_normalize 53 1024 z 0 false.

(** [float(z)] for a Python integer, which refuses what no double holds. *)
Definition py_float (z : Z) : result float64 :=
  match np_float64 z with
  | S754_infinity _ => Raise OverflowError
  | x => Ok x
  end.

(** A float literal: the double nearest to the ratio [q] of two integers
    below [2^53]. *)
Definition double (q : Q) : float64 :=
  f64_div (np_float64 (Qnum q)) (np_float64 (Zpos (Qden q))).

(** [a / b] on two Python floats. *)
Definition py_truediv (a b : float64) : result float64 :=
  match b with
  | S754_zero _ => Raise ZeroDivisionError
  | _ => Ok (f64_div a b)
  end.

(** [x * n] for a Python float and a Python integer. *)
Definition py_mul_int (x : float64) (n : Z) : result float64 :=
  y ← py_float n; Ok (f64_mul x y).

(** [int(x)] on a Python float: truncation toward zero. *)
Definition py_int (x : float64) : result Z :=
  match x with
  | S754_zero _ => Ok 0%Z
  | S754_finite s m e => Ok (cond_Zopp s (Z.shiftl (Zpos m) e))
  | S754_infinity _ => Raise OverflowError
  | S754_nan => Raise ValueError
  end.

(** [np.round] on a [float64]: the nearest integer as a double, a tie going
    to the even neighbour; the sign is kept. *)
Definition np_rint (x : float64) : float64 :=
  match x with
  | S754_finite s _ _ =>
      binary_normalize 53 1024 (np_round (float_value x)) 0 s
  | _ => x
  end.

(** [x.astype(int)] on a [float64]: truncation to [int64]; what [int64] does
    not hold becomes its least value, as the conversion instruction of the
    processor leaves it. *)
Definition np_astype_int (x : float64) : Z :=
  match x with
  | S754_zero _ => 0
  | S754_finite s m e =>
      let z := cond_Zopp s (Z.shiftl (Zpos m) e) in
      if ((- 2 ^ 63 <=? z) && (z <? 2 ^ 63))%Z then z else (- 2 ^ 63)%Z
  | _ => (- 2 ^ 63)%Z
  end.

(** An item of [np.array(size, np.int32)] for a Python integer: it wraps
    modulo [2^32] when a C [long] holds it, and is refused otherwise. *)
Definition np_int32 (z : Z) : result Z :=
  if ((- 2 ^ 63 <=? z) && (z <? 2 ^ 63))%Z
  then Ok ((z + 2 ^ 31) mod 2 ^ 32 - 2 ^ 31)%Z
  else Raise OverflowError.

(** The cast that an assignment into a [float32] array applies to an item
    of each element type: the nearest [float32]. *)
Class AsFloat32 (T : Type) := as_float32 : T -> float32.

#[global] Instance float32_of_int : AsFloat32 Z :=
  fun z => binary_normalize 24 128 z 0 false.
#[global] Instance float32_of_nat : AsFloat32 nat :=
  fun n => binary_normalize 24 128 (Z.of_nat n) 0 false.
(** A [float64], or a [float32], which it leaves as it is. *)
#[global] Instance float32_of_float : AsFloat32 spec_float :=
  fun x =>
    match x with
    | S754_finite s m e => binary_round 24 128 s m e
    | _ => x
    end.
(** A [float64] given by the rational it stands for. *)
#[global] Instance float32_of_Q : AsFloat32 Q :=
  fun q =>
    match Qnum q with
    | Z0 => S754_zero false
    | Zpos n =>
        SFdiv 24 128 (S754_finite false n 0) (S754_finite false (Qden q) 0)
    | Zneg n =>
        SFdiv 24 128 (S754_finite true n 0) (S754_finite false (Qden q) 0)
    end.

(** The double nearest to a rational. *)
Definition np_float64_of_Q (q : Q) : float64 :=
  match Qnum q with
  | Z0 => S754_zero false
  | Zpos n =>
      SFdiv 53 1024 (S754_finite false n 0) (S754_finite false (Qden q) 0)
  | Zneg n =>
      SFdiv 53 1024 (S754_finite true n 0) (S754_finite false (Qden q) 0)
  end.

(** [x - y] and [x / y] on [float64] values given by the rationals they
    stand for: the exact result, rounded to the nearest double.  (Beyond
    the range of [float64] the code gets an infinity, which no rational
    stands for; the statements stay below.) *)
Definition f64_minus (x y : Q) : Q := float_value (np_float64_of_Q (x - y)).
Definition f64_quot (x y : Q) : Q := float_value (np_float64_of_Q (x / y)).

(** [x == v] for an array item and one of the integer literals that the
    code compares labels with. *)
Class EqInt (T : Type) := eq_int : T -> Z -> bool.

#[global] Instance eq_int_Z : EqInt Z := Z.eqb.
#[global] Instance eq_int_float : EqInt spec_float :=
  fun x v =>
    match x with
    | S754_zero _ => (v =? 0)%Z
    | S754_finite _ _ _ => Qeq_bool (float_value x) (inject_Z v)
    | _ => false
    end.

(** An item equals at most one integer. *)
Class EqIntLaws (T : Type) `{!EqInt T} : Prop :=
  eq_int_inj : forall (x : T) (a b : Z),
    eq_int x a = true -> eq_int x b = true -> a = b.

(** ** The data set object and its records *)

(** The attributes of [self] that the modelled methods read. *)
Record ObjectLocalization : Type := mkObjectLocalization {
  MAX_SIZE : Z;
  MIN_SIZE : Z;
  NEGATIVE_OVERLAP : Q;
  POSITIVE_OVERLAP : Q;
  FG_FRACTION : float64;
  _total_anchors : nat
}.

(** The class [PASCAL], for a final convolution layer of [conv_size] cells a
    side and nine anchors a cell. *)
Definition PASCAL (conv_size : nat) : ObjectLocalization :=
  {| MAX_SIZE := 1000;
     MIN_SIZE := 600;
     NEGATIVE_OVERLAP := 3 # 10;
     POSITIVE_OVERLAP := 7 # 10;
     FG_FRACTION := double (1 # 2);
     _total_anchors := conv_size * conv_size * 9 |}.

(** An entry of [roi_db] as [load_annotation] builds it ([img_id] and
    [img_path] are not read by the modelled code). [gt_classes] has one
    class label per box. *)
Record roi : Type := mkRoi {
  gt_bb : list Box;
  gt_classes : list Z;
  img_shape : Z * Z;
  flipped : bool
}.

(** An entry after [add_anchors] has stored its keys.  The element types of
    the three arrays are parameters: [unmap] replaces the arrays by
    [float32] ones, and the sampler reads either. *)
Record anchored_of (L T C : Type) : Type := mkAnchored {
  source : roi;
  labels : list L;
  bbox_targets : list (list T);
  max_classes : list C;
  total_anchors : nat;
  idx_inside : list nat;
  im_width : Z;
  im_height : Z
}.
Arguments mkAnchored {L T C}.
Arguments source {L T C} _.
Arguments labels {L T C} _.
Arguments bbox_targets {L T C} _.
Arguments max_classes {L T C} _.
Arguments total_anchors {L T C} _.
Arguments idx_inside {L T C} _.
Arguments im_width {L T C} _.
Arguments im_height {L T C} _.

(** The entry as [add_anchors] leaves it: labels -1, 0 and 1, targets that
    stand for [float64] values, positions of [gt_bb]. *)
Abbreviation anchored := (anchored_of Z Q nat).
(** The entry as [unmap] leaves it. *)
Abbreviation unmapped := (anchored_of float32 float32 float32).

Definition FRCN_EPS : Q := 1.

(** ** [calculate_scale_shape] *)

Definition calculate_scale_shape (self : ObjectLocalization) (size : Z * Z)
  : result (Q * (Z * Z)) :=
  w ← np_int32 size.1;
  h ← np_int32 size.2;
  let im_size_min := Z.min w h in
  let im_size_max := Z.max w h in
  min_size ← py_float (MIN_SIZE self);
  im_scale ← py_truediv min_size (np_float64 im_size_min);
  im_scale ←
    (if SFltb (np_float64 (MAX_SIZE self))
          (np_rint (f64_mul im_scale (np_float64 im_size_max)))
     then max_size ← py_float (MAX_SIZE self);
          py_truediv max_size (np_float64 im_size_max)
     else Ok im_scale);
  let im_shape :=
    (np_astype_int (np_rint (f64_mul (np_float64 w) im_scale)),
     np_astype_int (np_rint (f64_mul (np_float64 h) im_scale))) in
  Ok (float_value im_scale, im_shape).

(** The rule in the words of the specification (ScaleShapeResolver):
    [scale = min_side / min(w,h)]; if [round(scale * max(w,h)) > max_side],
    [scale = max_side / max(w,h)]; the new shape is the rounded product.
    [resolve] reads the words over the rationals. *)
Definition resolve (raw_shape : Z * Z) (min_side max_side : Z) : Q * (Z * Z) :=
  let '(w, h) := raw_shape in
  let scale := (inject_Z min_side / inject_Z (Z.min w h))%Q in
  let scale :=
    if (np_round (scale * inject_Z (Z.max w h)) >? max_side)%Z
    then (inject_Z max_side / inject_Z (Z.max w h))%Q
    else scale in
  (scale, (np_round (inject_Z w * scale), np_round (inject_Z h * scale))).

(** [resolve_double] reads the same words in double precision: the
    quotient and each product is the nearest double, and [round] rounds
    the double. *)
Definition resolve_double (raw_shape : Z * Z) (min_side max_side : Z)
  : Q * (Z * Z) :=
  let '(w, h) := raw_shape in
  let scale := f64_div (np_float64 min_side) (np_float64 (Z.min w h)) in
  let scale :=
    if SFltb (np_float64 max_side)
         (np_rint (f64_mul scale (np_float64 (Z.max w h))))
    then f64_div (np_float64 max_side) (np_float64 (Z.max w h))
    else scale in
  (float_value scale,
   (np_astype_int (np_rint (f64_mul (np_float64 w) scale)),
    np_astype_int (np_rint (f64_mul (np_float64 h) scale)))).

(** ** [inside_im_bounds] *)

Definition inside_im_bounds (box : list Box) (im_shape : Z * Z) : list nat :=
  np_where
    ((fun b =>
        Qle_bool 0 (x_min b) &&
        Qle_bool 0 (y_min b) &&
        Qlt_bool (x_max b) (inject_Z im_shape.1) &&
        Qlt_bool (y_max b) (inject_Z im_shape.2)) <$> box).

(** ** Regression targets *)

(** [bb * im_scale] on a box array. *)
Definition scale_boxes (bb : list Box) (im_scale : Q) : list Box :=
  (fun b =>
     mkBox (x_min b * im_scale) (y_min b * im_scale)
           (x_max b * im_scale) (y_max b * im_scale)) <$> bb.

Definition _get_xywh (bb : list Box) : list Q * list Q * list Q * list Q :=
  let w := (fun b => x_max b - x_min b + FRCN_EPS)%Q <$> bb in
  let h := (fun b => y_max b - y_min b + FRCN_EPS)%Q <$> bb in
  let x := zip_with (fun b w => x_min b + (1 # 2) * w)%Q bb w in
  let y := zip_with (fun b h => y_min b + (1 # 2) * h)%Q bb h in
  (x, y, w, h).

Section Targets.
(** [np.log], which the rationals do not have, is a parameter.  Array
    division is [Qdiv]; numpy yields [inf] or [nan] on a zero divisor, which
    no statement below relies on.  The differences and quotients are exact
    where the code rounds them to doubles; what is stated of the targets is
    their shape and the targets of a box against itself, which the rounding
    leaves as they are. *)
Context (np_log : Q -> Q).

Definition _compute_targets (gt_bb rp_bb : list Box) : list (list Q) :=
  let '(x, y, w, h) := _get_xywh rp_bb in
  let '(x_gt, y_gt, w_gt, h_gt) := _get_xywh gt_bb in
  let targets_dx := zip_with Qdiv (zip_with Qminus x_gt x) w in
  let targets_dy := zip_with Qdiv (zip_with Qminus y_gt y) h in
  let targets_dw := np_log <$> zip_with Qdiv w_gt w in
  let targets_dh := np_log <$> zip_with Qdiv h_gt h in
  zip_with (fun dxy dwh => dxy ++ dwh)
    (zip_with (fun dx dy => [dx; dy]) targets_dx targets_dy)
    (zip_with (fun dw dh => [dw; dh]) targets_dw targets_dh).

(** ** [add_anchors] *)

(** The body of the loop over [roi_db].  [all_anchors] is what
    [generate_all_anchors] returned. *)
Definition add_anchors_db (self : ObjectLocalization) (all_anchors : list Box)
    (db : roi) : result anchored :=
  '(im_scale, im_shape) ← calculate_scale_shape self (img_shape db);
  let idx_inside := inside_im_bounds all_anchors im_shape in
  anchors ← mapM (py_index all_anchors) idx_inside;
  let labels := replicate (length idx_inside) (-1)%Z in
  let gt := scale_boxes (gt_bb db) im_scale in
  overlaps ← calculate_bb_overlap anchors gt;
  let G := length gt in
  (* assign bg labels first *)
  row_max ← max_axis1 G overlaps;
  let bg_idx := (fun m => Qlt_bool m (NEGATIVE_OVERLAP self)) <$> row_max in
  labels ← mask_assign labels bg_idx 0%Z;
  (* 1. for each gt box, anchor with higher overlaps [including ties] *)
  col_max ← max_axis0 overlaps;
  let gt_idx :=
    where_rows ((fun row => zip_with Qeq_bool row col_max) <$> overlaps) in
  labels ← index_assign labels gt_idx 1%Z;
  (* 2. any anchor above the overlap threshold with any gt box *)
  row_max ← max_axis1 G overlaps;
  let fg_idx := (fun m => Qle_bool (POSITIVE_OVERLAP self) m) <$> row_max in
  labels ← mask_assign labels fg_idx 1%Z;
  arg ← argmax_axis1 G overlaps;
  gt_sel ← mapM (py_index (gt_bb db)) arg;
  let bbox_targets := _compute_targets (scale_boxes gt_sel im_scale) anchors in
  gt_max_overlap_classes ← argmax_axis1 G overlaps;
  Ok {| source := db;
        labels := labels;
        bbox_targets := bbox_targets;
        max_classes := gt_max_overlap_classes;
        total_anchors := _total_anchors self;
        idx_inside := idx_inside;
        im_width := im_shape.1;
        im_height := im_shape.2 |}.

Definition add_anchors (self : ObjectLocalization) (all_anchors : list Box)
    (roi_db : list roi) : result (list anchored) :=
  _ ← py_assert (_total_anchors self =? length all_anchors);
  mapM (add_anchors_db self all_anchors) roi_db.

End Targets.

(** ** [_unmap] and [unmap] *)

(** The result is a fresh [float32] array whatever the dtype of [data]:
    the fill value and every item written are cast. *)
Definition _unmap {T F} `{!AsFloat32 T, !AsFloat32 F} (data : ndarray T)
    (count : nat) (inds : list Z) (fill : F) : result (ndarray float32) :=
  match data with
  | Arr1 data =>
      let ret := replicate count (as_float32 fill) in
      ret ← scatter ret inds ((fun x : T => as_float32 x) <$> data);
      Ok (Arr1 ret)
  | Arr2 ncols data =>
      let ret := replicate count (replicate ncols (as_float32 fill)) in
      ret ← scatter ret inds
              ((fun row : list T => (fun x : T => as_float32 x) <$> row)
                 <$> data);
      Ok (Arr2 ncols ret)
  end.

(** The data of an array known to have one (two) dimensions. *)
Definition as_1d {T} (a : ndarray T) : result (list T) :=
  match a with Arr1 data => Ok data | Arr2 _ _ => Raise ValueError end.
Definition as_2d {T} (a : ndarray T) : result (list (list T)) :=
  match a with Arr2 _ rows => Ok rows | Arr1 _ => Raise ValueError end.

Definition unmap_db {L T C} `{!AsFloat32 L, !AsFloat32 T, !AsFloat32 C}
    (db : anchored_of L T C) : result unmapped :=
  let inds := Z.of_nat <$> idx_inside db in
  labels' ← _unmap (Arr1 (labels db)) (total_anchors db) inds (-1)%Z ≫= as_1d;
  bbox_targets' ←
    _unmap (Arr2 4 (bbox_targets db)) (total_anchors db) inds 0%Z ≫= as_2d;
  max_classes' ←
    _unmap (Arr1 (max_classes db)) (total_anchors db) inds 0%Z ≫= as_1d;
  Ok {| source := source db;
        labels := labels';
        bbox_targets := bbox_targets';
        max_classes := max_classes';
        total_anchors := total_anchors db;
        idx_inside := idx_inside db;
        im_width := im_width db;
        im_height := im_height db |}.

Definition unmap {L T C} `{!AsFloat32 L, !AsFloat32 T, !AsFloat32 C}
    (roi_db : list (anchored_of L T C)) : result (list unmapped) :=
  mapM unmap_db roi_db.

(** ** Sampling and shuffling *)

Section Random.
(** The state of [self.be.rng] and the two draws the code makes from it.
    [choice be a size] is [rng.choice(a, size=size, replace=False)] and
    [permutation be a] is [rng.permutation(a)]; each returns the state the
    generator is left in. *)
Context {rng : Type}.
Context (choice : rng -> list nat -> Z -> result (list nat) * rng).
Context (permutation : rng -> list nat -> list nat * rng).

Definition _sample_anchors {L T C} `{!EqInt L} (be : rng)
    (db : anchored_of L T C) (nrois : Z) (fg_fractions : float64)
    (deterministic : bool)
  : result (list L * list (list T) * list nat) * rng :=
  match py_mul_int fg_fractions nrois ≫= py_int with
  | Raise e => (Raise e, be)
  | Ok num_fg =>
      let fg_idx := np_where ((fun l => eq_int l 1) <$> labels db) in
      let bg_idx := np_where ((fun l => eq_int l 0) <$> labels db) in
      let num_fg_this_img := Z.min num_fg (Z.of_nat (length fg_idx)) in
      let num_bg_this_img :=
        Z.min (nrois - num_fg_this_img) (Z.of_nat (length bg_idx)) in
      let '(drawn, be) :=
        if negb deterministic then
          let '(fg, be) := choice be fg_idx num_fg_this_img in
          match fg with
          | Raise e => (Raise e, be)
          | Ok fg_idx =>
              let '(bg, be) := choice be bg_idx num_bg_this_img in
              (bg_idx ← bg; Ok (fg_idx, bg_idx), be)
          end
        else
          (Ok (py_slice_to fg_idx num_fg_this_img,
               py_slice_to bg_idx num_bg_this_img), be) in
      ('(fg_idx, bg_idx) ← drawn;
       let idx := fg_idx ++ bg_idx in
       _ ← py_assert (Z.of_nat (length idx) =? nrois)%Z;
       l ← mapM (py_index (labels db)) idx;
       t ← mapM (py_index (bbox_targets db)) idx;
       Ok (l, t, idx),
       be)
  end.

Definition _shuffle_roidb {L T C} (be : rng)
    (roi_db : list (anchored_of L T C)) : result (list nat) * rng :=
  let widths := im_width <$> roi_db in
  let heights := im_height <$> roi_db in
  let horz := zip_with (fun w h => (h <=? w)%Z) widths heights in
  let vert := negb <$> horz in
  let horz_inds := np_where horz in
  let vert_inds := np_where vert in
  let '(perm_h, be) := permutation be horz_inds in
  let '(perm_v, be) := permutation be vert_inds in
  let inds := perm_h ++ perm_v in
  match reshape_rows2 inds with
  | Raise e => (Raise e, be)
  | Ok inds =>
      let '(row_perm, be) := permutation be (seq 0 (length inds)) in
      (rows ← mapM (py_index inds) row_perm; Ok (concat rows), be)
  end.

End Random.

(** ** [add_flipped_db] *)

(** A row of the box array of [load_annotation], whose dtype is [uint16]:
    the four coordinates are integers of [[0, 2^16)]. *)
Record ibox : Set := mkIbox {
  ix_min : Z;
  iy_min : Z;
  ix_max : Z;
  iy_max : Z
}.

(** An entry of [roi_db] as [load_annotation] returns it, with the dtype of
    its box array. *)
Record annotation : Type := mkAnnotation {
  ann_gt_bb : list ibox;
  ann_gt_classes : list Z;
  ann_img_shape : Z * Z;
  ann_flipped : bool
}.

(** Arithmetic on [uint16] wraps around modulo [2^16]. *)
Definition uint16 (z : Z) : Z := (z mod 65536)%Z.

(** The body of the loop of [add_flipped_db]: the copy of the box array with
    its two x columns rewritten, [width - x - 1] being computed and stored in
    [uint16]. *)
Definition add_flipped_entry (db : annotation) : annotation :=
  let width := (ann_img_shape db).1 in
  let bb :=
    (fun b =>
       mkIbox (uint16 (width - ix_max b - 1)) (iy_min b)
              (uint16 (width - ix_min b - 1)) (iy_max b)) <$> ann_gt_bb db in
  {| ann_gt_bb := bb;
     ann_gt_classes := ann_gt_classes db;
     ann_img_shape := ann_img_shape db;
     ann_flipped := true |}.

Definition add_flipped_db (roi_db : list annotation) : list annotation :=
  let roi_db_flipped := add_flipped_entry <$> roi_db in
  roi_db ++ roi_db_flipped.

(** The entry as the rest of the code reads it: [db['gt_bb'] * im_scale]
    promotes the [uint16] coordinates to floats. *)
Definition roi_of_annotation (db : annotation) : roi :=
  {| gt_bb :=
       (fun b =>
          mkBox (inject_Z (ix_min b)) (inject_Z (iy_min b))
                (inject_Z (ix_max b)) (inject_Z (iy_max b))) <$> ann_gt_bb db;
     gt_classes := ann_gt_classes db;
     img_shape := ann_img_shape db;
     flipped := ann_flipped db |}.

(** ** [normalize_bbox_targets] *)

(** The two module constants, lists of Python floats:
    [(0.0, 0.0, 0.0, 0.0)] and [(0.1, 0.1, 0.2, 0.2)], the latter being the
    doubles nearest to the tenths. *)
Definition BBOX_NORMALIZE_MEANS : list Q :=
  float_value <$> [double 0; double 0; double 0; double 0].
Definition BBOX_NORMALIZE_STDS : list Q :=
  float_value <$>
    [double (1 # 10); double (1 # 10); double (2 # 10); double (2 # 10)].

(** [a[idx] op= v] on the rows of a two-dimensional array, for an array
    [idx] of positions: the rows are gathered, combined with the row [v]
    column by column, and written back.  The rows and [v] have the four
    columns that [_compute_targets] and the two constants give them. *)
Definition inplace_rows (op : Q -> Q -> Q) (a : list (list Q))
    (idx : list nat) (v : list Q) : result (list (list Q)) :=
  rows ← mapM (py_index a) idx;
  Ok (foldl (fun a (ir : nat * list Q) => <[ir.1 := zip_with op ir.2 v]> a)
        a (zip idx rows)).

(** The inner loop body of [normalize_bbox_targets] for one class. *)
Definition normalize_class (means stds : list (list Q))
    (max_classes : list nat) (cls : nat) (targets : list (list Q))
  : result (list (list Q)) :=
  let cls_inds := np_where ((fun c => c =? cls) <$> max_classes) in
  mean ← py_index means cls;
  targets ← inplace_rows f64_minus targets cls_inds mean;
  std ← py_index stds cls;
  inplace_rows f64_quot targets cls_inds std.

(** [normalize_bbox_targets], in the branch that the module constant
    [BBOX_NORMALIZE_TARGETS_PRECOMPUTED = True] selects.  [num_classes] and
    [num_image_entries] are the attributes of [self] that it reads.  The
    entries are updated in place, in the order of [range(num_image_entries)]. *)
Definition normalize_bbox_targets (num_classes num_image_entries : nat)
    (roi_db : list anchored) : result (list anchored) :=
  let means := replicate num_classes BBOX_NORMALIZE_MEANS in
  let stds := replicate num_classes BBOX_NORMALIZE_STDS in
  for_range num_image_entries (fun im_i roi_db =>
    db ← py_index roi_db im_i;
    targets ←
      for_list (seq 1 (num_classes - 1)) (fun cls targets =>
        normalize_class means stds (max_classes db) cls targets)
        (bbox_targets db);
    Ok (<[im_i :=
           {| source := source db;
              labels := labels db;
              bbox_targets := targets;
              max_classes := max_classes db;
              total_anchors := total_anchors db;
              idx_inside := idx_inside db;
              im_width := im_width db;
              im_height := im_height db |}]> roi_db)) roi_db.

(** ** Names used in the statements *)

(** The pool of the positions that carry label [v]:
    [np.where(db['labels'] == v)[0]]. *)
Definition pool {L} `{!EqInt L} (v : Z) (labels : list L) : list nat :=
  np_where ((fun l => eq_int l v) <$> labels).

(** The number of foreground slots, [int(fg_fractions * nrois)], as
    [_sample_anchors] computes it. *)
Definition num_fg_of (fg_fractions : float64) (nrois : Z) : result Z :=
  py_mul_int fg_fractions nrois ≫= py_int.

(** The orientation test of [_shuffle_roidb]: [widths >= heights]. *)
Definition horizontal {L T C} (db : anchored_of L T C) : bool :=
  (im_height db <=? im_width db)%Z.

(** A target row after [normalize_bbox_targets]: the means subtracted, then
    divided by the standard deviations, column by column, each result
    rounded to the nearest double. *)
Definition normalized_row (row : list Q) : list Q :=
  zip_with f64_quot (zip_with f64_minus row BBOX_NORMALIZE_MEANS)
    BBOX_NORMALIZE_STDS.

(** What the code relies on from [rng.choice(a, size=k, replace=False)]:
    for a size between 0 and [len(a)] it returns [k] items of [a]. *)
Definition choice_spec {rng : Type}
    (choice : rng -> list nat -> Z -> result (list nat) * rng) : Prop :=
  forall (be : rng) (a : list nat) (k : Z),
    (0 <= k <= Z.of_nat (length a))%Z ->
    exists l, (choice be a k).1 = Ok l /\ Z.of_nat (length l) = k /\ l ⊆ a.

(** What the code relies on from [rng.permutation(a)]. *)
Definition permutation_spec {rng : Type}
    (permutation : rng -> list nat -> list nat * rng) : Prop :=
  forall (be : rng) (a : list nat), (permutation be a).1 ≡ₚ a.

(** ** Sample inputs *)

(** A box with integer corners. *)
Definition int_box (x1 y1 x2 y2 : Z) : Box :=
  mkBox (inject_Z x1) (inject_Z y1) (inject_Z x2) (inject_Z y2).

(** A data set with the thresholds of [PASCAL] and [n] anchors in all. *)
Definition small_set (n : nat) : ObjectLocalization :=
  {| MAX_SIZE := 1000;
     MIN_SIZE := 600;
     NEGATIVE_OVERLAP := 3 # 10;
     POSITIVE_OVERLAP := 7 # 10;
     FG_FRACTION := double (1 # 2);
     _total_anchors := n |}.

(** An image of 800 by 600 pixels with one box of class 7. *)
Definition one_box_image : roi :=
  mkRoi [int_box 0 0 15 15] [7%Z] (800, 600)%Z false.

(** The scale that [calculate_scale_shape] returns for it: the double 1. *)
Definition unit_scale : Q := float_value (np_float64 1).

(** The same image with a second, smaller box inside the first. *)
Definition two_box_image : roi :=
  mkRoi [int_box 0 0 15 15; int_box 0 0 7 7] [7%Z; 12%Z] (800, 600)%Z false.

(** The same image with its box away from the corner. *)
Definition far_box_image : roi :=
  mkRoi [int_box 300 300 400 400] [7%Z] (800, 600)%Z false.

(** The same image without any box, as [load_annotation] returns it when
    every object is marked difficult. *)
Definition no_box_image : roi := mkRoi [] [] (800, 600)%Z false.

(** A record of that image that carries the given labels over the full anchor
    grid, with null regression targets. *)
Definition labelled (labels : list Z) : anchored :=
  {| source := one_box_image;
     labels := labels;
     bbox_targets := replicate (length labels) [0; 0; 0; 0]%Q;
     max_classes := replicate (length labels) 0%nat;
     total_anchors := length labels;
     idx_inside := [];
     im_width := 800;
     im_height := 600 |}.

(** A labelled record of an image resized to [w] by [h] pixels. *)
Definition sized (w h : Z) : anchored :=
  {| source := one_box_image;
     labels := [];
     bbox_targets := [];
     max_classes := [];
     total_anchors := 0;
     idx_inside := [];
     im_width := w;
     im_height := h |}.

(** A labelled record of that image with the given regression targets and
    box positions. *)
Definition targeted (max_classes : list nat) (targets : list (list Q))
  : anchored :=
  {| source := two_box_image;
     labels := replicate (length targets) 1%Z;
     bbox_targets := targets;
     max_classes := max_classes;
     total_anchors := length targets;
     idx_inside := seq 0 (length targets);
     im_width := 800;
     im_height := 600 |}.

(** An annotation of an image of 500 by 375 pixels with two boxes. *)
Definition two_box_annotation : annotation :=
  mkAnnotation [mkIbox 47 239 194 370; mkIbox 7 11 351 373] [12%Z; 15%Z]
               (500, 375)%Z false.

(** A stand-in for [np.log] in the sample runs, whose statements do not look
    at the regression targets: the first-order value around 1. *)
Definition log_near_one (q : Q) : Q := (q - 1)%Q.

(** A random source without state: the draw takes the last [k] items,
    the permutation reverses. *)
Definition last_choice (be : unit) (a : list nat) (k : Z)
  : result (list nat) * unit :=
  if ((0 <=? k) && (k <=? Z.of_nat (length a)))%Z
  then (Ok (take (Z.to_nat k) (reverse a)), be)
  else (Raise ValueError, be).

Definition reverse_permutation (be : unit) (a : list nat) : list nat * unit :=
  (reverse a, be).

(** * Properties *)

(** ** The error monad *)

Lemma bind_Ok {A B} (a : A) (f : A -> result B) : (Ok a ≫= f) = f a.
Proof. reflexivity. Qed.

Lemma bind_Raise {A B} (e : exn) (f : A -> result B) : (Raise e ≫= f) = Raise e.
Proof. reflexivity. Qed.

Lemma py_index_Some {A} (l : list A) (i : nat) (x : A) :
  l !! i = Some x -> py_index l i = Ok x.
Proof. intros H. unfold py_index. rewrite H. reflexivity. Qed.

(** ** Loops *)

Lemma for_list_inv {S} (P : nat -> S -> Prop) (body : nat -> S -> result S) :
  forall (n k : nat) (s : S),
    P k s ->
    (forall i s, (k <= i < k + n)%nat -> P i s ->
       exists s', body i s = Ok s' /\ P (Datatypes.S i) s') ->
    exists s', for_list (seq k n) body s = Ok s' /\ P (k + n)%nat s'.
Proof.
  induction n as [|n IH]; intros k s HP Hstep; simpl.
  - exists s. rewrite Nat.add_0_r. auto.
  - destruct (Hstep k s) as (s1 & Hb & HP1); [lia | assumption |].
    rewrite Hb. simpl.
    destruct (IH (Datatypes.S k) s1 HP1) as (s2 & Hf & HP2).
    + intros i s' Hi. apply Hstep. lia.
    + exists s2. split; [exact Hf|].
      replace (k + Datatypes.S n)%nat with (Datatypes.S k + n)%nat by lia.
      exact HP2.
Qed.

Lemma for_range_inv {S} (P : nat -> S -> Prop) (body : nat -> S -> result S)
    (n : nat) (s : S) :
  P 0%nat s ->
  (forall i s, (i < n)%nat -> P i s ->
     exists s', body i s = Ok s' /\ P (Datatypes.S i) s') ->
  exists s', for_range n body s = Ok s' /\ P n s'.
Proof.
  intros H0 Hstep. unfold for_range.
  apply (for_list_inv P body n 0 s H0).
  intros i s' Hi. apply Hstep. lia.
Qed.

(** ** The overlap of two boxes *)

Section Overlap.
Local Open Scope Q_scope.

Lemma Qmin_minus_Qmax_le (a b c d : Q) :
  Qmin a b - Qmax c d <= a - c /\ Qmin a b - Qmax c d <= b - d.
Proof.
  pose proof (Q.le_min_l a b). pose proof (Q.le_min_r a b).
  pose proof (Q.le_max_l c d). pose proof (Q.le_max_r c d).
  split; lra.
Qed.

(** The divisor [ua] is positive whenever the division is reached, so
    [ZeroDivisionError] cannot occur. *)
Lemma union_area_pos (iw ih w1 h1 w2 h2 : Q) :
  0 < iw -> 0 < ih -> iw <= w1 -> ih <= h1 -> iw <= w2 -> ih <= h2 ->
  0 < iw * ih /\ iw * ih <= w1 * h1 /\ iw * ih <= w2 * h2.
Proof. intros. repeat split; nra. Qed.

Lemma py_div_pos (a b : Q) : 0 < b -> py_div a b = Ok (a / b).
Proof.
  intros Hb. unfold py_div.
  destruct (Qeq_bool b 0) eqn:E; [|reflexivity].
  apply Qeq_bool_iff in E. lra.
Qed.

Lemma cell_facts (a b : Box) :
  0 < cell_iw a b -> 0 < cell_ih a b ->
  0 < cell_iw a b * cell_ih a b /\
  cell_iw a b * cell_ih a b <= box_area a /\
  cell_iw a b * cell_ih a b <= box_area b.
Proof.
  intros Hw Hh. unfold box_area.
  destruct (Qmin_minus_Qmax_le (x_max a) (x_max b) (x_min a) (x_min b)).
  destruct (Qmin_minus_Qmax_le (y_max a) (y_max b) (y_min a) (y_min b)).
  apply union_area_pos; unfold cell_iw, cell_ih in *; lra.
Qed.

Lemma cell_ua_pos (a b : Box) :
  0 < cell_iw a b -> 0 < cell_ih a b -> 0 < cell_ua a b.
Proof.
  intros Hw Hh. destruct (cell_facts a b Hw Hh) as (? & ? & ?).
  unfold cell_ua. lra.
Qed.

Lemma iou_unfold (a b : Box) :
  iou a b =
  if Qlt_le_dec 0 (cell_iw a b) then
    if Qlt_le_dec 0 (cell_ih a b) then
      cell_iw a b * cell_ih a b / cell_ua a b
    else 0
  else 0.
Proof. reflexivity. Qed.

Lemma iou_range (a b : Box) : 0 <= iou a b <= 1.
Proof.
  rewrite iou_unfold.
  destruct (Qlt_le_dec 0 (cell_iw a b)) as [Hw|Hw]; [|lra].
  destruct (Qlt_le_dec 0 (cell_ih a b)) as [Hh|Hh]; [|lra].
  destruct (cell_facts a b Hw Hh) as (Hp & Ha & Hb).
  pose proof (cell_ua_pos a b Hw Hh) as Hu.
  split.
  - apply Qle_shift_div_l; [exact Hu | lra].
  - apply Qle_shift_div_r; [exact Hu |]. unfold cell_ua in *. lra.
Qed.

Lemma cell_iw_sym (a b : Box) : cell_iw a b == cell_iw b a.
Proof.
  unfold cell_iw.
  rewrite (Q.min_comm (x_max a)), (Q.max_comm (x_min a)). reflexivity.
Qed.

Lemma cell_ih_sym (a b : Box) : cell_ih a b == cell_ih b a.
Proof.
  unfold cell_ih.
  rewrite (Q.min_comm (y_max a)), (Q.max_comm (y_min a)). reflexivity.
Qed.

Lemma iou_sym (a b : Box) : iou a b == iou b a.
Proof.
  rewrite !iou_unfold.
  pose proof (cell_iw_sym a b) as Ew. pose proof (cell_ih_sym a b) as Eh.
  destruct (Qlt_le_dec 0 (cell_iw a b)), (Qlt_le_dec 0 (cell_iw b a));
    try lra.
  destruct (Qlt_le_dec 0 (cell_ih a b)), (Qlt_le_dec 0 (cell_ih b a));
    try lra.
  unfold cell_ua. rewrite Ew, Eh.
  rewrite (Qplus_comm (box_area a)). reflexivity.
Qed.

Lemma iou_self (a : Box) : valid_box a -> iou a a == 1.
Proof.
  intros [Hx Hy]. rewrite iou_unfold.
  assert (Ew : cell_iw a a == x_max a - x_min a + 1).
  { unfold cell_iw. rewrite Q.min_id, Q.max_id. reflexivity. }
  assert (Eh : cell_ih a a == y_max a - y_min a + 1).
  { unfold cell_ih. rewrite Q.min_id, Q.max_id. reflexivity. }
  destruct (Qlt_le_dec 0 (cell_iw a a)) as [Hw|Hw]; [|lra].
  destruct (Qlt_le_dec 0 (cell_ih a a)) as [Hh|Hh]; [|lra].
  pose proof (cell_ua_pos a a Hw Hh) as Hu.
  assert (Eu : cell_ua a a == cell_iw a a * cell_ih a a).
  { unfold cell_ua, box_area. rewrite Ew, Eh. ring. }
  rewrite <- Eu. field. lra.
Qed.

Lemma iou_disjoint (a b : Box) : disjoint_boxes a b -> iou a b = 0.
Proof.
  intros Hd. rewrite iou_unfold.
  pose proof (Q.le_min_l (x_max a) (x_max b)).
  pose proof (Q.le_min_r (x_max a) (x_max b)).
  pose proof (Q.le_max_l (x_min a) (x_min b)).
  pose proof (Q.le_max_r (x_min a) (x_min b)).
  pose proof (Q.le_min_l (y_max a) (y_max b)).
  pose proof (Q.le_min_r (y_max a) (y_max b)).
  pose proof (Q.le_max_l (y_min a) (y_min b)).
  pose proof (Q.le_max_r (y_min a) (y_min b)).
  destruct (Qlt_le_dec 0 (cell_iw a b)) as [Hw|Hw]; [|reflexivity].
  destruct (Qlt_le_dec 0 (cell_ih a b)) as [Hh|Hh]; [|reflexivity].
  exfalso. unfold cell_iw, cell_ih in *.
  destruct Hd as [Hd|[Hd|[Hd|Hd]]]; lra.
Qed.

End Overlap.

(** ** The overlap matrix *)

Lemma shape_zeros (R G : nat) : shape R G (zeros R G).
Proof.
  split; unfold zeros.
  - apply length_replicate.
  - apply Forall_replicate, length_replicate.
Qed.

Lemma shape_overlap_matrix (rp gt : list Box) :
  shape (length rp) (length gt) (overlap_matrix rp gt).
Proof.
  split; unfold overlap_matrix.
  - apply length_fmap.
  - apply Forall_fmap, Forall_forall. intros a _. simpl. apply length_fmap.
Qed.

Lemma shape_row (R G : nat) (m : matrix) (r : nat) (row : list Q) :
  shape R G m -> m !! r = Some row -> length row = G.
Proof.
  intros [_ HF] Hr. rewrite Forall_lookup in HF. exact (HF r row Hr).
Qed.

Lemma shape_set_entry (R G : nat) (m : matrix) (r g : nat) (v : Q) :
  shape R G m -> shape R G (set_entry m r g v).
Proof.
  intros [HL HF]. unfold set_entry.
  destruct (m !! r) as [row|] eqn:Hr; [|split; assumption].
  split.
  - rewrite length_insert. exact HL.
  - apply Forall_insert; [exact HF|]. cbv beta.
    rewrite length_insert. rewrite Forall_lookup in HF. exact (HF r row Hr).
Qed.

Lemma entry_zeros (R G r c : nat) :
  (r < R)%nat -> (c < G)%nat -> entry (zeros R G) r c = Some 0%Q.
Proof.
  intros Hr Hc. unfold entry, zeros.
  rewrite lookup_replicate_2 by exact Hr. simpl.
  apply lookup_replicate_2. exact Hc.
Qed.

Lemma entry_set_entry (R G : nat) (m : matrix) (r g r' c : nat) (v : Q) :
  shape R G m -> (r < R)%nat -> (g < G)%nat ->
  entry (set_entry m r g v) r' c =
  if decide (r' = r /\ c = g) then Some v else entry m r' c.
Proof.
  intros Hs Hr Hg. unfold set_entry, entry.
  destruct (m !! r) as [row|] eqn:Hrow.
  - pose proof (shape_row R G m r row Hs Hrow) as Hlen.
    destruct (decide (r' = r)) as [->|Hne].
    + rewrite list_lookup_insert_eq by (eapply lookup_lt_Some; eassumption).
      rewrite Hrow. simpl.
      destruct (decide (c = g)) as [->|Hcg].
      * rewrite list_lookup_insert_eq by lia.
        rewrite decide_True by auto. reflexivity.
      * rewrite list_lookup_insert_ne by auto.
        rewrite decide_False by tauto. reflexivity.
    + rewrite list_lookup_insert_ne by auto.
      rewrite decide_False by tauto. reflexivity.
  - apply lookup_ge_None in Hrow. destruct Hs as [HL _]. lia.
Qed.

Lemma entry_overlap_matrix (rp gt : list Box) (r c : nat) (a b : Box) :
  rp !! r = Some a -> gt !! c = Some b ->
  entry (overlap_matrix rp gt) r c = Some (iou a b).
Proof.
  intros Ha Hb. unfold entry, overlap_matrix.
  rewrite list_lookup_fmap, Ha. simpl.
  rewrite list_lookup_fmap, Hb. reflexivity.
Qed.

Lemma matrix_ext (R G : nat) (m m' : matrix) :
  shape R G m -> shape R G m' ->
  (forall r c, (r < R)%nat -> (c < G)%nat -> entry m r c = entry m' r c) ->
  m = m'.
Proof.
  intros Hs Hs' He. apply list_eq. intros r.
  destruct (m !! r) as [row|] eqn:Hr.
  - assert (Hlt : (r < R)%nat).
    { destruct Hs as [HL _]. rewrite <- HL. eapply lookup_lt_Some; eauto. }
    destruct (m' !! r) as [row'|] eqn:Hr'.
    + f_equal. apply list_eq. intros c.
      pose proof (shape_row _ _ _ _ _ Hs Hr) as Hl.
      pose proof (shape_row _ _ _ _ _ Hs' Hr') as Hl'.
      destruct (decide (c < G)%nat) as [Hc|Hc].
      * specialize (He r c Hlt Hc). unfold entry in He.
        rewrite Hr, Hr' in He. exact He.
      * rewrite !lookup_ge_None_2 by lia. reflexivity.
    + apply lookup_ge_None in Hr'. destruct Hs' as [HL' _]. lia.
  - apply lookup_ge_None in Hr. symmetry. apply lookup_ge_None.
    destruct Hs as [HL _], Hs' as [HL' _]. lia.
Qed.

(** One iteration of the inner loop writes [iou rp_r gt_g] into cell
    [(r, g)], which held the initial zero, and raises nothing. *)
Lemma inner_body_spec (R G : nat) (ov : matrix) (rp_r gt_g : Box) (r g : nat) :
  shape R G ov -> (r < R)%nat -> (g < G)%nat ->
  entry ov r g = Some 0%Q ->
  exists ov',
    (let gt_box_area :=
       ((x_max gt_g - x_min gt_g + 1) * (y_max gt_g - y_min gt_g + 1))%Q in
     let iw :=
       (Qmin (x_max rp_r) (x_max gt_g) - Qmax (x_min rp_r) (x_min gt_g) + 1)%Q in
     if Qlt_le_dec 0 iw then
       let ih :=
         (Qmin (y_max rp_r) (y_max gt_g) - Qmax (y_min rp_r) (y_min gt_g) + 1)%Q in
       if Qlt_le_dec 0 ih then
         let ua :=
           ((x_max rp_r - x_min rp_r + 1) * (y_max rp_r - y_min rp_r + 1)
            + gt_box_area - iw * ih)%Q in
         v ← py_div (iw * ih) ua;
         Ok (set_entry ov r g v)
       else Ok ov
     else Ok ov) = Ok ov' /\
    shape R G ov' /\
    forall r' c, entry ov' r' c =
      if decide (r' = r /\ c = g) then Some (iou rp_r gt_g) else entry ov r' c.
Proof.
  intros Hs Hr Hg H0. cbv zeta. rewrite iou_unfold.
  change (Qmin (x_max rp_r) (x_max gt_g) - Qmax (x_min rp_r) (x_min gt_g) + 1)%Q
    with (cell_iw rp_r gt_g).
  change (Qmin (y_max rp_r) (y_max gt_g) - Qmax (y_min rp_r) (y_min gt_g) + 1)%Q
    with (cell_ih rp_r gt_g).
  change ((x_max rp_r - x_min rp_r + 1) * (y_max rp_r - y_min rp_r + 1)
          + (x_max gt_g - x_min gt_g + 1) * (y_max gt_g - y_min gt_g + 1)
          - cell_iw rp_r gt_g * cell_ih rp_r gt_g)%Q
    with (cell_ua rp_r gt_g).
  assert (Hkeep : forall r' c,
    entry ov r' c = if decide (r' = r /\ c = g) then Some 0%Q else entry ov r' c).
  { intros r' c. destruct (decide (r' = r /\ c = g)) as [[-> ->]|]; auto. }
  destruct (Qlt_le_dec 0 (cell_iw rp_r gt_g)) as [Hw|Hw];
    [|exists ov; auto].
  destruct (Qlt_le_dec 0 (cell_ih rp_r gt_g)) as [Hh|Hh];
    [|exists ov; auto].
  rewrite py_div_pos by (apply cell_ua_pos; assumption).
  eexists. split; [reflexivity|]. split.
  - apply shape_set_entry. exact Hs.
  - intros r' c. apply (entry_set_entry R G); assumption.
Qed.

(** The two loops fill the matrix with [iou] and never raise. *)
Lemma calculate_bb_overlap_spec (rp gt : list Box) :
  calculate_bb_overlap rp gt = Ok (overlap_matrix rp gt).
Proof.
  unfold calculate_bb_overlap.
  set (R := length rp). set (G := length gt).
  pose (P := fun (g : nat) (ov : matrix) =>
    shape R G ov /\
    forall r c a b, rp !! r = Some a -> gt !! c = Some b ->
      entry ov r c = Some (if decide (c < g)%nat then iou a b else 0%Q)).
  match goal with |- for_range G ?body ?s = _ =>
    destruct (for_range_inv P body G s) as (ov & Hrun & Hsh & Hov)
  end.
  - split; [apply shape_zeros|].
    intros r c a b Ha Hb. rewrite decide_False by lia.
    apply entry_zeros; eapply lookup_lt_Some; eassumption.
  - intros g ov Hg [Hsh Hov].
    destruct (lookup_lt_is_Some_2 gt g Hg) as [gt_g Hgt].
    rewrite (py_index_Some _ _ _ Hgt), bind_Ok.
    pose (Q := fun (r : nat) (ov : matrix) =>
      shape R G ov /\
      forall r' c a b, rp !! r' = Some a -> gt !! c = Some b ->
        entry ov r' c =
        Some (if decide (c < g \/ (c = g /\ r' < r))%nat then iou a b else 0%Q)).
    match goal with |- exists s', for_range R ?body ?s = _ /\ _ =>
      destruct (for_range_inv Q body R s) as (ov' & Hrun & Hsh' & Hov')
    end.
    + split; [exact Hsh|]. intros r' c a b Ha Hb.
      rewrite (Hov r' c a b Ha Hb).
      destruct (decide (c < g)%nat).
      * rewrite decide_True by auto. reflexivity.
      * rewrite decide_False by lia. reflexivity.
    + intros r ov1 Hr [Hsh1 Hov1].
      destruct (lookup_lt_is_Some_2 rp r Hr) as [rp_r Hrp].
      rewrite (py_index_Some _ _ _ Hrp), bind_Ok.
      destruct (inner_body_spec R G ov1 rp_r gt_g r g Hsh1 Hr Hg)
        as (ov2 & Hbody & Hsh2 & Hov2).
      { rewrite (Hov1 r g rp_r gt_g Hrp Hgt).
        rewrite decide_False by lia. reflexivity. }
      exists ov2. split; [exact Hbody|]. split; [exact Hsh2|].
      intros r' c a b Ha Hb. rewrite Hov2.
      destruct (decide (r' = r /\ c = g)) as [[-> ->]|Hne].
      * rewrite decide_True by lia. congruence.
      * rewrite (Hov1 r' c a b Ha Hb).
        destruct (decide (c < g \/ c = g /\ r' < r)%nat).
        -- rewrite decide_True by lia. reflexivity.
        -- rewrite decide_False by lia. reflexivity.
    + exists ov'. split; [exact Hrun|]. split; [exact Hsh'|].
      intros r c a b Ha Hb. rewrite (Hov' r c a b Ha Hb).
      pose proof (lookup_lt_Some _ _ _ Ha) as Hlt. fold R in Hlt.
      destruct (decide (c < g \/ c = g /\ r < R)%nat).
      * rewrite decide_True by lia. reflexivity.
      * rewrite decide_False by lia. reflexivity.
  - rewrite Hrun. f_equal.
    apply (matrix_ext R G); [exact Hsh | apply shape_overlap_matrix |].
    intros r c Hr Hc.
    destruct (lookup_lt_is_Some_2 rp r Hr) as [a Ha].
    destruct (lookup_lt_is_Some_2 gt c Hc) as [b Hb].
    rewrite (Hov r c a b Ha Hb), decide_True by exact Hc.
    symmetry. apply entry_overlap_matrix; assumption.
Qed.

Lemma pairwise_overlap_iou (a b : Box) : pairwise_overlap a b = Ok (iou a b).
Proof.
  unfold pairwise_overlap. rewrite calculate_bb_overlap_spec. reflexivity.
Qed.

(** Boxes with integer corners share no pixel as soon as one ends before
    the other starts. *)
Lemma disjoint_int_boxes (x1 y1 x2 y2 x1' y1' x2' y2' : Z) :
  (x2 < x1' \/ x2' < x1 \/ y2 < y1' \/ y2' < y1)%Z ->
  disjoint_boxes (int_box x1 y1 x2 y2) (int_box x1' y1' x2' y2').
Proof.
  unfold disjoint_boxes, int_box. cbn [x_min y_min x_max y_max].
  change 1%Q with (inject_Z 1). rewrite <- !inject_Z_plus, <- !Zle_Qle. lia.
Qed.

(** C7. For valid boxes [A] and [B], the overlap computed by
    [calculate_bb_overlap] as an isolated pairwise call is the same in both
    orders and lies in [[0, 1]]; the overlap of [A] with itself is 1; and
    boxes that share no pixel (pixel-inclusive extents) have overlap 0. *)
Theorem calculate_bb_overlap_pairwise (A B : Box) :
  valid_box A -> valid_box B ->
  exists ab ba aa : Q,
    pairwise_overlap A B = Ok ab /\
    pairwise_overlap B A = Ok ba /\
    pairwise_overlap A A = Ok aa /\
    (ab == ba)%Q /\
    (0 <= ab <= 1)%Q /\
    (aa == 1)%Q /\
    (disjoint_boxes A B -> ab == 0)%Q.
Proof.
  intros HA HB.
  exists (iou A B), (iou B A), (iou A A).
  rewrite !pairwise_overlap_iou.
  repeat split; try reflexivity.
  - apply iou_sym.
  - apply iou_range.
  - apply iou_range.
  - apply iou_self, HA.
  - intros Hd. rewrite (iou_disjoint A B Hd). reflexivity.
Qed.

Lemma calculate_bb_overlap_pairwise_witness :
  valid_box (int_box 0 0 9 9) /\ valid_box (int_box 20 0 29 9) /\
  disjoint_boxes (int_box 0 0 9 9) (int_box 20 0 29 9) /\
  exists ab ba aa : Q,
    pairwise_overlap (int_box 0 0 9 9) (int_box 20 0 29 9) = Ok ab /\
    pairwise_overlap (int_box 20 0 29 9) (int_box 0 0 9 9) = Ok ba /\
    pairwise_overlap (int_box 0 0 9 9) (int_box 0 0 9 9) = Ok aa /\
    (ab == ba)%Q /\ (0 <= ab <= 1)%Q /\ (aa == 1)%Q /\ (ab == 0)%Q.
Proof.
  assert (HA : valid_box (int_box 0 0 9 9))
    by (split; unfold Qle; simpl; lia).
  assert (HB : valid_box (int_box 20 0 29 9))
    by (split; unfold Qle; simpl; lia).
  assert (HD : disjoint_boxes (int_box 0 0 9 9) (int_box 20 0 29 9))
    by (left; unfold Qle; simpl; lia).
  split; [exact HA|]. split; [exact HB|]. split; [exact HD|].
  destruct (calculate_bb_overlap_pairwise _ _ HA HB)
    as (ab & ba & aa & H1 & H2 & H3 & H4 & H5 & H6 & H7).
  exists ab, ba, aa. auto 10.
Defined.

(** ** Conversions between integers and floats *)

Lemma digits2_pos_iter (p k : positive) :
  digits2_pos (Pos.iter xO p k) = (digits2_pos p + k)%positive.
Proof.
  induction k as [|k IH] using Pos.peano_ind.
  - cbn. lia.
  - rewrite Pos.iter_succ. cbn [digits2_pos]. rewrite IH. lia.
Qed.

Lemma digits2_pos_bound (p : positive) (n : Z) :
  (0 <= n)%Z -> (Zpos p < 2 ^ n)%Z -> (Zpos (digits2_pos p) <= n)%Z.
Proof.
  revert n. induction p as [p IH|p IH|]; intros n Hn Hp; cbn [digits2_pos].
  - assert (n <> 0)%Z by (intros ->; cbn in Hp; lia).
    replace n with (Z.succ (n - 1)) in Hp by lia.
    rewrite Z.pow_succ_r in Hp by lia.
    specialize (IH (n - 1)%Z). lia.
  - assert (n <> 0)%Z by (intros ->; cbn in Hp; lia).
    replace n with (Z.succ (n - 1)) in Hp by lia.
    rewrite Z.pow_succ_r in Hp by lia.
    specialize (IH (n - 1)%Z). lia.
  - assert (n <> 0)%Z by (intros ->; cbn in Hp; lia). lia.
Qed.

(** A mantissa that already fits the format is left as it is. *)
Lemma binary_round_aux_canonical (prec emax : Z) (s : bool) (m : positive)
    (e : Z) :
  fexp prec emax (Zpos (digits2_pos m) + e) = e ->
  (e <= emax - prec)%Z ->
  binary_round_aux prec emax s (Zpos m) e loc_Exact = S754_finite s m e.
Proof.
  intros Hc He. unfold binary_round_aux, shr_fexp.
  cbn [Zdigits2 shr_record_of_loc]. rewrite Hc, Z.sub_diag.
  cbn [shr shr_m loc_of_shr_record round_nearest_even Zdigits2
       shr_record_of_loc].
  rewrite Hc, Z.sub_diag. cbn [shr shr_m].
  destruct (Z.leb_spec e (emax - prec)); [reflexivity | lia].
Qed.

(** An integer of at most [prec] bits is converted exactly. *)
Lemma binary_round_small (prec emax : Z) (s : bool) (p : positive) :
  (0 < prec)%Z -> (prec < emax)%Z ->
  (Zpos (digits2_pos p) <= prec)%Z ->
  exists m e,
    binary_round prec emax s p 0 = S754_finite s m e /\
    (e <= 0)%Z /\ Zpos m = (Zpos p * 2 ^ (- e))%Z.
Proof.
  intros Hprec Hemax Hd. unfold binary_round.
  assert (Hf : fexp prec emax (Zpos (digits2_pos p) + 0)
               = (Zpos (digits2_pos p) - prec)%Z).
  { unfold fexp, emin. lia. }
  rewrite Hf. unfold shl_align.
  destruct (Zpos (digits2_pos p) - prec - 0)%Z as [|k|k] eqn:Ek; [|lia|].
  - exists p, 0%Z. split; [|split; [lia|cbn; lia]].
    apply binary_round_aux_canonical; [|lia].
    unfold fexp, emin. lia.
  - exists (Pos.iter xO p k), (Zpos (digits2_pos p) - prec)%Z.
    split; [|split; [lia|]].
    + apply binary_round_aux_canonical; [|lia].
      rewrite digits2_pos_iter. unfold fexp, emin. lia.
    + replace (- (Zpos (digits2_pos p) - prec))%Z with (Zpos k) by lia.
      clear. induction k as [|k IH] using Pos.peano_ind.
      * cbn. lia.
      * rewrite Pos.iter_succ, Pos2Z.inj_xO, IH, Pos2Z.inj_succ,
          Z.pow_succ_r by lia. lia.
Qed.

Lemma np_float64_pos (z : Z) :
  (0 < z < 2 ^ 53)%Z ->
  exists m e,
    np_float64 z = S754_finite false m e /\
    (e <= 0)%Z /\ Zpos m = (z * 2 ^ (- e))%Z.
Proof.
  intros [Hlo Hhi]. destruct z as [|p|p]; [lia| |lia].
  unfold np_float64. cbn [binary_normalize].
  apply binary_round_small; [lia | lia |].
  apply digits2_pos_bound; [lia | exact Hhi].
Qed.

Lemma py_float_pos (z : Z) :
  (0 < z < 2 ^ 53)%Z -> py_float z = Ok (np_float64 z).
Proof.
  intros H. unfold py_float.
  destruct (np_float64_pos z H) as (m & e & -> & _). reflexivity.
Qed.

Lemma py_truediv_pos (a : float64) (z : Z) :
  (0 < z < 2 ^ 53)%Z ->
  py_truediv a (np_float64 z) = Ok (f64_div a (np_float64 z)).
Proof.
  intros H. unfold py_truediv.
  destruct (np_float64_pos z H) as (m & e & -> & _). reflexivity.
Qed.

(** An integer that [int32] holds is stored as it is. *)
Lemma np_int32_small (z : Z) :
  (- 2 ^ 31 <= z < 2 ^ 31)%Z -> np_int32 z = Ok z.
Proof.
  intros H. unfold np_int32.
  destruct (Z.leb_spec (- 2 ^ 63) z); [|lia].
  destruct (Z.ltb_spec z (2 ^ 63)); [|lia]. cbn [andb].
  rewrite Z.mod_small by lia. f_equal. lia.
Qed.

Lemma float_value_exact (s : bool) (m p : positive) (e : Z) :
  (e <= 0)%Z -> Zpos m = (Zpos p * 2 ^ (- e))%Z ->
  float_value (S754_finite s m e) == inject_Z (cond_Zopp s (Zpos p)).
Proof.
  intros He Hm. unfold float_value.
  assert (Hpow : (2 ^ e == / inject_Z (2 ^ (- e)))%Q).
  { rewrite <- (Z.opp_involutive e) at 1. rewrite Qpower_opp.
    rewrite Zpower_Qpower by lia. reflexivity. }
  assert (Hnz : ~ inject_Z (2 ^ (- e)) == 0).
  { change 0%Q with (inject_Z 0). rewrite inject_Z_injective.
    apply Z.pow_nonzero; lia. }
  rewrite Hpow.
  assert (Hz : cond_Zopp s (Zpos m)
               = (cond_Zopp s (Zpos p) * 2 ^ (- e))%Z).
  { destruct s; cbn [cond_Zopp]; rewrite Hm; lia. }
  rewrite Hz, inject_Z_mult. field. exact Hnz.
Qed.

(** [float32] holds every integer of magnitude below [2^24]. *)
Lemma as_float32_int_value (z : Z) :
  (- 2 ^ 24 < z < 2 ^ 24)%Z -> float_value (as_float32 z) == inject_Z z.
Proof.
  intros H. unfold as_float32, float32_of_int.
  destruct z as [|p|p]; cbn [binary_normalize].
  - reflexivity.
  - destruct (binary_round_small 24 128 false p) as (m & e & -> & He & Hm);
      [lia | lia | apply digits2_pos_bound; lia |].
    apply (float_value_exact false m p e He Hm).
  - destruct (binary_round_small 24 128 true p) as (m & e & -> & He & Hm);
      [lia | lia | apply digits2_pos_bound; lia |].
    apply (float_value_exact true m p e He Hm).
Qed.

(** ** Comparing an item with an integer literal *)

#[global] Instance eq_int_Z_laws : EqIntLaws Z.
Proof.
  intros x a b Ha Hb. unfold eq_int, eq_int_Z in *.
  apply Z.eqb_eq in Ha, Hb. congruence.
Qed.

#[global] Instance eq_int_float_laws : EqIntLaws spec_float.
Proof.
  intros x a b Ha Hb. unfold eq_int, eq_int_float in *.
  destruct x as [s|s| |s m e]; try discriminate.
  - apply Z.eqb_eq in Ha, Hb. congruence.
  - apply Qeq_bool_eq in Ha, Hb. apply inject_Z_injective.
    rewrite <- Ha, <- Hb. reflexivity.
Qed.

(** ** Rounding and the resize rule *)

(** On a shape that [int32] holds, with positive sides, no conversion and
    no division fails, and the code follows the rule of the specification
    read in double precision. *)
Lemma calculate_scale_shape_positive (self : ObjectLocalization) (w h : Z) :
  (0 < w < 2 ^ 31)%Z -> (0 < h < 2 ^ 31)%Z ->
  (0 < MIN_SIZE self < 2 ^ 53)%Z -> (0 < MAX_SIZE self < 2 ^ 53)%Z ->
  calculate_scale_shape self (w, h)
    = Ok (resolve_double (w, h) (MIN_SIZE self) (MAX_SIZE self)).
Proof.
  intros Hw Hh Hmn Hmx.
  unfold calculate_scale_shape, resolve_double. cbn [fst snd].
  rewrite (np_int32_small w), bind_Ok by lia.
  rewrite (np_int32_small h), bind_Ok by lia.
  rewrite (py_float_pos _ Hmn), bind_Ok.
  rewrite py_truediv_pos, bind_Ok by lia.
  destruct (SFltb _ _).
  - rewrite (py_float_pos _ Hmx), bind_Ok.
    rewrite py_truediv_pos, bind_Ok by lia. reflexivity.
  - rewrite bind_Ok. reflexivity.
Qed.

(** The original C8 fails on the code in two ways.  The quotient and the
    products are rounded doubles: for the shape [(350, 224)] the exact
    product [350 * 600/224] is 937.5, which the rule over the rationals
    rounds to 938, while the code returns 937.  And the sides are stored as
    [int32]: a side of [2^31] wraps to [-2^31], and the code returns a
    negative scale and a shape with a side of 0. *)
Lemma calculate_scale_shape_not_exact :
  (exists scale : Q,
     calculate_scale_shape (PASCAL 62) (350, 224)%Z
       = Ok (scale, (937, 600)%Z)) /\
  (inject_Z 350 * (600 # 224) == 1875 # 2)%Q /\
  (resolve (350, 224)%Z 600 1000).2 = (938, 600)%Z /\
  (exists scale : Q,
     calculate_scale_shape (PASCAL 62) (2 ^ 31, 600)%Z
       = Ok (scale, (600, 0)%Z) /\
     (scale < 0)%Q /\
     ((resolve (2 ^ 31, 600)%Z 600 1000).1 == 1000 # 2147483648)%Q).
Proof.
  split; [eexists; vm_compute; reflexivity|].
  split; [reflexivity|].
  split; [vm_compute; reflexivity|].
  eexists. split; [vm_compute; reflexivity|].
  split; reflexivity.
Qed.

(** C8. For a raw image shape [(w, h)] with components in [[1, 2^31)],
    which [int32] holds, and sides below [2^53], [calculate_scale_shape]
    returns what the specified rule gives in double precision
    ([resolve_double]): the scale is the double nearest to
    [min_side / min(w,h)], replaced by the double nearest to
    [max_side / max(w,h)] when the rounded double product with the larger
    side exceeds [max_side], and the shape is the rounded double products.
    With sides 600 and 1000, [(2000, 1000)] gives scale 1/2 and shape
    [(1000, 500)], and [(800, 600)] gives scale 1 and shape [(800, 600)]. *)
Theorem calculate_scale_shape_resolve (self : ObjectLocalization) (w h : Z) :
  (0 < w < 2 ^ 31)%Z -> (0 < h < 2 ^ 31)%Z ->
  (0 < MIN_SIZE self < 2 ^ 53)%Z -> (0 < MAX_SIZE self < 2 ^ 53)%Z ->
  calculate_scale_shape self (w, h)
    = Ok (resolve_double (w, h) (MIN_SIZE self) (MAX_SIZE self)) /\
  (MIN_SIZE self = 600%Z -> MAX_SIZE self = 1000%Z ->
   (exists scale : Q,
      calculate_scale_shape self (2000, 1000)%Z = Ok (scale, (1000, 500)%Z) /\
      (scale == 1 # 2)%Q) /\
   (exists scale : Q,
      calculate_scale_shape self (800, 600)%Z = Ok (scale, (800, 600)%Z) /\
      (scale == 1)%Q)).
Proof.
  intros Hw Hh Hmn Hmx. split.
  - apply calculate_scale_shape_positive; assumption.
  - intros Emn Emx. unfold calculate_scale_shape. rewrite Emn, Emx.
    split; eexists; (split; [vm_compute; reflexivity | reflexivity]).
Qed.

Lemma calculate_scale_shape_resolve_witness :
  calculate_scale_shape (PASCAL 62) (500, 375)%Z
    = Ok (resolve_double (500, 375)%Z 600 1000) /\
  (exists scale : Q,
     calculate_scale_shape (PASCAL 62) (2000, 1000)%Z
       = Ok (scale, (1000, 500)%Z) /\ (scale == 1 # 2)%Q) /\
  (exists scale : Q,
     calculate_scale_shape (PASCAL 62) (800, 600)%Z
       = Ok (scale, (800, 600)%Z) /\ (scale == 1)%Q).
Proof.
  destruct (calculate_scale_shape_resolve (PASCAL 62) 500 375) as [H1 H2];
    [cbn; lia | cbn; lia | cbn; lia | cbn; lia |].
  split; [exact H1|]. apply H2; reflexivity.
Defined.

(** ** Traversals in the error monad *)

Lemma mapM_Ok {A B} (f : A -> result B) (l : list A) (k : list B) :
  Forall2 (fun x y => f x = Ok y) l k -> mapM f l = Ok k.
Proof.
  induction 1 as [|x y l k Hxy _ IH]; [reflexivity|].
  cbn [mapM]. rewrite Hxy, bind_Ok.
  change (mapM f l ≫= (fun k0 => mret (y :: k0)) = Ok (y :: k)).
  rewrite IH. reflexivity.
Qed.

Lemma mapM_Ok_inv {A B} (f : A -> result B) (l : list A) (k : list B) :
  mapM f l = Ok k -> Forall2 (fun x y => f x = Ok y) l k.
Proof.
  revert k. induction l as [|x l IH]; intros k H.
  - cbn in H. injection H as <-. constructor.
  - cbn [mapM] in H. destruct (f x) as [y|e] eqn:Hx; [|discriminate].
    rewrite bind_Ok in H.
    change (mapM f l ≫= (fun k0 => mret (y :: k0)) = Ok k) in H.
    destruct (mapM f l) as [k'|e] eqn:Hl; [|discriminate].
    cbn in H. injection H as <-. constructor; [exact Hx | apply IH; reflexivity].
Qed.

Lemma mapM_Ok_fmap {A B} (f : A -> result B) (g : A -> B) (l : list A) :
  Forall (fun x => f x = Ok (g x)) l -> mapM f l = Ok (g <$> l).
Proof.
  intros H. apply mapM_Ok. induction H; constructor; auto.
Qed.

(** ** Gather and scatter *)

Lemma norm_index_valid (n : nat) (i : Z) :
  (0 <= i < Z.of_nat n)%Z -> norm_index n i = Ok (Z.to_nat i).
Proof.
  intros H. unfold norm_index.
  destruct (0 <=? i)%Z eqn:E1; [|lia].
  destruct (i <? Z.of_nat n)%Z eqn:E2; [reflexivity|lia].
Qed.

Lemma np_take_valid {A} (a : list A) (inds : list Z) :
  Forall (fun i => 0 <= i < Z.of_nat (length a))%Z inds ->
  exists sub,
    np_take a inds = Ok sub /\
    Forall2 (fun i x => a !! Z.to_nat i = Some x) inds sub.
Proof.
  induction 1 as [|i inds Hi _ (sub & Hsub & HF)].
  - exists []. split; [reflexivity | constructor].
  - destruct (lookup_lt_is_Some_2 a (Z.to_nat i)) as [x Hx]; [lia|].
    exists (x :: sub). split; [|constructor; assumption].
    apply mapM_Ok. constructor.
    + rewrite (norm_index_valid _ _ Hi), bind_Ok.
      apply py_index_Some, Hx.
    + apply mapM_Ok_inv, Hsub.
Qed.

(** Writing, one after the other, values that are those of [full] at the
    written positions. *)
Lemma foldl_insert_lookup {A} (full : list A) (ps : list (nat * A)) :
  forall ret : list A,
    Forall (fun jx : nat * A => full !! jx.1 = Some jx.2 /\
                                (jx.1 < length ret)%nat) ps ->
    let ret' := foldl (fun r (jx : nat * A) => <[jx.1 := jx.2]> r) ret ps in
    length ret' = length ret /\
    forall i, ret' !! i = if decide (i ∈ ps.*1) then full !! i else ret !! i.
Proof.
  induction ps as [|[j x] ps IH]; intros ret HF; cbn zeta.
  - split; [reflexivity|]. intros i. cbn.
    rewrite decide_False by apply not_elem_of_nil. reflexivity.
  - apply Forall_cons in HF as [[Hjx Hj] HF]. cbn [fst snd] in Hjx, Hj.
    cbn [foldl fst snd].
    destruct (IH (<[j := x]> ret)) as [Hlen Hlk].
    { eapply Forall_impl; [exact HF|]. intros [j' x'] [? ?].
      split; [assumption|]. rewrite length_insert. assumption. }
    split; [rewrite Hlen; apply length_insert|].
    intros i. rewrite Hlk. cbn [fmap list_fmap fst].
    destruct (decide (i ∈ ps.*1)) as [Hin|Hnin].
    + rewrite decide_True by (right; exact Hin). reflexivity.
    + destruct (decide (i = j)) as [->|Hne].
      * rewrite decide_True by left.
        rewrite list_lookup_insert_eq by exact Hj. congruence.
      * rewrite decide_False.
        -- apply list_lookup_insert_ne. congruence.
        -- rewrite elem_of_cons. tauto.
Qed.

Lemma scatter_gathered {A} (full : list A) (fill : A) (inds : list Z)
    (sub : list A) :
  Forall (fun i => 0 <= i < Z.of_nat (length full))%Z inds ->
  Forall2 (fun i x => full !! Z.to_nat i = Some x) inds sub ->
  exists ret,
    scatter (replicate (length full) fill) inds sub = Ok ret /\
    length ret = length full /\
    forall j, (j < length full)%nat ->
      ret !! j = if decide (Z.of_nat j ∈ inds) then full !! j else Some fill.
Proof.
  intros Hv Hsub. unfold scatter.
  rewrite length_replicate.
  rewrite (mapM_Ok_fmap _ Z.to_nat); cycle 1.
  { eapply Forall_impl; [exact Hv|]. intros i Hi. apply norm_index_valid, Hi. }
  rewrite bind_Ok.
  pose proof (Forall2_length _ _ _ Hsub) as Hlen.
  rewrite decide_True by (symmetry; exact Hlen).
  eexists. split; [reflexivity|].
  pose proof (foldl_insert_lookup full (zip (Z.to_nat <$> inds) sub)
                (replicate (length full) fill)) as Hf.
  cbn zeta in Hf. destruct Hf as [Hl Hk].
  { clear Hlen. induction Hsub as [|i x inds sub Hix _ IH]; [constructor|].
    apply Forall_cons in Hv as [Hi Hv]. cbn. constructor.
    - cbn. rewrite length_replicate. split; [exact Hix | lia].
    - apply IH, Hv. }
  split; [rewrite Hl; apply length_replicate|].
  intros j Hj. rewrite Hk.
  rewrite fst_zip by (rewrite length_fmap; lia).
  rewrite lookup_replicate_2 by exact Hj.
  destruct (decide (j ∈ Z.to_nat <$> inds)) as [Hin|Hnin].
  - rewrite decide_True; [reflexivity|].
    apply list_elem_of_fmap in Hin as (i & -> & Hi).
    rewrite Forall_forall in Hv. specialize (Hv i Hi).
    rewrite Z2Nat.id by lia. exact Hi.
  - rewrite decide_False; [reflexivity|].
    intros Hin. apply Hnin. apply list_elem_of_fmap.
    exists (Z.of_nat j). split; [lia | exact Hin].
Qed.

(** The scatter of [_unmap] on what was gathered from [full], the items
    going through the cast [f] of the target array. *)
Lemma scatter_gathered_cast {A B} (f : A -> B) (full : list A) (fill : B)
    (inds : list Z) (sub : list A) :
  Forall (fun i => 0 <= i < Z.of_nat (length full))%Z inds ->
  Forall2 (fun i x => full !! Z.to_nat i = Some x) inds sub ->
  exists ret,
    scatter (replicate (length full) fill) inds (f <$> sub) = Ok ret /\
    length ret = length full /\
    forall j, (j < length full)%nat ->
      ret !! j = if decide (Z.of_nat j ∈ inds) then f <$> full !! j
                 else Some fill.
Proof.
  intros Hv Hsub.
  destruct (scatter_gathered (f <$> full) fill inds (f <$> sub))
    as (ret & Hsc & Hl & Hk).
  - rewrite length_fmap. exact Hv.
  - apply Forall2_fmap_r. eapply Forall2_impl; [exact Hsub|].
    intros i x Hi. cbn. rewrite list_lookup_fmap, Hi. reflexivity.
  - rewrite length_fmap in Hsc, Hl, Hk.
    exists ret. split; [exact Hsc|]. split; [exact Hl|].
    intros j Hj. rewrite (Hk j Hj), list_lookup_fmap. reflexivity.
Qed.

(** The original C6 fails on the code: the array that [_unmap] returns is
    [float32] whatever it is given.  The integer 16777217 comes back as
    16777216, and the target -0.8870967741935484 as -0.8870967626571655
    (14883014 * 2^-24). *)
Lemma unmap_rounds_to_float32 :
  (exists ret x,
     _unmap (Arr1 [16777217%Z]) 1 [0%Z] 0%Z = Ok (Arr1 ret) /\
     ret !! 0%nat = Some x /\
     float_value x == 16777216 /\
     ~ float_value x == 16777217) /\
  (exists ret x,
     _unmap (Arr2 1 [[(-8870967741935484 # 10000000000000000)%Q]]) 1 [0%Z]
       0%Z = Ok (Arr2 1 ret) /\
     ret !! 0%nat = Some [x] /\
     float_value x == - (14883014 # 16777216) /\
     ~ float_value x == - (8870967741935484 # 10000000000000000)).
Proof.
  split.
  - eexists _, _. split; [vm_compute; reflexivity|].
    split; [reflexivity|]. split; [reflexivity | discriminate].
  - eexists _, _. split; [vm_compute; reflexivity|].
    split; [reflexivity|]. split; [reflexivity | discriminate].
Qed.

(** C6, amended. For a full array, a list of valid positions into it, a
    total equal to its length and a fill value, [_unmap] applied to the
    gathered items returns a [float32] array of length [total] that holds,
    at every listed position, the [float32] nearest to the item of the full
    array, and the [float32] of the fill value elsewhere; a two-dimensional
    array is filled row by row.  An integer of magnitude below [2^24], as
    the labels -1, 0 and 1, is held with its value. *)
Theorem unmap_of_gather {T F : Type} `{!AsFloat32 T, !AsFloat32 F}
    (full : list T) (ncols : nat) (full2 : list (list T)) (total : nat)
    (inds : list Z) (fill : F) :
  total = length full ->
  total = length full2 ->
  Forall (fun i => 0 <= i < Z.of_nat total)%Z inds ->
  (exists sub ret,
     np_take full inds = Ok sub /\
     _unmap (Arr1 sub) total inds fill = Ok (Arr1 ret) /\
     length ret = total /\
     forall j, (j < total)%nat ->
       ret !! j = if decide (Z.of_nat j ∈ inds)
                  then (fun x : T => as_float32 x) <$> full !! j
                  else Some (as_float32 fill)) /\
  (exists sub ret,
     np_take full2 inds = Ok sub /\
     _unmap (Arr2 ncols sub) total inds fill = Ok (Arr2 ncols ret) /\
     length ret = total /\
     forall j, (j < total)%nat ->
       ret !! j = if decide (Z.of_nat j ∈ inds)
                  then (fun row : list T =>
                          (fun x : T => as_float32 x) <$> row) <$> full2 !! j
                  else Some (replicate ncols (as_float32 fill))) /\
  (forall z : Z, (- 2 ^ 24 < z < 2 ^ 24)%Z ->
     float_value (as_float32 z) == inject_Z z).
Proof.
  intros -> Hlen Hv. split; [|split].
  - destruct (np_take_valid full inds Hv) as (sub & Htake & Hsub).
    destruct (scatter_gathered_cast (fun x : T => as_float32 x) full
                (as_float32 fill) inds sub Hv Hsub)
      as (ret & Hsc & Hl & Hk).
    exists sub, ret. split; [exact Htake|]. split; [|split; assumption].
    unfold _unmap. rewrite Hsc. reflexivity.
  - rewrite Hlen in Hv |- *.
    destruct (np_take_valid full2 inds Hv) as (sub & Htake & Hsub).
    destruct (scatter_gathered_cast
                (fun row : list T => (fun x : T => as_float32 x) <$> row)
                full2 (replicate ncols (as_float32 fill)) inds sub Hv Hsub)
      as (ret & Hsc & Hl & Hk).
    exists sub, ret. split; [exact Htake|]. split; [|split; assumption].
    unfold _unmap. rewrite Hsc. reflexivity.
  - apply as_float32_int_value.
Qed.

Lemma unmap_of_gather_witness :
  (exists sub ret,
     np_take [1; 0; -1; 16777217]%Z [3; 1]%Z = Ok sub /\
     _unmap (Arr1 sub) 4 [3; 1]%Z (-1)%Z = Ok (Arr1 ret) /\
     length ret = 4%nat /\
     forall j, (j < 4)%nat ->
       ret !! j = if decide (Z.of_nat j ∈ [3; 1]%Z)
                  then (fun x : Z => as_float32 x)
                         <$> [1; 0; -1; 16777217]%Z !! j
                  else Some (as_float32 (-1)%Z)) /\
  (exists sub ret,
     np_take [[1; 2]; [3; 4]; [5; 6]; [7 # 3; 8]]%Q [3; 1]%Z = Ok sub /\
     _unmap (Arr2 2 sub) 4 [3; 1]%Z 0%Z = Ok (Arr2 2 ret) /\
     length ret = 4%nat /\
     forall j, (j < 4)%nat ->
       ret !! j = if decide (Z.of_nat j ∈ [3; 1]%Z)
                  then (fun row : list Q =>
                          (fun x : Q => as_float32 x) <$> row)
                         <$> [[1; 2]; [3; 4]; [5; 6]; [7 # 3; 8]]%Q !! j
                  else Some (replicate 2 (as_float32 0%Z))) /\
  (forall z : Z, (- 2 ^ 24 < z < 2 ^ 24)%Z ->
     float_value (as_float32 z) == inject_Z z).
Proof.
  assert (Hv : Forall (fun i => 0 <= i < Z.of_nat 4)%Z [3; 1]%Z)
    by (repeat constructor; lia).
  destruct (unmap_of_gather [1; 0; -1; 16777217]%Z 2
              [[1; 2]; [3; 4]; [5; 6]; [7; 8]]%Z 4 [3; 1]%Z (-1)%Z
              eq_refl eq_refl Hv) as (H1 & _ & H3).
  destruct (unmap_of_gather [1; 2; 3; 4]%Q 2
              [[1; 2]; [3; 4]; [5; 6]; [7 # 3; 8]]%Q 4 [3; 1]%Z 0%Z
              eq_refl eq_refl Hv) as (_ & H2 & _).
  split; [exact H1|]. split; [exact H2 | exact H3].
Defined.

(** ** [np.where] *)

Lemma elem_of_where_from (mask : list bool) :
  forall i j,
    j ∈ where_from i mask <->
    exists k, j = (i + k)%nat /\ mask !! k = Some true.
Proof.
  induction mask as [|b mask IH]; intros i j; cbn [where_from].
  - split; [intros H; inversion H | intros (k & _ & Hk); discriminate].
  - assert (Htl : j ∈ where_from (S i) mask <->
                  exists k, j = (i + S k)%nat /\ mask !! k = Some true).
    { rewrite IH. split; intros (k & -> & Hk); exists k; split; auto; lia. }
    destruct b.
    + rewrite elem_of_cons, Htl. split.
      * intros [->|(k & -> & Hk)].
        -- exists 0%nat. split; [lia | reflexivity].
        -- exists (S k). split; [reflexivity | exact Hk].
      * intros ([|k] & -> & Hk).
        -- left. lia.
        -- right. exists k. split; [reflexivity | exact Hk].
    + rewrite Htl. split.
      * intros (k & -> & Hk). exists (S k). split; [reflexivity | exact Hk].
      * intros ([|k] & -> & Hk); [discriminate|].
        exists k. split; [reflexivity | exact Hk].
Qed.

Lemma elem_of_np_where (mask : list bool) (j : nat) :
  j ∈ np_where mask <-> mask !! j = Some true.
Proof.
  unfold np_where. rewrite elem_of_where_from. split.
  - intros (k & -> & Hk). exact Hk.
  - intros H. exists j. split; [reflexivity | exact H].
Qed.

Lemma where_from_sorted (mask : list bool) :
  forall i, StronglySorted lt (where_from i mask).
Proof.
  induction mask as [|b mask IH]; intros i; cbn [where_from].
  - constructor.
  - destruct b; [|apply IH].
    constructor; [apply IH|].
    apply Forall_forall. intros j Hj.
    apply elem_of_where_from in Hj as (k & -> & _). lia.
Qed.

(** The positions [np.where] returns are ascending. *)
Lemma np_where_sorted (mask : list bool) : StronglySorted lt (np_where mask).
Proof. apply where_from_sorted. Qed.

Lemma length_where_from (mask : list bool) :
  forall i, (length (where_from i mask) <= length mask)%nat.
Proof.
  induction mask as [|b mask IH]; intros i; cbn [where_from length]; [lia|].
  specialize (IH (S i)). destruct b; cbn [length]; lia.
Qed.

Lemma elem_of_pool_eq_int {L} `{!EqInt L} (v : Z) (labels : list L)
    (i : nat) :
  i ∈ pool v labels <-> exists x, labels !! i = Some x /\ eq_int x v = true.
Proof.
  unfold pool. rewrite elem_of_np_where, list_lookup_fmap.
  destruct (labels !! i) as [l|]; cbn.
  - split.
    + intros H. injection H as H. exists l. auto.
    + intros (x & Hx & H). injection Hx as ->. rewrite H. reflexivity.
  - split; [discriminate|]. intros (x & Hx & _). discriminate.
Qed.

Lemma pool_sorted {L} `{!EqInt L} (v : Z) (labels : list L) :
  StronglySorted lt (pool v labels).
Proof. apply np_where_sorted. Qed.

(** A position belongs to one pool at most. *)
Lemma pools_disjoint {L} `{!EqInt L, !EqIntLaws L} (labels : list L)
    (i : nat) :
  i ∈ pool 1 labels -> i ∈ pool 0 labels -> False.
Proof.
  rewrite !elem_of_pool_eq_int. intros (x & Hx & H1) (y & Hy & H0).
  assert (y = x) by congruence. subst y.
  pose proof (eq_int_inj x _ _ H1 H0). discriminate.
Qed.
(** ** Sampling *)

Lemma py_slice_to_nonneg {A} (l : list A) (k : Z) :
  (0 <= k)%Z -> py_slice_to l k = take (Z.to_nat k) l.
Proof.
  intros H. unfold py_slice_to.
  destruct (0 <=? k)%Z eqn:E; [reflexivity | lia].
Qed.

Lemma gather_in_range {A} (l : list A) (idx : list nat) :
  Forall (fun i => (i < length l)%nat) idx ->
  exists t, mapM (py_index l) idx = Ok t /\
            Forall2 (fun i x => l !! i = Some x) idx t.
Proof.
  intros H.
  assert (exists t, Forall2 (fun i x => l !! i = Some x) idx t) as [t Ht].
  { induction H as [|i idx Hi _ [t Ht]]; [exists []; constructor|].
    destruct (lookup_lt_is_Some_2 l i Hi) as [x Hx].
    exists (x :: t). constructor; assumption. }
  exists t. split; [|exact Ht].
  apply mapM_Ok. eapply Forall2_impl; [exact Ht|].
  intros i x Hx. apply py_index_Some, Hx.
Qed.

(** The labels gathered at positions of a pool are those of the pool. *)
Lemma gather_pool {L} `{!EqInt L} (v : Z) (labels : list L)
    (idx : list nat) :
  Forall (fun i => i ∈ pool v labels) idx ->
  exists l,
    Forall2 (fun i x => labels !! i = Some x) idx l /\
    Forall (fun x => eq_int x v = true) l.
Proof.
  induction 1 as [|i idx Hi _ (l & Hl & Hv)].
  - exists []. split; constructor.
  - apply elem_of_pool_eq_int in Hi as (x & Hx & Hxv).
    exists (x :: l). split; constructor; assumption.
Qed.

(** What follows the draw: the assertion and the two gathers. *)
Lemma sample_finish {L T C} `{!EqInt L} (db : anchored_of L T C) (nrois : Z)
    (fg bg : list nat) :
  length (bbox_targets db) = length (labels db) ->
  Forall (fun i => i ∈ pool 1 (labels db)) fg ->
  Forall (fun i => i ∈ pool 0 (labels db)) bg ->
  let finish :=
    '(fg_idx, bg_idx) ← Ok (fg, bg);
    let idx := fg_idx ++ bg_idx in
    _ ← py_assert (Z.of_nat (length idx) =? nrois)%Z;
    l ← mapM (py_index (labels db)) idx;
    t ← mapM (py_index (bbox_targets db)) idx;
    Ok (l, t, idx) in
  (Z.of_nat (length (fg ++ bg)) <> nrois -> finish = Raise AssertionError) /\
  (Z.of_nat (length (fg ++ bg)) = nrois ->
   exists fg_labels bg_labels t,
     finish = Ok (fg_labels ++ bg_labels, t, fg ++ bg) /\
     Forall2 (fun i x => labels db !! i = Some x) fg fg_labels /\
     Forall2 (fun i x => labels db !! i = Some x) bg bg_labels /\
     Forall (fun x => eq_int x 1 = true) fg_labels /\
     Forall (fun x => eq_int x 0 = true) bg_labels /\
     Forall2 (fun i x => bbox_targets db !! i = Some x) (fg ++ bg) t).
Proof.
  intros Hlen Hfg Hbg. cbn zeta. rewrite bind_Ok. split.
  - intros Hne. apply Z.eqb_neq in Hne. rewrite Hne. reflexivity.
  - intros He. rewrite He, Z.eqb_refl. cbn [py_assert]. rewrite bind_Ok.
    destruct (gather_pool 1 (labels db) fg Hfg) as (lf & Hlf & H1).
    destruct (gather_pool 0 (labels db) bg Hbg) as (lb & Hlb & H0).
    assert (Hl : mapM (py_index (labels db)) (fg ++ bg) = Ok (lf ++ lb)).
    { apply mapM_Ok. apply Forall2_app.
      - eapply Forall2_impl; [exact Hlf|]. intros i x. apply py_index_Some.
      - eapply Forall2_impl; [exact Hlb|]. intros i x. apply py_index_Some. }
    rewrite Hl, bind_Ok.
    destruct (gather_in_range (bbox_targets db) (fg ++ bg)) as (t & Ht & HF).
    { rewrite Hlen. apply Forall_app. split.
      - eapply Forall_impl; [exact Hfg|]. intros i Hi.
        apply elem_of_pool_eq_int in Hi as (x & Hx & _).
        eapply lookup_lt_Some, Hx.
      - eapply Forall_impl; [exact Hbg|]. intros i Hi.
        apply elem_of_pool_eq_int in Hi as (x & Hx & _).
        eapply lookup_lt_Some, Hx. }
    exists lf, lb, t. rewrite Ht, bind_Ok.
    split; [reflexivity|]. auto 10.
Qed.

Lemma Forall_take_pool {L} `{!EqInt L} (v : Z) (labels : list L) (k : nat) :
  Forall (fun i => i ∈ pool v labels) (take k (pool v labels)).
Proof.
  apply Forall_forall. intros i Hi. exact (subseteq_take k _ i Hi).
Qed.

(** The draw: with a foreground count between 0 and the request, both
    modes select [actual_fg] positions of the foreground pool and
    [actual_bg] of the background pool; the deterministic mode takes the
    first ones. *)
Lemma sample_anchors_draw {rng : Type}
    (choice : rng -> list nat -> Z -> result (list nat) * rng) (be : rng)
    {L T C} `{!EqInt L} (db : anchored_of L T C) (n : Z)
    (fg_fraction : float64) (deterministic : bool) (k : Z) :
  let fg_pool := pool 1 (labels db) in
  let bg_pool := pool 0 (labels db) in
  let actual_fg := Z.min k (Z.of_nat (length fg_pool)) in
  let actual_bg := Z.min (n - actual_fg) (Z.of_nat (length bg_pool)) in
  num_fg_of fg_fraction n = Ok k ->
  choice_spec choice ->
  (0 <= k <= n)%Z ->
  exists fg bg be',
    Z.of_nat (length fg) = actual_fg /\
    Z.of_nat (length bg) = actual_bg /\
    Forall (fun i => i ∈ fg_pool) fg /\
    Forall (fun i => i ∈ bg_pool) bg /\
    (deterministic = true ->
     fg = take (Z.to_nat actual_fg) fg_pool /\
     bg = take (Z.to_nat actual_bg) bg_pool /\ be' = be) /\
    _sample_anchors choice be db n fg_fraction deterministic =
    ('(fg_idx, bg_idx) ← Ok (fg, bg);
     let idx := fg_idx ++ bg_idx in
     _ ← py_assert (Z.of_nat (length idx) =? n)%Z;
     l ← mapM (py_index (labels db)) idx;
     t ← mapM (py_index (bbox_targets db)) idx;
     Ok (l, t, idx), be').
Proof.
  intros fg_pool bg_pool actual_fg actual_bg Hk Hc [Hlo Hhi].
  unfold num_fg_of in Hk.
  unfold _sample_anchors. rewrite Hk.
  change (np_where ((fun l => eq_int l 1) <$> labels db)) with fg_pool.
  change (np_where ((fun l => eq_int l 0) <$> labels db)) with bg_pool.
  fold actual_fg. fold actual_bg.
  assert (Ha : (0 <= actual_fg <= Z.of_nat (length fg_pool))%Z)
    by (unfold actual_fg; lia).
  assert (Hb : (0 <= actual_bg <= Z.of_nat (length bg_pool))%Z)
    by (unfold actual_bg, actual_fg; lia).
  destruct deterministic; cbn [negb].
  - exists (take (Z.to_nat actual_fg) fg_pool),
           (take (Z.to_nat actual_bg) bg_pool), be.
    rewrite !length_take_le by lia.
    rewrite !py_slice_to_nonneg by lia.
    split; [lia|]. split; [lia|].
    split; [apply Forall_take_pool|]. split; [apply Forall_take_pool|].
    split; [auto | reflexivity].
  - destruct (Hc be fg_pool actual_fg Ha) as (fg & Hfg & Hlfg & Hsfg).
    destruct (choice be fg_pool actual_fg) as [r be0].
    cbn [fst] in Hfg. subst r.
    destruct (Hc be0 bg_pool actual_bg Hb) as (bg & Hbg & Hlbg & Hsbg).
    destruct (choice be0 bg_pool actual_bg) as [r be1].
    cbn [fst] in Hbg. subst r.
    exists fg, bg, be1.
    split; [exact Hlfg|]. split; [exact Hlbg|].
    split; [apply Forall_forall; exact Hsfg|].
    split; [apply Forall_forall; exact Hsbg|].
    split; [discriminate | reflexivity].
Qed.

(** The original C5 fails on the code: the number of foreground slots is
    [int] of the double product, not the floor of the exact one.  For the
    fraction 0.29 and a request of 100 the code counts 28: with 29
    foreground and 71 background anchors, as many as [floor(0.29 * 100) = 29]
    asks for, the assertion on the length raises.  For the double 0.7 and a
    request of 10 the product rounds up to 7 while the exact product of that
    double lies below 7: with 7 foreground and 4 background anchors the
    code returns 7 foreground and 3 background labels, not 6 and 4. *)
Lemma sample_anchors_count_not_floor :
  (Qfloor ((29 # 100) * inject_Z 100) = 29%Z /\
   num_fg_of (double (29 # 100)) 100 = Ok 28%Z /\
   length (pool 1 (replicate 29 1%Z ++ replicate 71 0%Z)) = 29%nat /\
   length (pool 0 (replicate 29 1%Z ++ replicate 71 0%Z)) = 71%nat /\
   (_sample_anchors last_choice tt
      (labelled (replicate 29 1%Z ++ replicate 71 0%Z)) 100
      (double (29 # 100)) true).1 = Raise AssertionError) /\
  (Qfloor (float_value (double (7 # 10)) * inject_Z 10) = 6%Z /\
   num_fg_of (double (7 # 10)) 10 = Ok 7%Z /\
   length (pool 1 (replicate 7 1%Z ++ replicate 4 0%Z)) = 7%nat /\
   length (pool 0 (replicate 7 1%Z ++ replicate 4 0%Z)) = 4%nat /\
   exists t idx,
     (_sample_anchors last_choice tt
        (labelled (replicate 7 1%Z ++ replicate 4 0%Z)) 10
        (double (7 # 10)) true).1
     = Ok (replicate 7 1%Z ++ replicate 3 0%Z, t, idx)).
Proof.
  split.
  - split; [vm_compute; reflexivity|]. split; [vm_compute; reflexivity|].
    split; [vm_compute; reflexivity|]. split; [vm_compute; reflexivity|].
    vm_compute. reflexivity.
  - split; [vm_compute; reflexivity|]. split; [vm_compute; reflexivity|].
    split; [vm_compute; reflexivity|]. split; [vm_compute; reflexivity|].
    eexists _, _. vm_compute. reflexivity.
Qed.

(** C5, amended. Let [k] be the number of foreground slots that the code
    computes, [int(fg_fraction * n)] in double precision, with
    [0 <= k <= n].  For a labelled record whose foreground pool has at least
    [k] members and whose background pool has at least [n - k] members,
    [_sample_anchors] with [deterministic = True] returns exactly [k]
    foreground labels followed by [n - k] background labels, at the first
    positions of each pool, the pools being ascending; the result is the
    same whatever the random source and its state. *)
Theorem sample_anchors_deterministic {L T C : Type} `{!EqInt L}
    (db : anchored_of L T C) (n : Z) (fg_fraction : float64) (k : Z) :
  let fg_pool := pool 1 (labels db) in
  let bg_pool := pool 0 (labels db) in
  num_fg_of fg_fraction n = Ok k ->
  (0 <= k <= n)%Z ->
  length (bbox_targets db) = length (labels db) ->
  (k <= Z.of_nat (length fg_pool))%Z ->
  (n - k <= Z.of_nat (length bg_pool))%Z ->
  let idx := take (Z.to_nat k) fg_pool ++ take (Z.to_nat (n - k)) bg_pool in
  StronglySorted lt fg_pool /\
  StronglySorted lt bg_pool /\
  exists fg_labels bg_labels targets,
    length fg_labels = Z.to_nat k /\
    length bg_labels = Z.to_nat (n - k) /\
    Forall (fun x => eq_int x 1 = true) fg_labels /\
    Forall (fun x => eq_int x 0 = true) bg_labels /\
    Forall2 (fun i x => labels db !! i = Some x) idx
      (fg_labels ++ bg_labels) /\
    Forall2 (fun i t => bbox_targets db !! i = Some t) idx targets /\
    forall (rng : Type) choice (be : rng),
      _sample_anchors choice be db n fg_fraction true =
      (Ok (fg_labels ++ bg_labels, targets, idx), be).
Proof.
  intros fg_pool bg_pool Hk [Hlo Hhi] Hlen Hfg Hbg idx.
  split; [apply pool_sorted|]. split; [apply pool_sorted|].
  destruct (sample_finish db n (take (Z.to_nat k) fg_pool)
              (take (Z.to_nat (n - k)) bg_pool) Hlen)
    as [_ Hok]; [apply Forall_take_pool | apply Forall_take_pool |].
  assert (Hl1 : length (take (Z.to_nat k) fg_pool) = Z.to_nat k)
    by (apply length_take_le; lia).
  assert (Hl2 : length (take (Z.to_nat (n - k)) bg_pool) = Z.to_nat (n - k))
    by (apply length_take_le; lia).
  destruct Hok as (lf & lb & targets & Hrun & Hlf & Hlb & H1 & H0 & HF).
  { rewrite length_app, Hl1, Hl2. lia. }
  exists lf, lb, targets.
  split; [rewrite <- (Forall2_length _ _ _ Hlf); exact Hl1|].
  split; [rewrite <- (Forall2_length _ _ _ Hlb); exact Hl2|].
  split; [exact H1|]. split; [exact H0|].
  split; [apply Forall2_app; assumption|]. split; [exact HF|].
  intros rng choice be. unfold num_fg_of in Hk.
  unfold _sample_anchors. rewrite Hk. cbn [negb].
  change (np_where ((fun l => eq_int l 1) <$> labels db)) with fg_pool.
  change (np_where ((fun l => eq_int l 0) <$> labels db)) with bg_pool.
  rewrite (Z.min_l k) by exact Hfg.
  rewrite (Z.min_l (n - k)) by exact Hbg.
  rewrite !py_slice_to_nonneg by lia.
  f_equal. exact Hrun.
Qed.

Lemma sample_anchors_deterministic_witness :
  num_fg_of (double (1 # 2)) 4 = Ok 2%Z /\
  exists l targets,
    Forall2 (fun i x => [1; -1; 0; 1; 0; 0; 1]%Z !! i = Some x)
      [0; 3; 2; 4]%nat l /\
    forall (rng : Type) choice (be : rng),
      _sample_anchors choice be (labelled [1; -1; 0; 1; 0; 0; 1]%Z) 4
        (double (1 # 2)) true
      = (Ok (l, targets, [0; 3; 2; 4]%nat), be).
Proof.
  assert (Hk : num_fg_of (double (1 # 2)) 4 = Ok 2%Z)
    by (vm_compute; reflexivity).
  split; [exact Hk|].
  destruct (sample_anchors_deterministic
              (labelled [1; -1; 0; 1; 0; 0; 1]%Z) 4 (double (1 # 2)) 2 Hk)
    as (_ & _ & lf & lb & targets & _ & _ & _ & _ & Hl & _ & H).
  - lia.
  - reflexivity.
  - vm_compute. discriminate.
  - vm_compute. discriminate.
  - exists (lf ++ lb), targets. split; [exact Hl | exact H].
Defined.

(** C2, as stated, fails: with one foreground anchor out of the two that a
    request of four asks for, and one background anchor, no selection is
    returned; the assertion on the length raises. *)
Lemma sample_anchors_short_pool_raises :
  num_fg_of (double (1 # 2)) 4 = Ok 2%Z /\
  (Z.of_nat (length (pool 1 [1; 0; -1]%Z))
     < Qfloor ((1 # 2) * inject_Z 4))%Z /\
  (_sample_anchors last_choice tt (labelled [1; 0; -1]%Z) 4 (double (1 # 2))
     true).1 = Raise AssertionError /\
  (_sample_anchors last_choice tt (labelled [1; 0; -1]%Z) 4 (double (1 # 2))
     false).1 = Raise AssertionError.
Proof.
  split; [vm_compute; reflexivity|].
  split; [vm_compute; reflexivity|].
  split; vm_compute; reflexivity.
Qed.

(** C2, amended. Let [k] be the number of foreground slots that the code
    computes, [int(fg_fraction * n)] in double precision, with
    [0 <= k <= n], and let the actual counts be
    [actual_fg = min(k, |foreground pool|)] and
    [actual_bg = min(n - actual_fg, |background pool|)].  When the
    background pool has fewer than [n - actual_fg] members, the selection
    built has length [actual_fg + actual_bg < n] and [_sample_anchors]
    raises [AssertionError] instead of returning it.  Otherwise, also when
    the foreground pool alone is short, it returns a selection of exactly
    [n] anchors: [actual_fg] positions of the foreground pool, then
    [n - actual_fg] positions of the background pool, which make up for the
    missing foreground ones, each with its label and its target row. *)
Theorem sample_anchors_short_pool {rng : Type}
    (choice : rng -> list nat -> Z -> result (list nat) * rng) (be : rng)
    {L T C : Type} `{!EqInt L} (db : anchored_of L T C) (n : Z)
    (fg_fraction : float64) (deterministic : bool) (k : Z) :
  let fg_pool := pool 1 (labels db) in
  let bg_pool := pool 0 (labels db) in
  let actual_fg := Z.min k (Z.of_nat (length fg_pool)) in
  let actual_bg := Z.min (n - actual_fg) (Z.of_nat (length bg_pool)) in
  num_fg_of fg_fraction n = Ok k ->
  choice_spec choice ->
  (0 <= k <= n)%Z ->
  length (bbox_targets db) = length (labels db) ->
  ((Z.of_nat (length bg_pool) < n - actual_fg)%Z ->
   (actual_fg + actual_bg < n)%Z /\
   (_sample_anchors choice be db n fg_fraction deterministic).1
   = Raise AssertionError) /\
  ((n - actual_fg <= Z.of_nat (length bg_pool))%Z ->
   exists fg bg fg_labels bg_labels t,
     (_sample_anchors choice be db n fg_fraction deterministic).1
     = Ok (fg_labels ++ bg_labels, t, fg ++ bg) /\
     Z.of_nat (length fg) = actual_fg /\
     Z.of_nat (length bg) = (n - actual_fg)%Z /\
     Z.of_nat (length (fg ++ bg)) = n /\
     Forall (fun i => i ∈ fg_pool) fg /\
     Forall (fun i => i ∈ bg_pool) bg /\
     Forall2 (fun i x => labels db !! i = Some x) fg fg_labels /\
     Forall2 (fun i x => labels db !! i = Some x) bg bg_labels /\
     Forall (fun x => eq_int x 1 = true) fg_labels /\
     Forall (fun x => eq_int x 0 = true) bg_labels /\
     Forall2 (fun i row => bbox_targets db !! i = Some row) (fg ++ bg) t).
Proof.
  intros fg_pool bg_pool actual_fg actual_bg Hk Hc Hnum Hlen.
  destruct (sample_anchors_draw choice be db n fg_fraction deterministic k
              Hk Hc Hnum)
    as (fg & bg & be' & Hlfg & Hlbg & Hsfg & Hsbg & _ & Hrun).
  fold fg_pool bg_pool actual_fg actual_bg in Hlfg, Hlbg, Hsfg, Hsbg.
  rewrite Hrun. cbn [fst].
  destruct (sample_finish db n fg bg Hlen Hsfg Hsbg) as [Hbad Hgood].
  assert (Hidx : Z.of_nat (length (fg ++ bg)) = (actual_fg + actual_bg)%Z)
    by (rewrite length_app; lia).
  split.
  - intros Hshort.
    assert (actual_fg + actual_bg < n)%Z by (unfold actual_bg; lia).
    split; [assumption|]. apply Hbad. lia.
  - intros Henough.
    assert (Hbg' : actual_bg = (n - actual_fg)%Z) by (unfold actual_bg; lia).
    destruct Hgood as (lf & lb & t & Hok & Hlf & Hlb & H1 & H0 & HF).
    { rewrite Hidx. lia. }
    exists fg, bg, lf, lb, t. split; [exact Hok|].
    split; [exact Hlfg|]. split; [lia|]. split; [lia|].
    auto 10.
Qed.

Lemma last_choice_spec : choice_spec last_choice.
Proof.
  intros be a k Hk. unfold last_choice.
  destruct (0 <=? k)%Z eqn:E1; [|lia].
  destruct (k <=? Z.of_nat (length a))%Z eqn:E2; [|lia].
  cbn. eexists. split; [reflexivity|]. split.
  - rewrite length_take_le; [lia|]. rewrite length_reverse. lia.
  - intros x Hx. apply subseteq_take in Hx.
    apply elem_of_reverse. exact Hx.
Qed.

Lemma sample_anchors_short_pool_witness :
  num_fg_of (double (1 # 2)) 4 = Ok 2%Z /\
  (_sample_anchors last_choice tt (labelled [1; 0; -1]%Z) 4 (double (1 # 2))
     false).1 = Raise AssertionError /\
  exists fg bg fg_labels bg_labels t,
    (_sample_anchors last_choice tt (labelled [1; 0; 0; -1; 0]%Z) 4
       (double (1 # 2)) false).1
    = Ok (fg_labels ++ bg_labels, t, fg ++ bg) /\
    Z.of_nat (length fg) = 1%Z /\
    Z.of_nat (length bg) = 3%Z.
Proof.
  assert (Hk : num_fg_of (double (1 # 2)) 4 = Ok 2%Z)
    by (vm_compute; reflexivity).
  split; [exact Hk|]. split.
  - destruct (sample_anchors_short_pool last_choice tt
                (labelled [1; 0; -1]%Z) 4 (double (1 # 2)) false 2 Hk
                last_choice_spec)
      as [H _]; [lia | reflexivity |].
    apply H. vm_compute. reflexivity.
  - destruct (sample_anchors_short_pool last_choice tt
                (labelled [1; 0; 0; -1; 0]%Z) 4 (double (1 # 2)) false 2 Hk
                last_choice_spec)
      as [_ H]; [lia | reflexivity |].
    destruct H as (fg & bg & lf & lb & t & Hok & Hfg & Hbg & _).
    { vm_compute. discriminate. }
    exists fg, bg, lf, lb, t. split; [exact Hok|].
    split; [exact Hfg | exact Hbg].
Defined.

(** ** The grouped shuffle *)

(** [np.reshape(l, (-1, 2))] splits a list of even length into rows and
    raises on one of odd length. *)
Lemma reshape_rows2_spec {A} (n : nat) :
  forall l : list A, (length l <= n)%nat ->
    (Nat.Even (length l) ->
     exists rows, reshape_rows2 l = Ok rows /\ concat rows = l) /\
    (Nat.Odd (length l) -> reshape_rows2 l = Raise ValueError).
Proof.
  induction n as [|n IH]; intros l Hl.
  - destruct l; [|cbn in Hl; lia]. split.
    + intros _. exists []. split; reflexivity.
    + intros [k Hk]. cbn in Hk. lia.
  - destruct l as [|a [|b l]].
    + split.
      * intros _. exists []. split; reflexivity.
      * intros [k Hk]. cbn in Hk. lia.
    + split.
      * intros [k Hk]. cbn in Hk. lia.
      * intros _. reflexivity.
    + destruct (IH l) as [IHe IHo]; [cbn in Hl; lia|].
      cbn [reshape_rows2 length]. split.
      * intros He.
        destruct IHe as (rows & Hr & Hc).
        { apply Nat.Even_succ, Nat.Odd_succ in He. exact He. }
        exists ([a; b] :: rows). rewrite Hr. split; [reflexivity|].
        cbn. rewrite Hc. reflexivity.
      * intros Ho. rewrite IHo; [reflexivity|].
        apply Nat.Odd_succ, Nat.Even_succ in Ho. exact Ho.
Qed.

(** A mask and its negation split the positions. *)
Lemma where_from_partition (mask : list bool) :
  forall i,
    where_from i mask ++ where_from i (negb <$> mask) ≡ₚ seq i (length mask).
Proof.
  induction mask as [|b mask IH]; intros i; [reflexivity|].
  cbn [where_from fmap list_fmap length seq].
  change (list_fmap bool bool negb mask) with (negb <$> mask).
  destruct b; cbn [negb app].
  - rewrite IH. reflexivity.
  - rewrite <- Permutation_middle, IH. reflexivity.
Qed.

Lemma gather_all {A} (l : list A) :
  Forall2 (fun i x => py_index l i = Ok x) (seq 0 (length l)) l.
Proof.
  apply Forall2_lookup. intros i.
  destruct (decide (i < length l)%nat) as [Hi|Hi].
  - rewrite lookup_seq_lt by exact Hi.
    destruct (lookup_lt_is_Some_2 l i Hi) as [x Hx]. rewrite Hx.
    constructor. apply py_index_Some, Hx.
  - rewrite lookup_seq_ge by lia. rewrite lookup_ge_None_2 by lia.
    constructor.
Qed.

(** Gathering along a permutation of the positions permutes the list. *)
Lemma gather_permutation {A} (l : list A) (p : list nat) :
  p ≡ₚ seq 0 (length l) ->
  exists l', mapM (py_index l) p = Ok l' /\ l' ≡ₚ l.
Proof.
  intros Hp. symmetry in Hp.
  destruct (Permutation_Forall2 Hp (gather_all l)) as (l' & Hl' & HF).
  exists l'. split; [apply mapM_Ok, HF | symmetry; exact Hl'].
Qed.

(** C10. [_shuffle_roidb] succeeds only on an even number of image records:
    on an odd number the reshape into rows of two raises [ValueError]; on an
    even number it returns a permutation of the record positions.  The random
    source permutes what it is given. *)
Theorem shuffle_roidb_even_only {rng : Type}
    (permutation : rng -> list nat -> list nat * rng) (be : rng)
    {L T C : Type} (roi_db : list (anchored_of L T C)) :
  permutation_spec permutation ->
  (Nat.Odd (length roi_db) ->
   (_shuffle_roidb permutation be roi_db).1 = Raise ValueError) /\
  (Nat.Even (length roi_db) ->
   exists inds,
     (_shuffle_roidb permutation be roi_db).1 = Ok inds /\
     inds ≡ₚ seq 0 (length roi_db)).
Proof.
  intros Hperm. unfold _shuffle_roidb.
  set (horz := zip_with (fun w h => (h <=? w)%Z)
                 (im_width <$> roi_db) (im_height <$> roi_db)).
  assert (Hh : length horz = length roi_db).
  { unfold horz. rewrite length_zip_with, !length_fmap. lia. }
  pose proof (Hperm be (np_where horz)) as Hp1.
  destruct (permutation be (np_where horz)) as [perm_h be1].
  pose proof (Hperm be1 (np_where (negb <$> horz))) as Hp2.
  destruct (permutation be1 (np_where (negb <$> horz))) as [perm_v be2].
  cbn [fst] in Hp1, Hp2.
  assert (Hinds : perm_h ++ perm_v ≡ₚ seq 0 (length roi_db)).
  { rewrite Hp1, Hp2, <- Hh. apply where_from_partition. }
  assert (Hlen : length (perm_h ++ perm_v) = length roi_db).
  { rewrite Hinds. apply length_seq. }
  destruct (reshape_rows2_spec (length (perm_h ++ perm_v)) (perm_h ++ perm_v))
    as [He Ho]; [lia|].
  rewrite Hlen in He, Ho. split.
  - intros Hodd. rewrite (Ho Hodd). reflexivity.
  - intros Heven. destruct (He Heven) as (rows & Hr & Hc). rewrite Hr.
    pose proof (Hperm be2 (seq 0 (length rows))) as Hp3.
    destruct (permutation be2 (seq 0 (length rows))) as [row_perm be3].
    cbn [fst] in Hp3 |- *.
    destruct (gather_permutation rows row_perm Hp3) as (rows' & Hg & Hrows).
    rewrite Hg, bind_Ok. exists (concat rows'). split; [reflexivity|].
    rewrite Hrows, Hc. exact Hinds.
Qed.

Lemma reverse_permutation_spec : permutation_spec reverse_permutation.
Proof. intros be a. cbn. apply reverse_Permutation. Qed.

Lemma shuffle_roidb_even_only_witness :
  (_shuffle_roidb reverse_permutation tt
     [labelled []; labelled []; labelled []]).1 = Raise ValueError /\
  exists inds,
    (_shuffle_roidb reverse_permutation tt
       [labelled []; labelled []; labelled []; labelled []]).1 = Ok inds /\
    inds ≡ₚ seq 0 4.
Proof.
  split.
  - destruct (shuffle_roidb_even_only reverse_permutation tt
                [labelled []; labelled []; labelled []]
                reverse_permutation_spec) as [H _].
    apply H. exists 1%nat. reflexivity.
  - destruct (shuffle_roidb_even_only reverse_permutation tt
                [labelled []; labelled []; labelled []; labelled []]
                reverse_permutation_spec) as [_ H].
    apply H. exists 2%nat. reflexivity.
Defined.

(** ** Reductions over the overlap matrix *)

Lemma Qlt_bool_iff (a b : Q) : Qlt_bool a b = true <-> (a < b)%Q.
Proof.
  unfold Qlt_bool. rewrite negb_true_iff.
  destruct (Qle_bool b a) eqn:E.
  - apply Qle_bool_iff in E. split; [discriminate | intros; lra].
  - split; [intros _ | reflexivity].
    destruct (Qlt_le_dec a b) as [H|H]; [exact H|].
    apply Qle_bool_iff in H. congruence.
Qed.

Lemma foldl_Qmax_spec (row : list Q) :
  forall x,
    (x <= foldl Qmax x row)%Q /\
    Forall (fun y => (y <= foldl Qmax x row)%Q) row /\
    ((foldl Qmax x row == x)%Q \/
     exists y, y ∈ row /\ (y == foldl Qmax x row)%Q).
Proof.
  induction row as [|y row IH]; intros x; cbn [foldl].
  - split; [lra|]. split; [constructor | left; reflexivity].
  - destruct (IH (Qmax x y)) as (Hle & HF & Hat).
    pose proof (Q.le_max_l x y). pose proof (Q.le_max_r x y).
    split; [lra|]. split; [constructor; [lra | exact HF]|].
    destruct Hat as [Heq|(z & Hz & Hzeq)].
    + destruct (Q.max_spec x y) as [[_ E]|[_ E]].
      * right. exists y. split; [left | lra].
      * left. lra.
    + right. exists z. split; [right; exact Hz | exact Hzeq].
Qed.

(** [np_max] of a non-empty row is an upper bound that the row attains. *)
Lemma np_max_spec (row : list Q) :
  row <> [] ->
  exists m,
    np_max row = Ok m /\
    Forall (fun y => (y <= m)%Q) row /\
    exists y, y ∈ row /\ (y == m)%Q.
Proof.
  destruct row as [|x row]; [congruence|]. intros _.
  destruct (foldl_Qmax_spec row x) as (Hle & HF & Hat).
  exists (foldl Qmax x row). split; [reflexivity|].
  split; [constructor; assumption|].
  destruct Hat as [Heq|(y & Hy & Hyeq)].
  - exists x. split; [left | lra].
  - exists y. split; [right; exact Hy | exact Hyeq].
Qed.

Lemma max_axis1_spec (R G : nat) (m : matrix) :
  shape R G m -> G <> 0%nat ->
  exists row_max,
    max_axis1 G m = Ok row_max /\
    Forall2 (fun row x => np_max row = Ok x) m row_max.
Proof.
  intros [_ HF] HG. unfold max_axis1. rewrite decide_False by exact HG.
  assert (exists row_max, Forall2 (fun row x => np_max row = Ok x) m row_max)
    as [row_max Hrm].
  { induction HF as [|row m Hrow _ [rm IH]]; [exists []; constructor|].
    destruct (np_max_spec row) as (x & Hx & _).
    { intros ->. cbn in Hrow. lia. }
    exists (x :: rm). constructor; assumption. }
  exists row_max. split; [apply mapM_Ok, Hrm | exact Hrm].
Qed.

Lemma max_axis1_empty (m : matrix) : max_axis1 0 m = Raise ValueError.
Proof. reflexivity. Qed.

Lemma argmax_from_lt (row : list Q) :
  forall best best_i i,
    (best_i < i)%nat ->
    (argmax_from best best_i i row < i + length row)%nat.
Proof.
  induction row as [|x row IH]; intros best best_i i Hi; cbn [argmax_from length].
  - lia.
  - destruct (Qlt_bool best x).
    + specialize (IH x i (S i)). lia.
    + specialize (IH best best_i (S i)). lia.
Qed.

Lemma np_argmax_rows (G : nat) (m : matrix) :
  Forall (fun row => length row = G) m -> G <> 0%nat ->
  exists arg,
    Forall2 (fun row g => np_argmax row = Ok g) m arg /\
    Forall (fun g => (g < G)%nat) arg.
Proof.
  intros HF HG.
  induction HF as [|row m' Hrow _ (arg & Harg & Hlt)];
    [exists []; split; constructor|].
  destruct row as [|x row]; [cbn in Hrow; lia|].
  exists (argmax_from x 0 1 row :: arg). split.
  - constructor; [reflexivity | exact Harg].
  - constructor; [|exact Hlt].
    pose proof (argmax_from_lt row x 0 1). cbn in Hrow. lia.
Qed.

Lemma argmax_axis1_spec (R G : nat) (m : matrix) :
  shape R G m -> G <> 0%nat ->
  exists arg,
    argmax_axis1 G m = Ok arg /\
    length arg = R /\
    Forall (fun g => (g < G)%nat) arg.
Proof.
  intros [HL HF] HG. unfold argmax_axis1. rewrite decide_False by exact HG.
  destruct (np_argmax_rows G m HF HG) as (arg & Harg & Hlt).
  exists arg. split; [apply mapM_Ok, Harg|].
  split; [|exact Hlt].
  rewrite <- HL. symmetry. eapply Forall2_length, Harg.
Qed.

(** The running column maxima of [m.max(axis=0)]. *)
Lemma foldl_zip_Qmax_spec (G : nat) (rows : list (list Q)) :
  forall acc,
    length acc = G ->
    Forall (fun row => length row = G) rows ->
    let cm := foldl (zip_with Qmax) acc rows in
    length cm = G /\
    forall g a, acc !! g = Some a ->
      exists c,
        cm !! g = Some c /\
        (a <= c)%Q /\
        (forall row x, row ∈ rows -> row !! g = Some x -> (x <= c)%Q) /\
        ((a == c)%Q \/
         exists row x, row ∈ rows /\ row !! g = Some x /\ (x == c)%Q).
Proof.
  induction rows as [|row rows IH]; intros acc Hacc HF; cbn zeta; cbn [foldl].
  - split; [exact Hacc|]. intros g a Ha. exists a.
    split; [exact Ha|]. split; [lra|]. split.
    + intros row x Hin. inversion Hin.
    + left. reflexivity.
  - apply Forall_cons in HF as [Hrow HF].
    destruct (IH (zip_with Qmax acc row)) as [Hlen Hcm].
    { rewrite length_zip_with. lia. }
    { exact HF. }
    split; [exact Hlen|]. intros g a Ha.
    destruct (lookup_lt_is_Some_2 row g) as [x Hx].
    { rewrite Hrow, <- Hacc. eapply lookup_lt_Some, Ha. }
    destruct (Hcm g (Qmax a x)) as (c & Hc & Hle & Hub & Hat).
    { rewrite lookup_zip_with, Ha, Hx. reflexivity. }
    pose proof (Q.le_max_l a x). pose proof (Q.le_max_r a x).
    exists c. split; [exact Hc|]. split; [lra|]. split.
    + intros row' x' Hin Hx'. apply elem_of_cons in Hin as [->|Hin].
      * assert (x' = x) by congruence. subst. lra.
      * eapply Hub; eassumption.
    + destruct Hat as [Heq|(row' & x' & Hin & Hx' & Heq)].
      * destruct (Q.max_spec a x) as [[_ E]|[_ E]].
        -- right. exists row, x. split; [left|]. split; [exact Hx | lra].
        -- left. lra.
      * right. exists row', x'. split; [right; exact Hin|]. auto.
Qed.

(** [m.max(axis=0)] of a matrix with a row: an upper bound of each column
    that the column attains. *)
Lemma max_axis0_spec (R G : nat) (m : matrix) :
  shape R G m -> R <> 0%nat ->
  exists col_max,
    max_axis0 m = Ok col_max /\
    length col_max = G /\
    forall g c, col_max !! g = Some c ->
      (forall r x, entry m r g = Some x -> (x <= c)%Q) /\
      (exists r x, entry m r g = Some x /\ (x == c)%Q).
Proof.
  intros [HL HF] HR.
  destruct m as [|row m]; [cbn in HL; congruence|].
  apply Forall_cons in HF as [Hrow HF].
  destruct (foldl_zip_Qmax_spec G m row Hrow HF) as [Hlen Hcm].
  cbn zeta in Hlen, Hcm.
  exists (foldl (zip_with Qmax) row m).
  split; [reflexivity|]. split; [exact Hlen|].
  intros g c Hc.
  destruct (lookup_lt_is_Some_2 row g) as [a Ha].
  { rewrite Hrow, <- Hlen. eapply lookup_lt_Some, Hc. }
  destruct (Hcm g a Ha) as (c' & Hc' & Hle & Hub & Hat).
  assert (c' = c) by congruence. subst c'.
  split.
  - intros [|r] x Hx; unfold entry in Hx; cbn in Hx.
    + assert (x = a) by congruence. subst. exact Hle.
    + destruct (m !! r) as [row'|] eqn:Hr; [|discriminate]. cbn in Hx.
      eapply Hub; [|exact Hx]. eapply list_elem_of_lookup_2, Hr.
  - destruct Hat as [Heq|(row' & x & Hin & Hx & Heq)].
    + exists 0%nat, a. split; [exact Ha | exact Heq].
    + apply list_elem_of_lookup in Hin as [r Hr].
      exists (S r), x. split; [|exact Heq].
      unfold entry. rewrite lookup_cons, Hr. exact Hx.
Qed.

Lemma max_axis0_empty : max_axis0 [] = Raise ValueError.
Proof. reflexivity. Qed.

(** ** Masks and assignments *)

Lemma count_true_pos (row : list bool) :
  length (filter (fun b => b = true) row) <> 0%nat <-> true ∈ row.
Proof.
  induction row as [|b row IH].
  - cbn. split; [congruence | intros H; inversion H].
  - rewrite filter_cons. destruct (decide (b = true)) as [->|Hb].
    + cbn. split; [intros _; left | intros _; lia].
    + rewrite IH, elem_of_cons. split; [auto | intros [Heq|H]; congruence].
Qed.

Lemma elem_of_where_rows_from (mask : list (list bool)) :
  forall r0 j,
    j ∈ where_rows_from r0 mask <->
    exists k row, j = (r0 + k)%nat /\ mask !! k = Some row /\ true ∈ row.
Proof.
  induction mask as [|row mask IH]; intros r0 j; cbn [where_rows_from].
  - split; [intros H; inversion H | intros (k & row & _ & Hk & _); discriminate].
  - rewrite elem_of_app, elem_of_replicate, count_true_pos, IH. split.
    + intros [[-> Hrow]|(k & row' & -> & Hk & Hrow)].
      * exists 0%nat, row. split; [lia|]. split; [reflexivity | exact Hrow].
      * exists (S k), row'. split; [lia|]. split; [exact Hk | exact Hrow].
    + intros ([|k] & row' & -> & Hk & Hrow).
      * left. cbn in Hk. injection Hk as <-. split; [lia | exact Hrow].
      * right. exists k, row'. split; [lia|]. split; [exact Hk | exact Hrow].
Qed.

(** The rows that [np.where(mask)[0]] lists are those with a [True] cell. *)
Lemma elem_of_where_rows (mask : list (list bool)) (j : nat) :
  j ∈ where_rows mask <-> exists row, mask !! j = Some row /\ true ∈ row.
Proof.
  unfold where_rows. rewrite elem_of_where_rows_from. split.
  - intros (k & row & -> & Hk & Hrow). exists row. auto.
  - intros (row & Hk & Hrow). exists j, row. auto.
Qed.

(** The anchors listed by [np.where(overlaps == overlaps.max(axis=0))[0]]
    are those that attain the maximum of some column. *)
Lemma elem_of_gt_idx (m : matrix) (col_max : list Q) (r : nat) :
  r ∈ where_rows ((fun row => zip_with Qeq_bool row col_max) <$> m) <->
  exists g x c, entry m r g = Some x /\ col_max !! g = Some c /\ (x == c)%Q.
Proof.
  rewrite elem_of_where_rows. unfold entry. split.
  - intros (brow & Hb & Ht).
    rewrite list_lookup_fmap in Hb.
    destruct (m !! r) as [row|]; [|discriminate].
    cbn in Hb. injection Hb as <-.
    apply elem_of_lookup_zip_with in Ht as (g & x & c & Heq & Hx & Hc).
    exists g, x, c. split; [exact Hx|]. split; [exact Hc|].
    apply Qeq_bool_iff. congruence.
  - intros (g & x & c & Hx & Hc & Heq).
    destruct (m !! r) as [row|] eqn:Hr; [|discriminate]. cbn in Hx.
    exists (zip_with Qeq_bool row col_max). split.
    + rewrite list_lookup_fmap, Hr. reflexivity.
    + apply Qeq_bool_iff in Heq.
      apply elem_of_lookup_zip_with. exists g, x, c. auto.
Qed.

Lemma mask_assign_spec {A} (a : list A) (mask : list bool) (v : A) :
  length mask = length a ->
  exists a',
    mask_assign a mask v = Ok a' /\
    length a' = length a /\
    forall (i : nat) (x : A) (b : bool),
      a !! i = Some x -> mask !! i = Some b ->
      a' !! i = Some (if b then v else x).
Proof.
  intros Hlen. unfold mask_assign. rewrite decide_True by exact Hlen.
  eexists. split; [reflexivity|]. split.
  - rewrite length_zip_with. lia.
  - intros i x b Hx Hb. rewrite lookup_zip_with, Hx, Hb. reflexivity.
Qed.

Lemma foldl_insert_const {A} (v : A) (idx : list nat) :
  forall a : list A,
    length (foldl (fun a i => <[i := v]> a) a idx) = length a /\
    forall i, (i < length a)%nat ->
      foldl (fun a i => <[i := v]> a) a idx !! i =
      if decide (i ∈ idx) then Some v else a !! i.
Proof.
  induction idx as [|j idx IH]; intros a; cbn [foldl].
  - split; [reflexivity|]. intros i _.
    rewrite decide_False by apply not_elem_of_nil. reflexivity.
  - destruct (IH (<[j := v]> a)) as [Hlen Hlk].
    rewrite length_insert in Hlen, Hlk.
    split; [exact Hlen|]. intros i Hi. rewrite (Hlk i Hi).
    destruct (decide (i ∈ idx)) as [Hin|Hnin].
    + rewrite decide_True by (right; exact Hin). reflexivity.
    + destruct (decide (i = j)) as [->|Hne].
      * rewrite decide_True by left.
        apply list_lookup_insert_eq. exact Hi.
      * rewrite decide_False by (rewrite elem_of_cons; tauto).
        apply list_lookup_insert_ne. congruence.
Qed.

Lemma index_assign_spec {A} (a : list A) (idx : list nat) (v : A) :
  Forall (fun i => (i < length a)%nat) idx ->
  exists a',
    index_assign a idx v = Ok a' /\
    length a' = length a /\
    forall i, (i < length a)%nat ->
      a' !! i = if decide (i ∈ idx) then Some v else a !! i.
Proof.
  intros Hidx. unfold index_assign.
  assert (Hb : forallb (fun i => i <? length a) idx = true).
  { apply forallb_forall. intros i Hi.
    apply Nat.ltb_lt. rewrite Forall_forall in Hidx.
    apply Hidx, list_elem_of_In, Hi. }
  rewrite Hb. eexists. split; [reflexivity|]. apply foldl_insert_const.
Qed.

(** Gathering the positions of a mask keeps the items the mask selects:
    [l[np.where(f(l))[0]]]. *)
Lemma gather_where_from {A} (f : A -> bool) (l : list A) :
  forall pre : list A,
    mapM (py_index (pre ++ l)) (where_from (length pre) (f <$> l))
    = Ok (filter (fun x => f x = true) l).
Proof.
  induction l as [|x l IH]; intros pre; [reflexivity|].
  cbn [fmap list_fmap where_from].
  change (list_fmap A bool f l) with (f <$> l).
  specialize (IH (pre ++ [x])).
  rewrite <- app_assoc, length_app in IH. cbn [app length] in IH.
  rewrite Nat.add_1_r in IH.
  rewrite filter_cons. destruct (f x) eqn:Hfx.
  - rewrite decide_True by reflexivity.
    apply mapM_Ok. constructor.
    + apply py_index_Some. apply list_lookup_middle. reflexivity.
    + apply mapM_Ok_inv, IH.
  - rewrite decide_False by congruence. exact IH.
Qed.

Lemma gather_where {A} (f : A -> bool) (l : list A) :
  mapM (py_index l) (np_where (f <$> l)) = Ok (filter (fun x => f x = true) l).
Proof. exact (gather_where_from f l []). Qed.

(** ** One pass of [add_anchors] *)

Lemma length_scale_boxes (bb : list Box) (s : Q) :
  length (scale_boxes bb s) = length bb.
Proof. apply length_fmap. Qed.

Lemma mapM_Ok_length {A B} (f : A -> result B) (l : list A) (k : list B) :
  mapM f l = Ok k -> length k = length l.
Proof. intros H. symmetry. eapply Forall2_length, mapM_Ok_inv, H. Qed.

(** On an image whose sides [int32] holds, with thresholds below [2^53],
    the pass reaches the labelling: the resize rule, the anchor filter and
    the overlap matrix raise nothing. *)
Lemma add_anchors_db_prefix (self : ObjectLocalization)
    (all_anchors : list Box) (db : roi) :
  (0 < (img_shape db).1 < 2 ^ 31)%Z -> (0 < (img_shape db).2 < 2 ^ 31)%Z ->
  (0 < MIN_SIZE self < 2 ^ 53)%Z -> (0 < MAX_SIZE self < 2 ^ 53)%Z ->
  exists im_scale im_shape anchors overlaps,
    calculate_scale_shape self (img_shape db) = Ok (im_scale, im_shape) /\
    mapM (py_index all_anchors) (inside_im_bounds all_anchors im_shape)
      = Ok anchors /\
    calculate_bb_overlap anchors (scale_boxes (gt_bb db) im_scale)
      = Ok overlaps.
Proof.
  destruct (img_shape db) as [w h]. cbn [fst snd]. intros Hw Hh Hmn Hmx.
  destruct (resolve_double (w, h) (MIN_SIZE self) (MAX_SIZE self))
    as [im_scale im_shape] eqn:Hres.
  exists im_scale, im_shape. eexists _, _.
  split; [rewrite <- Hres; apply calculate_scale_shape_positive; assumption|].
  split; [apply gather_where | apply calculate_bb_overlap_spec].
Qed.

Section Labelling.
Context (np_log : Q -> Q) (self : ObjectLocalization).
Context (all_anchors : list Box) (db : roi).
(** The values the body computes before it labels: the scale and shape of
    the resized image, the anchors inside it, and their overlaps with the
    scaled boxes. *)
Context (im_scale : Q) (im_shape : Z * Z).
Context (anchors : list Box) (overlaps : matrix).
Hypothesis Hscale :
  calculate_scale_shape self (img_shape db) = Ok (im_scale, im_shape).
Hypothesis Hanchors :
  mapM (py_index all_anchors) (inside_im_bounds all_anchors im_shape)
  = Ok anchors.
Hypothesis Hoverlaps :
  calculate_bb_overlap anchors (scale_boxes (gt_bb db) im_scale) = Ok overlaps.

Lemma overlaps_shape : shape (length anchors) (length (gt_bb db)) overlaps.
Proof using Hoverlaps.
  rewrite calculate_bb_overlap_spec in Hoverlaps. injection Hoverlaps as <-.
  rewrite <- (length_scale_boxes (gt_bb db) im_scale).
  apply shape_overlap_matrix.
Qed.

(** Without a ground-truth box the first reduction raises. *)
Lemma add_anchors_db_no_gt :
  gt_bb db = [] ->
  add_anchors_db np_log self all_anchors db = Raise ValueError.
Proof using Hscale Hanchors Hoverlaps.
  intros Hgt. unfold add_anchors_db.
  rewrite Hscale, bind_Ok. cbn beta iota.
  rewrite Hanchors, bind_Ok, Hoverlaps, bind_Ok.
  rewrite Hgt. reflexivity.
Qed.

(** With a ground-truth box and an anchor inside the image the pass returns;
    the labels follow the three assignments in their order. *)
Lemma add_anchors_db_run :
  anchors <> [] -> gt_bb db <> [] ->
  let G := length (scale_boxes (gt_bb db) im_scale) in
  exists db' row_max col_max,
    add_anchors_db np_log self all_anchors db = Ok db' /\
    max_axis1 G overlaps = Ok row_max /\
    max_axis0 overlaps = Ok col_max /\
    argmax_axis1 G overlaps = Ok (max_classes db') /\
    idx_inside db' = inside_im_bounds all_anchors im_shape /\
    length (labels db') = length anchors /\
    length row_max = length anchors /\
    forall r m, row_max !! r = Some m ->
      labels db' !! r =
      Some (if Qle_bool (POSITIVE_OVERLAP self) m then 1%Z
            else if decide (r ∈ where_rows
                     ((fun row => zip_with Qeq_bool row col_max) <$> overlaps))
            then 1%Z
            else if Qlt_bool m (NEGATIVE_OVERLAP self) then 0%Z
            else (-1)%Z).
Proof using Hscale Hanchors Hoverlaps.
  intros HR HG G.
  pose proof overlaps_shape as Hsh.
  rewrite <- (length_scale_boxes (gt_bb db) im_scale) in Hsh. fold G in Hsh.
  assert (HG0 : G <> 0%nat).
  { unfold G. rewrite length_scale_boxes. destruct (gt_bb db); cbn; congruence. }
  assert (HR0 : length anchors <> 0%nat) by (destruct anchors; cbn; congruence).
  pose proof (mapM_Ok_length _ _ _ Hanchors) as Hidx.
  destruct (max_axis1_spec _ _ _ Hsh HG0) as (row_max & Hrm & Hrows).
  assert (Hlrm : length row_max = length anchors).
  { destruct Hsh as [<- _]. symmetry. eapply Forall2_length, Hrows. }
  destruct (max_axis0_spec _ _ _ Hsh HR0) as (col_max & Hcm & Hlcm & Hcol).
  destruct (argmax_axis1_spec _ _ _ Hsh HG0) as (arg & Harg & Hlarg & Hargs).
  set (labels0 := replicate (length (inside_im_bounds all_anchors im_shape))
                    (-1)%Z).
  assert (Hl0 : length labels0 = length anchors)
    by (unfold labels0; rewrite length_replicate; lia).
  set (bg_idx := (fun m => Qlt_bool m (NEGATIVE_OVERLAP self)) <$> row_max).
  destruct (mask_assign_spec labels0 bg_idx 0%Z) as (labels1 & Hm1 & Hl1 & Hk1).
  { unfold bg_idx. rewrite length_fmap. lia. }
  set (gt_idx := where_rows
         ((fun row => zip_with Qeq_bool row col_max) <$> overlaps)).
  destruct (index_assign_spec labels1 gt_idx 1%Z) as (labels2 & Hm2 & Hl2 & Hk2).
  { apply Forall_forall. intros r Hr.
    apply elem_of_gt_idx in Hr as (g & x & c & Hx & _ & _).
    unfold entry in Hx. destruct (overlaps !! r) as [row|] eqn:Hrow;
      [|discriminate].
    apply lookup_lt_Some in Hrow. destruct Hsh as [HL _]. lia. }
  set (fg_idx := (fun m => Qle_bool (POSITIVE_OVERLAP self) m) <$> row_max).
  destruct (mask_assign_spec labels2 fg_idx 1%Z) as (labels3 & Hm3 & Hl3 & Hk3).
  { unfold fg_idx. rewrite length_fmap. lia. }
  destruct (gather_in_range (gt_bb db) arg) as (gt_sel & Hsel & _).
  { eapply Forall_impl; [exact Hargs|]. intros g Hg.
    unfold G in Hg. rewrite length_scale_boxes in Hg. exact Hg. }
  eexists _, row_max, col_max. split.
  { unfold add_anchors_db.
    rewrite Hscale, bind_Ok. cbn beta iota.
    rewrite Hanchors, bind_Ok, Hoverlaps, bind_Ok.
    fold G. rewrite Hrm, bind_Ok.
    fold labels0 bg_idx. rewrite Hm1, bind_Ok.
    rewrite Hcm, bind_Ok. fold gt_idx. rewrite Hm2, bind_Ok.
    rewrite bind_Ok. fold fg_idx. rewrite Hm3, bind_Ok.
    rewrite Harg, bind_Ok, Hsel, bind_Ok, bind_Ok. reflexivity. }
  cbn [max_classes idx_inside labels].
  split; [exact Hrm|]. split; [exact Hcm|]. split; [exact Harg|].
  split; [reflexivity|]. split; [lia|]. split; [exact Hlrm|].
  intros r m Hr.
  assert (Hlt : (r < length anchors)%nat)
    by (rewrite <- Hlrm; eapply lookup_lt_Some, Hr).
  assert (H0 : labels0 !! r = Some (-1)%Z).
  { unfold labels0. apply lookup_replicate_2. lia. }
  assert (H1 : labels1 !! r
               = Some (if Qlt_bool m (NEGATIVE_OVERLAP self) then 0 else -1)%Z).
  { apply (Hk1 r _ _ H0). unfold bg_idx. rewrite list_lookup_fmap, Hr.
    reflexivity. }
  assert (H2 : labels2 !! r
               = Some (if decide (r ∈ gt_idx) then 1
                       else if Qlt_bool m (NEGATIVE_OVERLAP self) then 0
                       else -1)%Z).
  { rewrite Hk2 by lia. rewrite H1. destruct (decide (r ∈ gt_idx)); reflexivity. }
  rewrite (Hk3 r _ (Qle_bool (POSITIVE_OVERLAP self) m) H2).
  - reflexivity.
  - unfold fg_idx. rewrite list_lookup_fmap, Hr. reflexivity.
Qed.

End Labelling.

(** Every image without a ground-truth box makes the pass raise. *)
Lemma add_anchors_db_no_box (np_log : Q -> Q) (self : ObjectLocalization)
    (all_anchors : list Box) (db : roi) :
  (0 < (img_shape db).1 < 2 ^ 31)%Z -> (0 < (img_shape db).2 < 2 ^ 31)%Z ->
  (0 < MIN_SIZE self < 2 ^ 53)%Z -> (0 < MAX_SIZE self < 2 ^ 53)%Z ->
  gt_bb db = [] ->
  add_anchors_db np_log self all_anchors db = Raise ValueError.
Proof.
  intros Hw Hh Hmn Hmx Hgt.
  destruct (add_anchors_db_prefix self all_anchors db Hw Hh Hmn Hmx)
    as (im_scale & im_shape & anchors & overlaps & H1 & H2 & H3).
  eapply add_anchors_db_no_gt; eassumption.
Qed.

(** ** The labels of one image *)






(** C1 fails on the code: an image without ground-truth boxes makes
    [add_anchors] raise [ValueError], at the reduction [overlaps.max(axis=1)]
    over the empty axis, instead of labelling the anchors BACKGROUND. *)
Theorem add_anchors_no_box_raises :
  forall np_log : Q -> Q,
    add_anchors np_log (small_set 2)
      [int_box 0 0 15 15; int_box 20 20 50 50] [no_box_image]
    = Raise ValueError.
Proof. intros np_log. vm_compute. reflexivity. Qed.

(** C3 fails on the code: the value stored under [max_classes] is the
    position of the best-overlapping box in [gt_bb] (here 0), not its class
    label (here 7). *)
Theorem max_classes_is_box_position :
  forall np_log : Q -> Q,
  exists db',
    add_anchors np_log (small_set 1) [int_box 0 0 15 15] [one_box_image]
      = Ok [db'] /\
    max_classes db' = [0%nat] /\
    gt_classes one_box_image = [7%Z].
Proof.
  intros np_log. eexists.
  split; [vm_compute; reflexivity|]. split; reflexivity.
Qed.

(** * Further properties *)

(** ** The overlap matrix as a whole *)

Lemma entry_shape_Some (R G : nat) (m : matrix) (r g : nat) (x : Q) :
  shape R G m -> entry m r g = Some x -> (r < R)%nat /\ (g < G)%nat.
Proof.
  intros Hs Hx. unfold entry in Hx.
  destruct (m !! r) as [row|] eqn:Hrow; [|discriminate]. cbn in Hx.
  pose proof (shape_row _ _ _ _ _ Hs Hrow) as Hl.
  apply lookup_lt_Some in Hrow. apply lookup_lt_Some in Hx.
  destruct Hs as [HL _]. lia.
Qed.

Lemma entry_overlap_matrix_inv (rp gt : list Box) (r g : nat) (x : Q) :
  entry (overlap_matrix rp gt) r g = Some x ->
  exists a b, rp !! r = Some a /\ gt !! g = Some b /\ x = iou a b.
Proof.
  intros Hx.
  destruct (entry_shape_Some _ _ _ _ _ _ (shape_overlap_matrix rp gt) Hx)
    as [Hr Hg].
  destruct (lookup_lt_is_Some_2 rp r Hr) as [a Ha].
  destruct (lookup_lt_is_Some_2 gt g Hg) as [b Hb].
  exists a, b. split; [exact Ha|]. split; [exact Hb|].
  rewrite (entry_overlap_matrix rp gt r g a b Ha Hb) in Hx. congruence.
Qed.

(** X1. [calculate_bb_overlap] never raises: for all box lists it returns a
    matrix with one row per proposal and one column per ground-truth box,
    whose cell [(r, g)] is the pairwise overlap of proposal [r] and box [g]
    and lies in [[0, 1]], also for degenerate boxes. *)
Theorem calculate_bb_overlap_total (rp gt : list Box) :
  exists m,
    calculate_bb_overlap rp gt = Ok m /\
    length m = length rp /\
    Forall (fun row => length row = length gt) m /\
    (forall r g a b, rp !! r = Some a -> gt !! g = Some b ->
       exists x, entry m r g = Some x /\ pairwise_overlap a b = Ok x) /\
    (forall r g x, entry m r g = Some x -> (0 <= x <= 1)%Q).
Proof.
  exists (overlap_matrix rp gt).
  split; [apply calculate_bb_overlap_spec|].
  destruct (shape_overlap_matrix rp gt) as [HL HF].
  split; [exact HL|]. split; [exact HF|]. split.
  - intros r g a b Ha Hb. exists (iou a b).
    split; [apply entry_overlap_matrix; assumption | apply pairwise_overlap_iou].
  - intros r g x Hx.
    apply entry_overlap_matrix_inv in Hx as (a & b & _ & _ & ->).
    apply iou_range.
Qed.

(** X2. Exchanging the two box lists transposes the overlap matrix: cell
    [(g, r)] of [calculate_bb_overlap gt rp] equals cell [(r, g)] of
    [calculate_bb_overlap rp gt]. *)
Theorem calculate_bb_overlap_transpose (rp gt : list Box) :
  exists m m',
    calculate_bb_overlap rp gt = Ok m /\
    calculate_bb_overlap gt rp = Ok m' /\
    forall r g x, entry m r g = Some x ->
      exists y, entry m' g r = Some y /\ (x == y)%Q.
Proof.
  exists (overlap_matrix rp gt), (overlap_matrix gt rp).
  split; [apply calculate_bb_overlap_spec|].
  split; [apply calculate_bb_overlap_spec|].
  intros r g x Hx.
  apply entry_overlap_matrix_inv in Hx as (a & b & Ha & Hb & ->).
  exists (iou b a). split; [apply entry_overlap_matrix; assumption|].
  apply iou_sym.
Qed.

(** ** The anchor filter *)

(** X5. [inside_im_bounds] returns, in ascending order and without
    repetition, exactly the positions of the boxes with [x_min >= 0],
    [y_min >= 0], [x_max < width] and [y_max < height]; gathering the boxes
    at these positions never raises and keeps the order of the boxes. *)
Theorem inside_im_bounds_spec (box : list Box) (im_shape : Z * Z) :
  let inside (b : Box) : Prop :=
    (0 <= x_min b)%Q /\ (0 <= y_min b)%Q /\
    (x_max b < inject_Z im_shape.1)%Q /\ (y_max b < inject_Z im_shape.2)%Q in
  StronglySorted lt (inside_im_bounds box im_shape) /\
  (forall i, i ∈ inside_im_bounds box im_shape <->
             exists b, box !! i = Some b /\ inside b) /\
  exists kept,
    mapM (py_index box) (inside_im_bounds box im_shape) = Ok kept /\
    kept `sublist_of` box /\
    forall b, b ∈ kept <-> b ∈ box /\ inside b.
Proof.
  intros inside. unfold inside_im_bounds.
  set (f := fun b =>
     Qle_bool 0 (x_min b) && Qle_bool 0 (y_min b) &&
     Qlt_bool (x_max b) (inject_Z im_shape.1) &&
     Qlt_bool (y_max b) (inject_Z im_shape.2)).
  assert (Hf : forall b, f b = true <-> inside b).
  { intros b. unfold f, inside.
    rewrite !andb_true_iff, !Qle_bool_iff, !Qlt_bool_iff. tauto. }
  split; [apply np_where_sorted|]. split.
  - intros i. rewrite elem_of_np_where, list_lookup_fmap.
    destruct (box !! i) as [b|]; cbn.
    + split.
      * intros H. injection H as H. exists b. split; [reflexivity|].
        apply Hf, H.
      * intros (b' & Hb' & Hin). injection Hb' as <-.
        f_equal. apply Hf, Hin.
    + split; [discriminate | intros (b' & Hb' & _); discriminate].
  - exists (filter (fun b => f b = true) box).
    split; [apply gather_where|]. split; [apply sublist_filter|].
    intros b. rewrite list_elem_of_filter, Hf. tauto.
Qed.

(** ** More on one pass of [add_anchors] *)

Ltac step_bind H :=
  match type of H with
  | (?m ≫= _) = Ok _ =>
      let E := fresh "Estep" in
      destruct m eqn:E; [rewrite bind_Ok in H; cbn beta iota zeta in H
                        | discriminate H]
  end.

Section LabellingMore.
Context (np_log : Q -> Q) (self : ObjectLocalization).
Context (all_anchors : list Box) (db : roi).
Context (im_scale : Q) (im_shape : Z * Z).
Context (anchors : list Box) (overlaps : matrix).
Hypothesis Hscale :
  calculate_scale_shape self (img_shape db) = Ok (im_scale, im_shape).
Hypothesis Hanchors :
  mapM (py_index all_anchors) (inside_im_bounds all_anchors im_shape)
  = Ok anchors.
Hypothesis Hoverlaps :
  calculate_bb_overlap anchors (scale_boxes (gt_bb db) im_scale) = Ok overlaps.

(** Without an anchor inside the image a reduction raises: the one over the
    columns when there is no box, the one over the rows otherwise. *)
Lemma add_anchors_db_no_anchor :
  anchors = [] ->
  add_anchors_db np_log self all_anchors db = Raise ValueError.
Proof using Hscale Hanchors Hoverlaps.
  intros HR.
  pose proof (add_anchors_db_no_gt np_log self all_anchors db im_scale
                im_shape anchors overlaps Hscale Hanchors Hoverlaps) as Hno.
  assert (Hcase : gt_bb db = [] \/ gt_bb db <> [])
    by (destruct (gt_bb db); [left; reflexivity | right; discriminate]).
  destruct Hcase as [Hgt|Hgt]; [exact (Hno Hgt)|]. clear Hno.
  pose proof (mapM_Ok_length _ _ _ Hanchors) as Hidx.
  rewrite HR in Hidx. cbn in Hidx.
  assert (Hov : overlaps = []).
  { rewrite calculate_bb_overlap_spec in Hoverlaps.
    injection Hoverlaps as <-. rewrite HR. reflexivity. }
  unfold add_anchors_db.
  rewrite Hscale, bind_Ok. cbn beta iota.
  rewrite Hanchors, bind_Ok, Hoverlaps, bind_Ok.
  rewrite Hov, <- Hidx. unfold max_axis1.
  rewrite decide_False
    by (rewrite length_scale_boxes; destruct (gt_bb db); cbn; congruence).
  reflexivity.
Qed.

(** The keys that a returning pass stores besides the labels. *)
Lemma add_anchors_db_fields (db' : anchored) :
  add_anchors_db np_log self all_anchors db = Ok db' ->
  exists arg gt_sel,
    argmax_axis1 (length (scale_boxes (gt_bb db) im_scale)) overlaps = Ok arg /\
    mapM (py_index (gt_bb db)) arg = Ok gt_sel /\
    source db' = db /\
    bbox_targets db'
      = _compute_targets np_log (scale_boxes gt_sel im_scale) anchors /\
    max_classes db' = arg /\
    total_anchors db' = _total_anchors self /\
    idx_inside db' = inside_im_bounds all_anchors im_shape /\
    im_width db' = im_shape.1 /\
    im_height db' = im_shape.2.
Proof using Hscale Hanchors Hoverlaps.
  intros H. unfold add_anchors_db in H.
  rewrite Hscale, bind_Ok in H. cbn beta iota in H.
  rewrite Hanchors, bind_Ok, Hoverlaps, bind_Ok in H.
  cbn beta iota zeta in H.
  repeat step_bind H.
  injection H as <-. cbn.
  repeat match goal with E : Ok _ = Ok _ |- _ => injection E as -> end.
  eexists _, _. repeat split; try reflexivity; eassumption.
Qed.

End LabellingMore.

(** A returning pass has computed a scale, found an anchor inside the image
    and a ground-truth box. *)
Lemma add_anchors_db_inv (np_log : Q -> Q) (self : ObjectLocalization)
    (all_anchors : list Box) (db : roi) (db' : anchored) :
  add_anchors_db np_log self all_anchors db = Ok db' ->
  exists im_scale im_shape anchors overlaps,
    calculate_scale_shape self (img_shape db) = Ok (im_scale, im_shape) /\
    mapM (py_index all_anchors) (inside_im_bounds all_anchors im_shape)
      = Ok anchors /\
    calculate_bb_overlap anchors (scale_boxes (gt_bb db) im_scale)
      = Ok overlaps /\
    anchors <> [] /\ gt_bb db <> [].
Proof.
  intros H.
  destruct (calculate_scale_shape self (img_shape db))
    as [[im_scale im_shape]|e] eqn:Hscale;
    [|unfold add_anchors_db in H; rewrite Hscale in H; discriminate H].
  destruct (mapM (py_index all_anchors)
              (inside_im_bounds all_anchors im_shape)) as [anchors|e]
    eqn:Hanchors;
    [|unfold add_anchors_db in H; rewrite Hscale, bind_Ok in H;
      cbn beta iota in H; rewrite Hanchors in H; discriminate H].
  pose proof (calculate_bb_overlap_spec anchors
                (scale_boxes (gt_bb db) im_scale)) as Hoverlaps.
  exists im_scale, im_shape, anchors,
    (overlap_matrix anchors (scale_boxes (gt_bb db) im_scale)).
  split; [first [exact Hscale | reflexivity]|].
  split; [first [exact Hanchors | reflexivity]|].
  split; [exact Hoverlaps|].
  split.
  - intros HR.
    rewrite (add_anchors_db_no_anchor np_log self all_anchors db im_scale
               im_shape anchors _ Hscale Hanchors Hoverlaps HR) in H.
    discriminate H.
  - intros HG.
    rewrite (add_anchors_db_no_gt np_log self all_anchors db im_scale
               im_shape anchors _ Hscale Hanchors Hoverlaps HG) in H.
    discriminate H.
Qed.

Lemma _compute_targets_shape (np_log : Q -> Q) (gt rp : list Box) :
  length gt = length rp ->
  length (_compute_targets np_log gt rp) = length rp /\
  Forall (fun row => length row = 4%nat) (_compute_targets np_log gt rp).
Proof.
  intros Hlen. unfold _compute_targets, _get_xywh. split.
  - rewrite !length_zip_with, !length_fmap, !length_zip_with, !length_fmap.
    lia.
  - apply Forall_forall. intros row Hrow.
    apply elem_of_zip_with in Hrow as (dxy & dwh & -> & Hxy & Hwh).
    apply elem_of_zip_with in Hxy as (dx & dy & -> & _ & _).
    apply elem_of_zip_with in Hwh as (dw & dh & -> & _ & _).
    reflexivity.
Qed.

(** X7. When no anchor lies inside the resized image, [add_anchors] does not
    return labels for it: the pass raises [ValueError], whatever the
    ground-truth boxes. *)
Theorem add_anchors_no_anchor_inside_raises (np_log : Q -> Q)
    (self : ObjectLocalization) (all_anchors : list Box) (db : roi)
    (im_scale : Q) (im_shape : Z * Z) :
  calculate_scale_shape self (img_shape db) = Ok (im_scale, im_shape) ->
  inside_im_bounds all_anchors im_shape = [] ->
  add_anchors_db np_log self all_anchors db = Raise ValueError.
Proof.
  intros Hscale Hin.
  eapply (add_anchors_db_no_anchor np_log self all_anchors db im_scale
            im_shape []).
  - exact Hscale.
  - rewrite Hin. reflexivity.
  - apply calculate_bb_overlap_spec.
  - reflexivity.
Qed.

Lemma add_anchors_no_anchor_inside_raises_witness :
  add_anchors_db log_near_one (small_set 1) [int_box (-8) (-8) 23 23]
    one_box_image = Raise ValueError.
Proof.
  apply (add_anchors_no_anchor_inside_raises log_near_one (small_set 1)
           [int_box (-8) (-8) 23 23] one_box_image unit_scale (800, 600)%Z).
  - vm_compute. reflexivity.
  - vm_compute. reflexivity.
Defined.

(** The three assignments leave nothing but the three labels. *)
Lemma add_anchors_db_labels (np_log : Q -> Q) (self : ObjectLocalization)
    (all_anchors : list Box) (db : roi) (db' : anchored) :
  add_anchors_db np_log self all_anchors db = Ok db' ->
  Forall (fun l => l = 1%Z \/ l = 0%Z \/ l = (-1)%Z) (labels db').
Proof.
  intros H.
  destruct (add_anchors_db_inv _ _ _ _ _ H)
    as (im_scale & im_shape & anchors & overlaps & Hscale & Hanchors
        & Hoverlaps & HR & HG).
  destruct (add_anchors_db_run np_log self all_anchors db im_scale im_shape
              anchors overlaps Hscale Hanchors Hoverlaps HR HG)
    as (db'' & row_max & col_max & Hrun & _ & _ & _ & _ & Hlen & Hlrm & Hlab).
  assert (db'' = db') by congruence. subst db''.
  apply Forall_lookup. intros i l Hl.
  destruct (lookup_lt_is_Some_2 row_max i) as [m Hm].
  { rewrite Hlrm, <- Hlen. eapply lookup_lt_Some, Hl. }
  rewrite (Hlab i m Hm) in Hl. injection Hl as <-.
  destruct (Qle_bool _ _); [auto|].
  destruct (decide _); [auto|].
  destruct (Qlt_bool _ _); auto.
Qed.



(** The arrays a returning pass stores are aligned with the anchors inside
    the image. *)
Lemma add_anchors_db_invariants (np_log : Q -> Q) (self : ObjectLocalization)
    (all_anchors : list Box) (db : roi) (db' : anchored) :
  add_anchors_db np_log self all_anchors db = Ok db' ->
  source db' = db /\
  total_anchors db' = _total_anchors self /\
  idx_inside db' <> [] /\
  StronglySorted lt (idx_inside db') /\
  Forall (fun i => (i < length all_anchors)%nat) (idx_inside db') /\
  length (labels db') = length (idx_inside db') /\
  length (bbox_targets db') = length (idx_inside db') /\
  length (max_classes db') = length (idx_inside db') /\
  Forall (fun row => length row = 4%nat) (bbox_targets db') /\
  Forall (fun g => (g < length (gt_bb db))%nat) (max_classes db').
Proof.
  intros H.
  destruct (add_anchors_db_inv _ _ _ _ _ H)
    as (im_scale & im_shape & anchors & overlaps & Hscale & Hanchors
        & Hoverlaps & HR & HG).
  destruct (add_anchors_db_fields np_log self all_anchors db im_scale
              im_shape anchors overlaps Hscale Hanchors Hoverlaps db' H)
    as (arg & gt_sel & Harg & Hsel & Hsrc & Hbb & Hmc & Hta & Hidx & _ & _).
  destruct (add_anchors_db_run np_log self all_anchors db im_scale im_shape
              anchors overlaps Hscale Hanchors Hoverlaps HR HG)
    as (db'' & _ & _ & Hrun & _ & _ & _ & _ & Hlen & _ & _).
  assert (db'' = db') by congruence. subst db''.
  pose proof (mapM_Ok_length _ _ _ Hanchors) as Hla.
  pose proof (overlaps_shape db im_scale anchors overlaps Hoverlaps) as Hsh.
  rewrite <- (length_scale_boxes (gt_bb db) im_scale) in Hsh.
  destruct (argmax_axis1_spec _ _ _ Hsh) as (arg' & Harg' & Hlarg & Hargs).
  { rewrite length_scale_boxes. destruct (gt_bb db); cbn; congruence. }
  assert (arg' = arg) by congruence. subst arg'.
  pose proof (mapM_Ok_length _ _ _ Hsel) as Hlsel.
  destruct (_compute_targets_shape np_log (scale_boxes gt_sel im_scale) anchors)
    as [Hlt Hrows]; [rewrite length_scale_boxes; lia|].
  rewrite Hidx, Hbb, Hmc.
  split; [exact Hsrc|]. split; [exact Hta|]. split.
  { intros Hnil. rewrite Hnil in Hla. destruct anchors; [congruence|].
    cbn in Hla. lia. }
  split; [apply np_where_sorted|]. split.
  { apply Forall_forall. intros i Hi. unfold inside_im_bounds in Hi.
    apply elem_of_np_where in Hi. apply lookup_lt_Some in Hi.
    rewrite length_fmap in Hi. exact Hi. }
  split; [lia|]. split; [lia|]. split; [lia|]. split; [exact Hrows|].
  eapply Forall_impl; [exact Hargs|]. intros g Hg.
  rewrite length_scale_boxes in Hg. exact Hg.
Qed.

(** X9. Whenever a pass of [add_anchors] returns, the arrays it stores are
    aligned with the anchors inside the image: [labels], [bbox_targets] and
    [max_classes] have one entry per position of [idx_inside], every target
    row has four columns, every [max_classes] entry is a position of
    [gt_bb], and [idx_inside] is a non-empty ascending list of positions of
    the anchor grid. *)
Theorem add_anchors_db_aligned (np_log : Q -> Q) (self : ObjectLocalization)
    (all_anchors : list Box) (db : roi) (db' : anchored) :
  add_anchors_db np_log self all_anchors db = Ok db' ->
  source db' = db /\
  total_anchors db' = _total_anchors self /\
  idx_inside db' <> [] /\
  StronglySorted lt (idx_inside db') /\
  Forall (fun i => (i < length all_anchors)%nat) (idx_inside db') /\
  length (labels db') = length (idx_inside db') /\
  length (bbox_targets db') = length (idx_inside db') /\
  length (max_classes db') = length (idx_inside db') /\
  Forall (fun row => length row = 4%nat) (bbox_targets db') /\
  Forall (fun g => (g < length (gt_bb db))%nat) (max_classes db').
Proof. apply add_anchors_db_invariants. Qed.

Lemma add_anchors_db_aligned_witness :
  exists db',
    add_anchors_db log_near_one (small_set 2)
      [int_box 0 0 15 15; int_box 20 20 50 50] two_box_image = Ok db' /\
    source db' = two_box_image /\
    total_anchors db' = 2%nat /\
    idx_inside db' <> [] /\
    StronglySorted lt (idx_inside db') /\
    Forall (fun i => (i < 2)%nat) (idx_inside db') /\
    length (labels db') = length (idx_inside db') /\
    length (bbox_targets db') = length (idx_inside db') /\
    length (max_classes db') = length (idx_inside db') /\
    Forall (fun row => length row = 4%nat) (bbox_targets db') /\
    Forall (fun g => (g < 2)%nat) (max_classes db').
Proof.
  eexists. split.
  - vm_compute. reflexivity.
  - apply (add_anchors_db_aligned log_near_one (small_set 2)
             [int_box 0 0 15 15; int_box 20 20 50 50] two_box_image).
    vm_compute. reflexivity.
Defined.

(** ** The scatter of [_unmap] in general *)

Lemma foldl_insert_nodup {A} (ps : list (nat * A)) :
  forall ret : list A,
    NoDup ps.*1 ->
    Forall (fun jx : nat * A => (jx.1 < length ret)%nat) ps ->
    let ret' := foldl (fun r (jx : nat * A) => <[jx.1 := jx.2]> r) ret ps in
    length ret' = length ret /\
    (forall j x, (j, x) ∈ ps -> ret' !! j = Some x) /\
    (forall j, j ∉ ps.*1 -> ret' !! j = ret !! j).
Proof.
  induction ps as [|[j x] ps IH]; intros ret Hnd HF; cbn zeta.
  - split; [reflexivity|]. split; [|reflexivity].
    intros j x Hin. inversion Hin.
  - cbn [fmap list_fmap fst] in Hnd. apply NoDup_cons in Hnd as [Hj Hnd].
    apply Forall_cons in HF as [Hlt HF]. cbn [fst] in Hlt.
    cbn [foldl fst snd].
    destruct (IH (<[j := x]> ret) Hnd) as (Hlen & Hin & Hout).
    { eapply Forall_impl; [exact HF|]. intros jx ?.
      rewrite length_insert. assumption. }
    split; [rewrite Hlen; apply length_insert|]. split.
    + intros j' x' Hjx. apply elem_of_cons in Hjx as [Heq|Hjx].
      * injection Heq as -> ->. rewrite (Hout j Hj).
        apply list_lookup_insert_eq. exact Hlt.
      * apply Hin, Hjx.
    + intros j' Hj'. cbn [fmap list_fmap fst] in Hj'.
      rewrite not_elem_of_cons in Hj'. destruct Hj' as [Hne Hj'].
      rewrite (Hout j' Hj'). apply list_lookup_insert_ne. congruence.
Qed.

Lemma NoDup_to_nat (inds : list Z) :
  Forall (fun i => 0 <= i)%Z inds -> NoDup inds -> NoDup (Z.to_nat <$> inds).
Proof.
  intros Hpos Hnd. apply NoDup_fmap_2_strong; [|exact Hnd].
  intros i j Hi Hj Heq. rewrite Forall_forall in Hpos.
  pose proof (Hpos i Hi) as Hi0. pose proof (Hpos j Hj) as Hj0.
  cbn beta in Hi0, Hj0.
  apply (f_equal Z.of_nat) in Heq. rewrite !Z2Nat.id in Heq by assumption.
  exact Heq.
Qed.

(** Distinct valid positions each receive their own item; every other
    position keeps what it held. *)
Lemma scatter_nodup {A} (ret : list A) (inds : list Z) (data : list A) :
  NoDup inds ->
  Forall (fun i => 0 <= i < Z.of_nat (length ret))%Z inds ->
  length data = length inds ->
  exists ret',
    scatter ret inds data = Ok ret' /\
    length ret' = length ret /\
    (forall (k : nat) i x, inds !! k = Some i -> data !! k = Some x ->
       ret' !! Z.to_nat i = Some x) /\
    (forall j : nat, Z.of_nat j ∉ inds -> ret' !! j = ret !! j).
Proof.
  intros Hnd Hv Hlen. unfold scatter.
  rewrite (mapM_Ok_fmap _ Z.to_nat); cycle 1.
  { eapply Forall_impl; [exact Hv|]. intros i Hi. apply norm_index_valid, Hi. }
  rewrite bind_Ok, decide_True by exact Hlen.
  eexists. split; [reflexivity|].
  destruct (foldl_insert_nodup (zip (Z.to_nat <$> inds) data) ret)
    as (Hl & Hin & Hout).
  { rewrite fst_zip by (rewrite length_fmap; lia).
    apply NoDup_to_nat; [|exact Hnd].
    eapply Forall_impl; [exact Hv|]. intros i Hi. cbn beta in Hi. lia. }
  { apply Forall_forall. intros [j x] Hjx. cbn [fst].
    apply elem_of_zip_l in Hjx. apply list_elem_of_fmap in Hjx as (i & -> & Hi).
    rewrite Forall_forall in Hv. specialize (Hv i Hi). cbn beta in Hv. lia. }
  split; [exact Hl|]. split.
  - intros k i x Hi Hx. apply Hin.
    apply list_elem_of_lookup. exists k.
    apply lookup_zip_Some. split; [|exact Hx].
    rewrite list_lookup_fmap, Hi. reflexivity.
  - intros j Hj. apply Hout.
    rewrite fst_zip by (rewrite length_fmap; lia).
    intros Hin'. apply Hj.
    apply list_elem_of_fmap in Hin' as (i & -> & Hi).
    rewrite Forall_forall in Hv. specialize (Hv i Hi). cbn beta in Hv.
    rewrite Z2Nat.id by lia. exact Hi.
Qed.

(** X10. For distinct positions of [[0, count)] and as many items, [_unmap]
    returns a [float32] array of length [count] in which the [k]-th listed
    position holds the [float32] nearest to the [k]-th item and every
    position not listed holds the [float32] of the fill value (a row of them
    for a two-dimensional array). *)
Theorem unmap_scatter {T F : Type} `{!AsFloat32 T, !AsFloat32 F}
    (data : list T) (ncols : nat) (data2 : list (list T)) (count : nat)
    (inds : list Z) (fill : F) :
  NoDup inds ->
  Forall (fun i => 0 <= i < Z.of_nat count)%Z inds ->
  length data = length inds ->
  length data2 = length inds ->
  (exists ret,
     _unmap (Arr1 data) count inds fill = Ok (Arr1 ret) /\
     length ret = count /\
     (forall (k : nat) i x, inds !! k = Some i -> data !! k = Some x ->
        ret !! Z.to_nat i = Some (as_float32 x)) /\
     (forall j : nat, (j < count)%nat -> Z.of_nat j ∉ inds ->
        ret !! j = Some (as_float32 fill))) /\
  (exists ret,
     _unmap (Arr2 ncols data2) count inds fill = Ok (Arr2 ncols ret) /\
     length ret = count /\
     (forall (k : nat) i row, inds !! k = Some i -> data2 !! k = Some row ->
        ret !! Z.to_nat i = Some ((fun x : T => as_float32 x) <$> row)) /\
     (forall j : nat, (j < count)%nat -> Z.of_nat j ∉ inds ->
        ret !! j = Some (replicate ncols (as_float32 fill)))).
Proof.
  intros Hnd Hv Hl1 Hl2. split.
  - destruct (scatter_nodup (replicate count (as_float32 fill)) inds
                ((fun x : T => as_float32 x) <$> data) Hnd)
      as (ret & Hsc & Hl & Hin & Hout);
      [rewrite length_replicate; exact Hv
      | rewrite length_fmap; exact Hl1 |].
    exists ret. unfold _unmap. rewrite Hsc.
    split; [reflexivity|]. rewrite length_replicate in Hl.
    split; [exact Hl|]. split.
    + intros k i x Hi Hx. apply (Hin k i _ Hi).
      rewrite list_lookup_fmap, Hx. reflexivity.
    + intros j Hj Hnin. rewrite (Hout j Hnin). apply lookup_replicate_2, Hj.
  - destruct (scatter_nodup
                (replicate count (replicate ncols (as_float32 fill))) inds
                ((fun row : list T => (fun x : T => as_float32 x) <$> row)
                   <$> data2) Hnd)
      as (ret & Hsc & Hl & Hin & Hout);
      [rewrite length_replicate; exact Hv
      | rewrite length_fmap; exact Hl2 |].
    exists ret. unfold _unmap. rewrite Hsc.
    split; [reflexivity|]. rewrite length_replicate in Hl.
    split; [exact Hl|]. split.
    + intros k i x Hi Hx. apply (Hin k i _ Hi).
      rewrite list_lookup_fmap, Hx. reflexivity.
    + intros j Hj Hnin. rewrite (Hout j Hnin). apply lookup_replicate_2, Hj.
Qed.

Lemma unmap_scatter_witness :
  (exists ret,
     _unmap (Arr1 [10; 16777217]%Z) 4 [3; 1]%Z (-1)%Z = Ok (Arr1 ret) /\
     length ret = 4%nat /\
     (forall (k : nat) i x, [3; 1]%Z !! k = Some i ->
        [10; 16777217]%Z !! k = Some x ->
        ret !! Z.to_nat i = Some (as_float32 x)) /\
     (forall j : nat, (j < 4)%nat -> Z.of_nat j ∉ [3; 1]%Z ->
        ret !! j = Some (as_float32 (-1)%Z))) /\
  (exists ret,
     _unmap (Arr2 2 [[1; 2 # 3]; [3; 4]]%Q) 4 [3; 1]%Z 0%Z
       = Ok (Arr2 2 ret) /\
     length ret = 4%nat /\
     (forall (k : nat) i row, [3; 1]%Z !! k = Some i ->
        [[1; 2 # 3]; [3; 4]]%Q !! k = Some row ->
        ret !! Z.to_nat i = Some ((fun x : Q => as_float32 x) <$> row)) /\
     (forall j : nat, (j < 4)%nat -> Z.of_nat j ∉ [3; 1]%Z ->
        ret !! j = Some (replicate 2 (as_float32 0%Z)))).
Proof.
  assert (Hnd : NoDup [3; 1]%Z)
    by (apply (bool_decide_unpack _); vm_compute; exact I).
  assert (Hv : Forall (fun i => 0 <= i < Z.of_nat 4)%Z [3; 1]%Z)
    by (repeat constructor; lia).
  split.
  - apply (unmap_scatter [10; 16777217]%Z 2 [[1; 2]; [3; 4]]%Z 4 [3; 1]%Z
             (-1)%Z Hnd Hv eq_refl eq_refl).
  - apply (unmap_scatter [1; 2]%Q 2 [[1; 2 # 3]; [3; 4]]%Q 4 [3; 1]%Z 0%Z
             Hnd Hv eq_refl eq_refl).
Defined.

(** ** [unmap] after [add_anchors] *)

Lemma sorted_lt_NoDup (l : list nat) : StronglySorted lt l -> NoDup l.
Proof.
  induction 1 as [|x l _ IH Hx]; constructor; [|exact IH].
  intros Hin. rewrite Forall_forall in Hx.
  specialize (Hx x Hin). lia.
Qed.

Lemma unmap_array {A} (data : list A) (count : nat) (idx : list nat)
    (fill : A) :
  StronglySorted lt idx ->
  Forall (fun i => (i < count)%nat) idx ->
  length data = length idx ->
  exists ret,
    scatter (replicate count fill) (Z.of_nat <$> idx) data = Ok ret /\
    length ret = count /\
    (forall k i, idx !! k = Some i -> ret !! i = data !! k) /\
    (forall i, (i < count)%nat -> i ∉ idx -> ret !! i = Some fill).
Proof.
  intros Hs Hr Hlen.
  destruct (scatter_nodup (replicate count fill) (Z.of_nat <$> idx) data)
    as (ret & Hsc & Hl & Hin & Hout).
  { apply NoDup_fmap_2;
      [intros i j H; exact (Nat2Z.inj _ _ H) | apply sorted_lt_NoDup, Hs]. }
  { rewrite length_replicate. apply Forall_fmap.
    eapply Forall_impl; [exact Hr|]. intros i Hi.
    cbn beta in Hi. unfold compose. lia. }
  { rewrite length_fmap. exact Hlen. }
  rewrite length_replicate in Hl.
  exists ret. split; [exact Hsc|]. split; [exact Hl|]. split.
  - intros k i Hk.
    destruct (lookup_lt_is_Some_2 data k) as [x Hx].
    { rewrite Hlen. eapply lookup_lt_Some, Hk. }
    rewrite Hx, <- (Nat2Z.id i). apply (Hin k); [|exact Hx].
    rewrite list_lookup_fmap, Hk. reflexivity.
  - intros i Hi Hnin. rewrite Hout.
    + apply lookup_replicate_2, Hi.
    + intros Hin'. apply Hnin.
      apply list_elem_of_fmap in Hin' as (j & Hj & Hin').
      apply Nat2Z.inj in Hj. subst j. exact Hin'.
Qed.

(** What [unmap] makes of an entry whose arrays are aligned with its
    [idx_inside]. *)
Lemma unmap_db_aligned {L T C} `{!AsFloat32 L, !AsFloat32 T, !AsFloat32 C}
    (db : anchored_of L T C) :
  StronglySorted lt (idx_inside db) ->
  Forall (fun i => (i < total_anchors db)%nat) (idx_inside db) ->
  length (labels db) = length (idx_inside db) ->
  length (bbox_targets db) = length (idx_inside db) ->
  length (max_classes db) = length (idx_inside db) ->
  exists db',
    unmap_db db = Ok db' /\
    source db' = source db /\
    total_anchors db' = total_anchors db /\
    idx_inside db' = idx_inside db /\
    im_width db' = im_width db /\ im_height db' = im_height db /\
    length (labels db') = total_anchors db /\
    length (bbox_targets db') = total_anchors db /\
    length (max_classes db') = total_anchors db /\
    (forall k i, idx_inside db !! k = Some i ->
       labels db' !! i = (fun l : L => as_float32 l) <$> labels db !! k /\
       bbox_targets db' !! i
       = (fun row : list T => (fun x : T => as_float32 x) <$> row)
           <$> bbox_targets db !! k /\
       max_classes db' !! i
       = (fun c : C => as_float32 c) <$> max_classes db !! k) /\
    (forall i, (i < total_anchors db)%nat -> i ∉ idx_inside db ->
       labels db' !! i = Some (as_float32 (-1)%Z) /\
       bbox_targets db' !! i = Some (replicate 4 (as_float32 0%Z)) /\
       max_classes db' !! i = Some (as_float32 0%Z)).
Proof.
  intros Hs Hr Hl Hb Hm.
  destruct (unmap_array ((fun l : L => as_float32 l) <$> labels db)
              (total_anchors db) (idx_inside db) (as_float32 (-1)%Z) Hs Hr)
    as (l' & Hl1 & Hl2 & Hl3 & Hl4); [rewrite length_fmap; exact Hl|].
  destruct (unmap_array
              ((fun row : list T => (fun x : T => as_float32 x) <$> row)
                 <$> bbox_targets db)
              (total_anchors db) (idx_inside db)
              (replicate 4 (as_float32 0%Z)) Hs Hr)
    as (b' & Hb1 & Hb2 & Hb3 & Hb4); [rewrite length_fmap; exact Hb|].
  destruct (unmap_array ((fun c : C => as_float32 c) <$> max_classes db)
              (total_anchors db) (idx_inside db) (as_float32 0%Z) Hs Hr)
    as (m' & Hm1 & Hm2 & Hm3 & Hm4); [rewrite length_fmap; exact Hm|].
  eexists. split.
  { unfold unmap_db, _unmap.
    rewrite Hl1, !bind_Ok. cbn [as_1d]. rewrite bind_Ok.
    rewrite Hb1, !bind_Ok. cbn [as_2d]. rewrite bind_Ok.
    rewrite Hm1, !bind_Ok. cbn [as_1d]. rewrite bind_Ok. reflexivity. }
  cbn [source total_anchors idx_inside im_width im_height labels bbox_targets
       max_classes].
  do 8 (split; [first [reflexivity | assumption]|]). split.
  - intros k i Hk. rewrite (Hl3 k i Hk), (Hb3 k i Hk), (Hm3 k i Hk).
    rewrite !list_lookup_fmap. auto.
  - intros i Hi Hnin.
    rewrite (Hl4 i Hi Hnin), (Hb4 i Hi Hnin), (Hm4 i Hi Hnin). auto.
Qed.

(** X11. After a returning pass of [add_anchors] over a grid of
    [_total_anchors] anchors, [unmap] never raises.  It returns [float32]
    arrays over the whole grid.  An anchor inside the image holds its label
    with its value, the [float32] nearest to each of its targets, and the
    [float32] of its [max_classes] entry; every anchor outside the image
    holds the label -1 (ignored), a null target row and [max_classes] 0. *)
Theorem unmap_after_add_anchors (np_log : Q -> Q) (self : ObjectLocalization)
    (all_anchors : list Box) (db : roi) (db' : anchored) :
  add_anchors_db np_log self all_anchors db = Ok db' ->
  _total_anchors self = length all_anchors ->
  exists db'',
    unmap_db db' = Ok db'' /\
    length (labels db'') = length all_anchors /\
    length (bbox_targets db'') = length all_anchors /\
    length (max_classes db'') = length all_anchors /\
    (forall k i, idx_inside db' !! k = Some i ->
       labels db'' !! i = (fun l : Z => as_float32 l) <$> labels db' !! k /\
       bbox_targets db'' !! i
       = (fun row : list Q => (fun x : Q => as_float32 x) <$> row)
           <$> bbox_targets db' !! k /\
       max_classes db'' !! i
       = (fun c : nat => as_float32 c) <$> max_classes db' !! k) /\
    (forall k l, labels db' !! k = Some l ->
       float_value (as_float32 l) == inject_Z l) /\
    (forall i, (i < length all_anchors)%nat -> i ∉ idx_inside db' ->
       labels db'' !! i = Some (as_float32 (-1)%Z) /\
       bbox_targets db'' !! i = Some (replicate 4 (as_float32 0%Z)) /\
       max_classes db'' !! i = Some (as_float32 0%Z)).
Proof.
  intros Hrun Htot.
  destruct (add_anchors_db_invariants _ _ _ _ _ Hrun)
    as (_ & Hta & _ & Hs & Hr & Hl & Hb & Hm & _ & _).
  rewrite <- Htot, <- Hta in Hr |- *.
  destruct (unmap_db_aligned db' Hs Hr Hl Hb Hm)
    as (db'' & Hun & _ & _ & _ & _ & _ & H1 & H2 & H3 & H4 & H5).
  exists db''. split; [exact Hun|]. do 3 (split; [assumption|]).
  split; [exact H4|]. split; [|exact H5].
  intros k l Hk. apply as_float32_int_value.
  pose proof (add_anchors_db_labels _ _ _ _ _ Hrun) as HF.
  rewrite Forall_lookup in HF.
  destruct (HF k l Hk) as [->|[->| ->]]; lia.
Qed.

Lemma unmap_after_add_anchors_witness :
  exists db' db'',
    add_anchors_db log_near_one (small_set 2)
      [int_box (-8) (-8) 23 23; int_box 0 0 15 15] one_box_image = Ok db' /\
    unmap_db db' = Ok db'' /\
    length (labels db'') = 2%nat /\
    length (bbox_targets db'') = 2%nat /\
    length (max_classes db'') = 2%nat /\
    (forall k i, idx_inside db' !! k = Some i ->
       labels db'' !! i = (fun l : Z => as_float32 l) <$> labels db' !! k /\
       bbox_targets db'' !! i
       = (fun row : list Q => (fun x : Q => as_float32 x) <$> row)
           <$> bbox_targets db' !! k /\
       max_classes db'' !! i
       = (fun c : nat => as_float32 c) <$> max_classes db' !! k) /\
    (forall k l, labels db' !! k = Some l ->
       float_value (as_float32 l) == inject_Z l) /\
    (forall i, (i < 2)%nat -> i ∉ idx_inside db' ->
       labels db'' !! i = Some (as_float32 (-1)%Z) /\
       bbox_targets db'' !! i = Some (replicate 4 (as_float32 0%Z)) /\
       max_classes db'' !! i = Some (as_float32 0%Z)).
Proof.
  eexists.
  assert (Hrun : add_anchors_db log_near_one (small_set 2)
                   [int_box (-8) (-8) 23 23; int_box 0 0 15 15] one_box_image
                 = Ok ?[db']) by (vm_compute; reflexivity).
  destruct (unmap_after_add_anchors log_near_one (small_set 2)
              [int_box (-8) (-8) 23 23; int_box 0 0 15 15] one_box_image
              _ Hrun eq_refl) as (db'' & H).
  exists db''. split; [exact Hrun | exact H].
Defined.
(** ** What [_sample_anchors] returns *)

Lemma sample_anchors_returned {rng : Type}
    (choice : rng -> list nat -> Z -> result (list nat) * rng) (be : rng)
    {L T C} `{!EqInt L} (db : anchored_of L T C) (n : Z)
    (fg_fraction : float64) (deterministic : bool) (k : Z)
    (l : list L) (t : list (list T)) (idx : list nat) :
  num_fg_of fg_fraction n = Ok k ->
  choice_spec choice ->
  (0 <= k <= n)%Z ->
  length (bbox_targets db) = length (labels db) ->
  (_sample_anchors choice be db n fg_fraction deterministic).1
    = Ok (l, t, idx) ->
  exists fg bg fg_labels bg_labels,
    idx = fg ++ bg /\
    l = fg_labels ++ bg_labels /\
    Forall (fun i => i ∈ pool 1 (labels db)) fg /\
    Forall (fun i => i ∈ pool 0 (labels db)) bg /\
    (Z.of_nat (length fg) <= k)%Z /\
    Z.of_nat (length idx) = n /\
    Forall2 (fun i x => labels db !! i = Some x) fg fg_labels /\
    Forall2 (fun i x => labels db !! i = Some x) bg bg_labels /\
    Forall (fun x => eq_int x 1 = true) fg_labels /\
    Forall (fun x => eq_int x 0 = true) bg_labels /\
    Forall2 (fun i row => bbox_targets db !! i = Some row) idx t.
Proof.
  intros Hk Hc Hnum Hlen Hret.
  destruct (sample_anchors_draw choice be db n fg_fraction deterministic k
              Hk Hc Hnum)
    as (fg & bg & be' & Hlfg & Hlbg & Hsfg & Hsbg & _ & Hrun).
  rewrite Hrun in Hret. cbn [fst] in Hret.
  destruct (sample_finish db n fg bg Hlen Hsfg Hsbg) as [Hbad Hgood].
  destruct (Z.eq_dec (Z.of_nat (length (fg ++ bg))) n) as [He|Hne].
  - destruct (Hgood He) as (lf & lb & t' & Hok & Hlf & Hlb & H1 & H0 & HF).
    pose proof (eq_trans (eq_sym Hok) Hret) as E.
    injection E as <- <- <-.
    exists fg, bg, lf, lb. split; [reflexivity|]. split; [reflexivity|].
    split; [exact Hsfg|]. split; [exact Hsbg|].
    split; [lia|]. auto 10.
  - pose proof (eq_trans (eq_sym (Hbad Hne)) Hret) as E. discriminate E.
Qed.

(** X12. Whenever [_sample_anchors] returns, in either mode, it returns
    exactly [nrois] positions with their labels and target rows: first at
    most [k] anchors of label 1, for the number [k] of foreground slots that
    the code computes, then anchors of label 0 only; an ignored anchor
    (label -1) is never selected. *)
Theorem sample_anchors_content {rng : Type}
    (choice : rng -> list nat -> Z -> result (list nat) * rng) (be : rng)
    {L T C : Type} `{!EqInt L, !EqIntLaws L} (db : anchored_of L T C)
    (n : Z) (fg_fraction : float64) (deterministic : bool) (k : Z)
    (l : list L) (t : list (list T)) (idx : list nat) :
  num_fg_of fg_fraction n = Ok k ->
  choice_spec choice ->
  (0 <= k <= n)%Z ->
  length (bbox_targets db) = length (labels db) ->
  (_sample_anchors choice be db n fg_fraction deterministic).1
    = Ok (l, t, idx) ->
  exists fg_labels bg_labels,
    l = fg_labels ++ bg_labels /\
    (Z.of_nat (length fg_labels) <= k)%Z /\
    Z.of_nat (length idx) = n /\
    Forall (fun x => eq_int x 1 = true) fg_labels /\
    Forall (fun x => eq_int x 0 = true) bg_labels /\
    Forall2 (fun i x => labels db !! i = Some x) idx l /\
    Forall2 (fun i row => bbox_targets db !! i = Some row) idx t /\
    Forall (fun x => eq_int x (-1) = false) l.
Proof.
  intros Hk Hc Hnum Hlen Hret.
  destruct (sample_anchors_returned choice be db n fg_fraction deterministic
              k l t idx Hk Hc Hnum Hlen Hret)
    as (fg & bg & lf & lb & -> & -> & _ & _ & Hle & Hn & Hlf & Hlb & H1 & H0
        & HF).
  exists lf, lb. split; [reflexivity|].
  split; [rewrite <- (Forall2_length _ _ _ Hlf); exact Hle|].
  split; [exact Hn|]. split; [exact H1|]. split; [exact H0|].
  split; [apply Forall2_app; assumption|]. split; [exact HF|].
  apply Forall_app. split.
  - eapply Forall_impl; [exact H1|]. cbn beta. intros x Hx.
    destruct (eq_int x (-1)) eqn:E; [|reflexivity].
    pose proof (eq_int_inj x _ _ Hx E). discriminate.
  - eapply Forall_impl; [exact H0|]. cbn beta. intros x Hx.
    destruct (eq_int x (-1)) eqn:E; [|reflexivity].
    pose proof (eq_int_inj x _ _ Hx E). discriminate.
Qed.

Lemma sample_anchors_content_witness :
  num_fg_of (double (1 # 2)) 4 = Ok 2%Z /\
  exists l t idx fg_labels bg_labels,
    (_sample_anchors last_choice tt (labelled [1; 0; 0; -1; 0]%Z) 4
       (double (1 # 2)) false).1 = Ok (l, t, idx) /\
    l = fg_labels ++ bg_labels /\
    (Z.of_nat (length fg_labels) <= 2)%Z /\
    Z.of_nat (length idx) = 4%Z /\
    Forall (fun x => eq_int x 1 = true) fg_labels /\
    Forall (fun x => eq_int x 0 = true) bg_labels /\
    Forall2 (fun i x => [1; 0; 0; -1; 0]%Z !! i = Some x) idx l /\
    Forall2 (fun i row =>
               bbox_targets (labelled [1; 0; 0; -1; 0]%Z) !! i = Some row)
      idx t /\
    Forall (fun x => eq_int x (-1) = false) l.
Proof.
  assert (Hk : num_fg_of (double (1 # 2)) 4 = Ok 2%Z)
    by (vm_compute; reflexivity).
  split; [exact Hk|].
  eexists _, _, _.
  assert (Hret : (_sample_anchors last_choice tt
                    (labelled [1; 0; 0; -1; 0]%Z) 4 (double (1 # 2)) false).1
                 = Ok (?[l], ?[t], ?[idx])) by (vm_compute; reflexivity).
  assert (Hnum : (0 <= 2 <= 4)%Z) by lia.
  destruct (sample_anchors_content last_choice tt
              (labelled [1; 0; 0; -1; 0]%Z) 4 (double (1 # 2)) false 2 _ _ _
              Hk last_choice_spec Hnum eq_refl Hret) as (lf & lb & H).
  exists lf, lb. split; [exact Hret | exact H].
Defined.

(** X13. With [deterministic = True] the selection is explicit also when
    the foreground pool is short: it holds the first [actual_fg] foreground
    positions, then the first [nrois - actual_fg] background positions, each
    group ascending, and no position twice. *)
Theorem sample_anchors_deterministic_selection {L T C : Type}
    `{!EqInt L, !EqIntLaws L} (db : anchored_of L T C) (n : Z)
    (fg_fraction : float64) (k : Z) :
  let fg_pool := pool 1 (labels db) in
  let bg_pool := pool 0 (labels db) in
  let actual_fg := Z.min k (Z.of_nat (length fg_pool)) in
  num_fg_of fg_fraction n = Ok k ->
  (0 <= k <= n)%Z ->
  length (bbox_targets db) = length (labels db) ->
  (n - actual_fg <= Z.of_nat (length bg_pool))%Z ->
  let idx := take (Z.to_nat actual_fg) fg_pool
             ++ take (Z.to_nat (n - actual_fg)) bg_pool in
  NoDup idx /\
  Z.of_nat (length idx) = n /\
  exists l t,
    forall (rng : Type) choice (be : rng),
      _sample_anchors choice be db n fg_fraction true = (Ok (l, t, idx), be).
Proof.
  intros fg_pool bg_pool actual_fg Hk [Hlo Hhi] Hlen Hbg idx.
  assert (Ha : (0 <= actual_fg <= Z.of_nat (length fg_pool))%Z)
    by (unfold actual_fg; lia).
  assert (Hafg : (actual_fg <= n)%Z) by (unfold actual_fg; lia).
  assert (Hl1 : length (take (Z.to_nat actual_fg) fg_pool)
                = Z.to_nat actual_fg) by (apply length_take_le; lia).
  assert (Hl2 : length (take (Z.to_nat (n - actual_fg)) bg_pool)
                = Z.to_nat (n - actual_fg)) by (apply length_take_le; lia).
  assert (Hn : Z.of_nat (length idx) = n)
    by (unfold idx; rewrite length_app, Hl1, Hl2; lia).
  split.
  { unfold idx. apply NoDup_app. split; [|split].
    - eapply sublist_NoDup; [|apply sublist_take].
      apply sorted_lt_NoDup, pool_sorted.
    - intros i H1 H0.
      apply subseteq_take in H1. apply subseteq_take in H0.
      exact (pools_disjoint _ _ H1 H0).
    - eapply sublist_NoDup; [|apply sublist_take].
      apply sorted_lt_NoDup, pool_sorted. }
  split; [exact Hn|].
  destruct (sample_finish db n (take (Z.to_nat actual_fg) fg_pool)
              (take (Z.to_nat (n - actual_fg)) bg_pool) Hlen)
    as [_ Hok]; [apply Forall_take_pool | apply Forall_take_pool |].
  destruct (Hok Hn) as (lf & lb & t & Hrun & _).
  eexists _, t. intros rng choice be. unfold num_fg_of in Hk.
  unfold _sample_anchors. rewrite Hk. cbn [negb].
  change (np_where ((fun l => eq_int l 1) <$> labels db)) with fg_pool.
  change (np_where ((fun l => eq_int l 0) <$> labels db)) with bg_pool.
  fold actual_fg.
  rewrite (Z.min_l (n - actual_fg)) by exact Hbg.
  rewrite !py_slice_to_nonneg by lia.
  f_equal. exact Hrun.
Qed.

Lemma sample_anchors_deterministic_selection_witness :
  num_fg_of (double (1 # 2)) 4 = Ok 2%Z /\
  NoDup [0; 1; 2; 4]%nat /\
  exists l t,
    forall (rng : Type) choice (be : rng),
      _sample_anchors choice be (labelled [1; 0; 0; -1; 0]%Z) 4
        (double (1 # 2)) true
      = (Ok (l, t, [0; 1; 2; 4]%nat), be).
Proof.
  assert (Hk : num_fg_of (double (1 # 2)) 4 = Ok 2%Z)
    by (vm_compute; reflexivity).
  split; [exact Hk|].
  destruct (sample_anchors_deterministic_selection
              (labelled [1; 0; 0; -1; 0]%Z) 4 (double (1 # 2)) 2 Hk)
    as (Hnd & _ & H).
  - lia.
  - reflexivity.
  - vm_compute. discriminate.
  - split; [exact Hnd | exact H].
Defined.

(** The labels of [float32] that the comparison with 1 or with 0 accepts. *)
Lemma as_float32_label (l : Z) (v : Z) :
  l = 1%Z \/ l = 0%Z \/ l = (-1)%Z -> v = 1%Z \/ v = 0%Z ->
  eq_int (as_float32 l) v = true -> l = v.
Proof.
  intros [->|[->| ->]] [->| ->]; vm_compute; congruence.
Qed.

(** X14. Sampling composes with the labelling: on the record that [unmap]
    makes of a returning pass of [add_anchors], whatever [_sample_anchors]
    returns consists of [nrois] anchors that all lie inside the image; an
    anchor outside the image is never sampled.  No alignment of the arrays
    has to be assumed, the two earlier steps establish it. *)
Theorem sampled_anchors_inside_image (np_log : Q -> Q)
    (self : ObjectLocalization) (all_anchors : list Box) (db : roi)
    (db' : anchored) (db'' : unmapped) {rng : Type}
    (choice : rng -> list nat -> Z -> result (list nat) * rng) (be : rng)
    (n : Z) (fg_fraction : float64) (deterministic : bool) (k : Z)
    (l : list float32) (t : list (list float32)) (idx : list nat) :
  add_anchors_db np_log self all_anchors db = Ok db' ->
  _total_anchors self = length all_anchors ->
  unmap_db db' = Ok db'' ->
  choice_spec choice ->
  num_fg_of fg_fraction n = Ok k ->
  (0 <= k <= n)%Z ->
  (_sample_anchors choice be db'' n fg_fraction deterministic).1
    = Ok (l, t, idx) ->
  Z.of_nat (length idx) = n /\
  Forall (fun i => i ∈ idx_inside db') idx /\
  Forall (fun x => x = as_float32 1%Z \/ x = as_float32 0%Z) l.
Proof.
  intros Hrun Htot Hun Hc Hk Hnum Hret.
  destruct (add_anchors_db_invariants _ _ _ _ _ Hrun)
    as (_ & Hta & _ & Hs & Hr & Hl & Hb & Hm & _ & _).
  rewrite <- Htot, <- Hta in Hr.
  destruct (unmap_db_aligned db' Hs Hr Hl Hb Hm)
    as (db3 & Hun' & _ & _ & _ & _ & _ & H1 & H2 & _ & Hin & Hout).
  assert (db3 = db'') by congruence. subst db3.
  assert (Hal : length (bbox_targets db'') = length (labels db''))
    by congruence.
  pose proof (add_anchors_db_labels _ _ _ _ _ Hrun) as Hrange.
  rewrite Forall_lookup in Hrange.
  (* a position whose label compares equal to 1 or to 0 is inside the image
     and holds that label *)
  assert (Hpos : forall i x v, (v = 1 \/ v = 0)%Z ->
            labels db'' !! i = Some x -> eq_int x v = true ->
            i ∈ idx_inside db' /\ x = as_float32 v).
  { intros i x v Hv Hi Hx.
    destruct (decide (i ∈ idx_inside db')) as [Hi'|Hnin].
    - split; [exact Hi'|].
      apply list_elem_of_lookup in Hi' as [j Hj].
      destruct (Hin j i Hj) as (Hlab & _ & _).
      rewrite Hi in Hlab.
      destruct (labels db' !! j) as [l0|] eqn:Hl0; [|discriminate].
      cbn in Hlab. injection Hlab as ->.
      rewrite (as_float32_label l0 v (Hrange j l0 Hl0) Hv Hx). reflexivity.
    - exfalso. pose proof (lookup_lt_Some _ _ _ Hi) as Hlt.
      rewrite H1 in Hlt. destruct (Hout i Hlt Hnin) as [Hneg _].
      rewrite Hneg in Hi. injection Hi as <-.
      destruct Hv as [->| ->]; vm_compute in Hx; discriminate. }
  destruct (sample_anchors_returned choice be db'' n fg_fraction deterministic
              k l t idx Hk Hc Hnum Hal Hret)
    as (fg & bg & lf & lb & -> & -> & _ & _ & _ & Hn & Hlf & Hlb & Hf1 & Hf0
        & _).
  split; [exact Hn|]. split.
  - apply Forall_app. split.
    + apply Forall_lookup. intros j i Hj.
      destruct (Forall2_lookup_l _ _ _ _ _ Hlf Hj) as (x & Hx & Hix).
      rewrite Forall_lookup in Hf1.
      exact (proj1 (Hpos i x 1%Z (or_introl eq_refl) Hix (Hf1 j x Hx))).
    + apply Forall_lookup. intros j i Hj.
      destruct (Forall2_lookup_l _ _ _ _ _ Hlb Hj) as (x & Hx & Hix).
      rewrite Forall_lookup in Hf0.
      exact (proj1 (Hpos i x 0%Z (or_intror eq_refl) Hix (Hf0 j x Hx))).
  - apply Forall_app. split.
    + apply Forall_lookup. intros j x Hx.
      destruct (Forall2_lookup_r _ _ _ _ _ Hlf Hx) as (i & Hi & Hix).
      rewrite Forall_lookup in Hf1. left.
      exact (proj2 (Hpos i x 1%Z (or_introl eq_refl) Hix (Hf1 j x Hx))).
    + apply Forall_lookup. intros j x Hx.
      destruct (Forall2_lookup_r _ _ _ _ _ Hlb Hx) as (i & Hi & Hix).
      rewrite Forall_lookup in Hf0. right.
      exact (proj2 (Hpos i x 0%Z (or_intror eq_refl) Hix (Hf0 j x Hx))).
Qed.

Lemma sampled_anchors_inside_image_witness :
  num_fg_of (double (1 # 2)) 2 = Ok 1%Z /\
  exists db' db'' l t idx,
    add_anchors_db log_near_one (small_set 3)
      [int_box (-8) (-8) 23 23; int_box 0 0 15 15; int_box 20 20 50 50]
      one_box_image = Ok db' /\
    unmap_db db' = Ok db'' /\
    (_sample_anchors last_choice tt db'' 2 (double (1 # 2)) false).1
      = Ok (l, t, idx) /\
    Z.of_nat (length idx) = 2%Z /\
    Forall (fun i => i ∈ idx_inside db') idx /\
    Forall (fun x => x = as_float32 1%Z \/ x = as_float32 0%Z) l.
Proof.
  assert (Hk : num_fg_of (double (1 # 2)) 2 = Ok 1%Z)
    by (vm_compute; reflexivity).
  split; [exact Hk|].
  eexists _, _, _, _, _.
  assert (Hrun : add_anchors_db log_near_one (small_set 3)
            [int_box (-8) (-8) 23 23; int_box 0 0 15 15; int_box 20 20 50 50]
            one_box_image = Ok ?[db']) by (vm_compute; reflexivity).
  match type of Hrun with _ = Ok ?d =>
    assert (Hun : unmap_db d = Ok ?[db'']) by (vm_compute; reflexivity)
  end.
  match type of Hun with _ = Ok ?d =>
    assert (Hret : (_sample_anchors last_choice tt d 2 (double (1 # 2))
                      false).1
                   = Ok (?[l], ?[t], ?[idx])) by (vm_compute; reflexivity)
  end.
  assert (Hnum : (0 <= 1 <= 2)%Z) by lia.
  pose proof (sampled_anchors_inside_image log_near_one (small_set 3) _
                one_box_image _ _ last_choice tt 2 (double (1 # 2)) false 1
                _ _ _ Hrun eq_refl Hun last_choice_spec Hk Hnum Hret) as H.
  split; [exact Hrun|]. split; [exact Hun|]. split; [exact Hret | exact H].
Defined.

(** ** The pairs of the grouped shuffle *)

Lemma zip_with_fmap_same {A B C D} (f : B -> C -> D) (g : A -> B) (h : A -> C)
    (l : list A) :
  zip_with f (g <$> l) (h <$> l) = (fun x => f (g x) (h x)) <$> l.
Proof. induction l as [|x l IH]; cbn; [reflexivity | f_equal; exact IH]. Qed.

Lemma reshape_rows2_app {A} (n : nat) :
  forall l1 l2 : list A,
    (length l1 <= n)%nat -> Nat.Even (length l1) ->
    exists rows1,
      reshape_rows2 l1 = Ok rows1 /\
      reshape_rows2 (l1 ++ l2)
      = (rows2 ← reshape_rows2 l2; Ok (rows1 ++ rows2)).
Proof.
  induction n as [|n IH]; intros l1 l2 Hn He.
  - destruct l1; [|cbn in Hn; lia]. exists []. split; [reflexivity|].
    cbn [app]. destruct (reshape_rows2 l2); reflexivity.
  - destruct l1 as [|a [|b l1]].
    + exists []. split; [reflexivity|].
      cbn [app]. destruct (reshape_rows2 l2); reflexivity.
    + destruct He as [k Hk]. cbn in Hk. lia.
    + destruct (IH l1 l2) as (rows1 & Hr & Happ); [cbn in Hn; lia | |].
      { cbn [length] in He.
        apply Nat.Even_succ, Nat.Odd_succ in He. exact He. }
      exists ([a; b] :: rows1). cbn [reshape_rows2 app].
      rewrite Hr, Happ. split; [reflexivity|].
      destruct (reshape_rows2 l2); reflexivity.
Qed.

Lemma reshape_rows2_pairs {A} (n : nat) :
  forall (l : list A) rows,
    (length l <= n)%nat -> reshape_rows2 l = Ok rows ->
    Forall (fun row => exists a b, row = [a; b] /\ a ∈ l /\ b ∈ l) rows.
Proof.
  induction n as [|n IH]; intros l rows Hn Hr.
  - destruct l; [|cbn in Hn; lia]. injection Hr as <-. constructor.
  - destruct l as [|a [|b l]]; [injection Hr as <-; constructor
                               | discriminate Hr |].
    cbn [reshape_rows2] in Hr.
    destruct (reshape_rows2 l) as [rows'|] eqn:Hl; [|discriminate Hr].
    injection Hr as <-. constructor.
    + exists a, b. split; [reflexivity|]. split; [left | right; left].
    + eapply Forall_impl; [apply (IH l rows'); [cbn in Hn; lia | exact Hl]|].
      intros row (x & y & -> & Hx & Hy). exists x, y.
      split; [reflexivity|]. split; right; right; assumption.
Qed.

Lemma concat_pairs_lookup {A} (rows : list (list A)) :
  Forall (fun row => length row = 2%nat) rows ->
  forall (k : nat) (a b : A),
    concat rows !! (2 * k)%nat = Some a ->
    concat rows !! (2 * k + 1)%nat = Some b ->
    rows !! k = Some [a; b].
Proof.
  induction 1 as [|row rows Hrow _ IH]; intros k a b Ha Hb.
  - discriminate Ha.
  - destruct row as [|x [|y [|z row]]]; try discriminate Hrow.
    destruct k as [|k].
    + cbn in Ha, Hb. injection Ha as <-. injection Hb as <-. reflexivity.
    + replace (2 * S k)%nat with (S (S (2 * k))) in Ha by lia.
      replace (2 * S k + 1)%nat with (S (S (2 * k + 1))) in Hb by lia.
      cbn in Ha, Hb. cbn. apply IH; assumption.
Qed.

(** X15. When both the number of image records and the number of horizontal
    ones ([im_width >= im_height]) are even, [_shuffle_roidb] returns an
    order in which the records at positions [2k] and [2k+1] always have the
    same orientation: images are grouped in pairs of one aspect ratio, as
    the docstring announces. *)
Theorem shuffle_roidb_pairs_same_orientation {rng : Type}
    (permutation : rng -> list nat -> list nat * rng) (be : rng)
    {L T C : Type} (roi_db : list (anchored_of L T C)) :
  permutation_spec permutation ->
  Nat.Even (length roi_db) ->
  Nat.Even (length (filter (fun db : anchored_of L T C => horizontal db = true)
                      roi_db)) ->
  exists inds,
    (_shuffle_roidb permutation be roi_db).1 = Ok inds /\
    forall (k a b : nat),
      inds !! (2 * k)%nat = Some a -> inds !! (2 * k + 1)%nat = Some b ->
      exists da db,
        roi_db !! a = Some da /\ roi_db !! b = Some db /\
        horizontal da = horizontal db.
Proof.
  intros Hperm Heven Hhorz. unfold _shuffle_roidb.
  rewrite zip_with_fmap_same.
  change (fun x : anchored_of L T C => (im_height x <=? im_width x)%Z)
    with (@horizontal L T C).
  set (horz := @horizontal L T C <$> roi_db).
  assert (Hh : length horz = length roi_db) by apply length_fmap.
  assert (Hlh : length (np_where horz)
                = length (filter (fun db : anchored_of L T C =>
                                    horizontal db = true) roi_db)).
  { symmetry. apply (mapM_Ok_length (py_index roi_db)), gather_where. }
  assert (Hin_h : forall i, i ∈ np_where horz ->
            exists d, roi_db !! i = Some d /\ horizontal d = true).
  { intros i Hi. apply elem_of_np_where in Hi. unfold horz in Hi.
    rewrite list_lookup_fmap in Hi.
    destruct (roi_db !! i) as [d|]; [|discriminate Hi].
    exists d. split; [reflexivity|]. cbn in Hi. congruence. }
  assert (Hin_v : forall i, i ∈ np_where (negb <$> horz) ->
            exists d, roi_db !! i = Some d /\ horizontal d = false).
  { intros i Hi. apply elem_of_np_where in Hi. unfold horz in Hi.
    rewrite !list_lookup_fmap in Hi.
    destruct (roi_db !! i) as [d|]; [|discriminate Hi].
    exists d. split; [reflexivity|]. cbn in Hi.
    injection Hi as Hi. apply negb_true_iff, Hi. }
  pose proof (Hperm be (np_where horz)) as Hp1.
  destruct (permutation be (np_where horz)) as [perm_h be1].
  pose proof (Hperm be1 (np_where (negb <$> horz))) as Hp2.
  destruct (permutation be1 (np_where (negb <$> horz))) as [perm_v be2].
  cbn [fst] in Hp1, Hp2.
  assert (Hinds : perm_h ++ perm_v ≡ₚ seq 0 (length roi_db)).
  { rewrite Hp1, Hp2, <- Hh. apply where_from_partition. }
  assert (Hlen : (length perm_h + length perm_v = length roi_db)%nat).
  { rewrite <- length_app, Hinds. apply length_seq. }
  assert (Heh : Nat.Even (length perm_h)) by (rewrite Hp1, Hlh; exact Hhorz).
  assert (Hev : Nat.Even (length perm_v)).
  { destruct Heven as [p Hp], Heh as [q Hq]. exists (p - q)%nat. lia. }
  destruct (reshape_rows2_app (length perm_h) perm_h perm_v) as
    (rows_h & Hrh & Happ); [lia | exact Heh |].
  destruct (reshape_rows2_spec (length perm_v) perm_v) as [Hrv _]; [lia|].
  destruct (Hrv Hev) as (rows_v & Hrv' & _).
  rewrite Happ, Hrv', bind_Ok.
  pose proof (Hperm be2 (seq 0 (length (rows_h ++ rows_v)))) as Hp3.
  destruct (permutation be2 (seq 0 (length (rows_h ++ rows_v))))
    as [row_perm be3].
  cbn [fst] in Hp3 |- *.
  destruct (gather_permutation (rows_h ++ rows_v) row_perm Hp3)
    as (rows' & Hg & Hrows).
  rewrite Hg, bind_Ok. exists (concat rows'). split; [reflexivity|].
  assert (Hpairs : Forall (fun row => exists a b da db,
              row = [a; b] /\ roi_db !! a = Some da /\ roi_db !! b = Some db /\
              horizontal da = horizontal db) rows').
  { rewrite Hrows. apply Forall_app. split.
    - eapply Forall_impl;
        [apply (reshape_rows2_pairs (length perm_h) perm_h rows_h);
         [lia | exact Hrh]|].
      intros row (a & b & -> & Ha & Hb).
      rewrite Hp1 in Ha, Hb.
      destruct (Hin_h a Ha) as (da & Hda & Ea).
      destruct (Hin_h b Hb) as (db & Hdb & Eb).
      exists a, b, da, db. repeat split; congruence.
    - eapply Forall_impl;
        [apply (reshape_rows2_pairs (length perm_v) perm_v rows_v);
         [lia | exact Hrv']|].
      intros row (a & b & -> & Ha & Hb).
      rewrite Hp2 in Ha, Hb.
      destruct (Hin_v a Ha) as (da & Hda & Ea).
      destruct (Hin_v b Hb) as (db & Hdb & Eb).
      exists a, b, da, db. repeat split; congruence. }
  intros k a b Ha Hb.
  assert (Hrow : rows' !! k = Some [a; b]).
  { apply concat_pairs_lookup; [|exact Ha | exact Hb].
    eapply Forall_impl; [exact Hpairs|].
    intros row (x & y & _ & _ & -> & _). reflexivity. }
  rewrite Forall_lookup in Hpairs.
  destruct (Hpairs k _ Hrow) as (x & y & da & db & E & Hda & Hdb & Ho).
  injection E as <- <-. exists da, db. auto.
Qed.

Lemma shuffle_roidb_pairs_same_orientation_witness :
  exists inds,
    (_shuffle_roidb reverse_permutation tt
       [sized 100 50; sized 50 100; sized 120 60; sized 60 130]).1 = Ok inds /\
    forall (k a b : nat),
      inds !! (2 * k)%nat = Some a -> inds !! (2 * k + 1)%nat = Some b ->
      exists da db,
        [sized 100 50; sized 50 100; sized 120 60; sized 60 130] !! a
          = Some da /\
        [sized 100 50; sized 50 100; sized 120 60; sized 60 130] !! b
          = Some db /\
        horizontal da = horizontal db.
Proof.
  apply (shuffle_roidb_pairs_same_orientation reverse_permutation tt
           [sized 100 50; sized 50 100; sized 120 60; sized 60 130]
           reverse_permutation_spec).
  - exists 2%nat. reflexivity.
  - exists 1%nat. reflexivity.
Defined.

(** ** [add_flipped_db] *)

Lemma uint16_small (z : Z) : (0 <= z < 65536)%Z -> uint16 z = z.
Proof. intros H. apply Z.mod_small, H. Qed.

Lemma uint16_flip_flip (width x : Z) :
  (0 <= x < 65536)%Z ->
  uint16 (width - uint16 (width - x - 1) - 1) = x.
Proof.
  intros Hx. unfold uint16.
  replace (width - (width - x - 1) mod 65536 - 1)%Z
    with ((width - 1) - (width - x - 1) mod 65536)%Z by lia.
  rewrite Zminus_mod_idemp_r.
  replace (width - 1 - (width - x - 1))%Z with x by lia.
  apply Z.mod_small, Hx.
Qed.

Lemma add_flipped_db_lookup (roi_db : list annotation) (k : nat)
    (db : annotation) :
  roi_db !! k = Some db ->
  add_flipped_db roi_db !! k = Some db /\
  add_flipped_db roi_db !! (length roi_db + k)%nat
    = Some (add_flipped_entry db).
Proof.
  intros Hk. unfold add_flipped_db. split.
  - apply lookup_app_l_Some, Hk.
  - rewrite lookup_app_r by lia.
    replace (length roi_db + k - length roi_db)%nat with k by lia.
    rewrite list_lookup_fmap, Hk. reflexivity.
Qed.

(** X16. [add_flipped_db] keeps the [N] entries in place and appends their
    [N] mirror images in the same order, marked [flipped], with the classes
    and the image shape of the original.  A box inside the image
    ([0 <= x_min <= x_max < width <= 2^16]) is mirrored to
    [(width - x_max - 1, y_min, width - x_min - 1, y_max)] without wrap-around:
    it stays inside the image and keeps its width and its rows. *)
Theorem add_flipped_db_mirror (roi_db : list annotation) (k j : nat)
    (db : annotation) (b : ibox) :
  let width := (ann_img_shape db).1 in
  roi_db !! k = Some db ->
  ann_gt_bb db !! j = Some b ->
  (0 <= ix_min b <= ix_max b)%Z ->
  (ix_max b < width <= 65536)%Z ->
  length (add_flipped_db roi_db) = (2 * length roi_db)%nat /\
  add_flipped_db roi_db !! k = Some db /\
  exists fl b',
    add_flipped_db roi_db !! (length roi_db + k)%nat = Some fl /\
    ann_flipped fl = true /\
    ann_gt_classes fl = ann_gt_classes db /\
    ann_img_shape fl = ann_img_shape db /\
    length (ann_gt_bb fl) = length (ann_gt_bb db) /\
    ann_gt_bb fl !! j = Some b' /\
    ix_min b' = (width - ix_max b - 1)%Z /\
    ix_max b' = (width - ix_min b - 1)%Z /\
    iy_min b' = iy_min b /\ iy_max b' = iy_max b /\
    (0 <= ix_min b' <= ix_max b')%Z /\ (ix_max b' < width)%Z /\
    (ix_max b' - ix_min b' = ix_max b - ix_min b)%Z.
Proof.
  intros width Hk Hj Hb Hw.
  destruct (add_flipped_db_lookup roi_db k db Hk) as [H1 H2].
  split. { unfold add_flipped_db. rewrite length_app, length_fmap. lia. }
  split; [exact H1|].
  eexists _, _. split; [exact H2|].
  cbn [add_flipped_entry ann_flipped ann_gt_classes ann_img_shape ann_gt_bb].
  split; [reflexivity|]. split; [reflexivity|]. split; [reflexivity|].
  split; [apply length_fmap|].
  split; [rewrite list_lookup_fmap, Hj; reflexivity|].
  cbn [ix_min ix_max iy_min iy_max]. fold width.
  rewrite !uint16_small by lia. lia.
Qed.

Lemma add_flipped_db_mirror_witness :
  length (add_flipped_db [two_box_annotation]) = 2%nat /\
  add_flipped_db [two_box_annotation] !! 0%nat = Some two_box_annotation /\
  exists fl b',
    add_flipped_db [two_box_annotation] !! 1%nat = Some fl /\
    ann_flipped fl = true /\
    ann_gt_classes fl = [12%Z; 15%Z] /\
    ann_img_shape fl = (500, 375)%Z /\
    length (ann_gt_bb fl) = 2%nat /\
    ann_gt_bb fl !! 0%nat = Some b' /\
    ix_min b' = (500 - 194 - 1)%Z /\
    ix_max b' = (500 - 47 - 1)%Z /\
    iy_min b' = 239%Z /\ iy_max b' = 370%Z /\
    (0 <= ix_min b' <= ix_max b')%Z /\ (ix_max b' < 500)%Z /\
    (ix_max b' - ix_min b' = 194 - 47)%Z.
Proof.
  apply (add_flipped_db_mirror [two_box_annotation] 0 0 two_box_annotation
           (mkIbox 47 239 194 370)); cbn; try reflexivity; lia.
Defined.

(** X17. Mirroring is an involution on [uint16] boxes, wrap-around included:
    the mirror image of the mirror image of an entry has the boxes of the
    entry.  In [add_flipped_db (add_flipped_db roi_db)], of [4N] entries,
    entry [3N + k] therefore carries the boxes of entry [k]. *)
Theorem add_flipped_db_twice (roi_db : list annotation) (k : nat)
    (db : annotation) :
  roi_db !! k = Some db ->
  Forall (fun b => (0 <= ix_min b < 65536)%Z /\ (0 <= ix_max b < 65536)%Z)
    (ann_gt_bb db) ->
  length (add_flipped_db (add_flipped_db roi_db)) = (4 * length roi_db)%nat /\
  exists d,
    add_flipped_db (add_flipped_db roi_db) !! (3 * length roi_db + k)%nat
      = Some d /\
    ann_gt_bb d = ann_gt_bb db /\
    ann_flipped d = true.
Proof.
  intros Hk Hb.
  destruct (add_flipped_db_lookup roi_db k db Hk) as [_ H2].
  destruct (add_flipped_db_lookup (add_flipped_db roi_db) _ _ H2) as [_ H3].
  assert (Hl : length (add_flipped_db roi_db) = (2 * length roi_db)%nat)
    by (unfold add_flipped_db; rewrite length_app, length_fmap; lia).
  split.
  { unfold add_flipped_db at 1. rewrite length_app, length_fmap, Hl. lia. }
  exists (add_flipped_entry (add_flipped_entry db)). split.
  { rewrite <- H3. f_equal. lia. }
  split; [|reflexivity].
  cbn [add_flipped_entry ann_gt_bb ann_img_shape].
  rewrite <- list_fmap_compose.
  apply list_eq. intros i. rewrite list_lookup_fmap.
  destruct (ann_gt_bb db !! i) as [b|] eqn:Hi; [|reflexivity].
  rewrite Forall_lookup in Hb. destruct (Hb i b Hi) as [Hmin Hmax].
  cbn. destruct b as [x1 y1 x2 y2]. cbn in *.
  rewrite !uint16_flip_flip by assumption. reflexivity.
Qed.

Lemma add_flipped_db_twice_witness :
  length (add_flipped_db (add_flipped_db [two_box_annotation])) = 4%nat /\
  exists d,
    add_flipped_db (add_flipped_db [two_box_annotation]) !! 3%nat = Some d /\
    ann_gt_bb d = ann_gt_bb two_box_annotation /\
    ann_flipped d = true.
Proof.
  apply (add_flipped_db_twice [two_box_annotation] 0 two_box_annotation).
  - reflexivity.
  - repeat constructor; cbn; lia.
Defined.

(** ** [normalize_bbox_targets] *)

Lemma foldl_insert_map {A B} (g : B -> A) (idx : list nat) :
  forall (rows : list B) (a : list A),
    foldl (fun a (ir : nat * B) => <[ir.1 := g ir.2]> a) a (zip idx rows)
    = foldl (fun r (jx : nat * A) => <[jx.1 := jx.2]> r) a
        (zip idx (g <$> rows)).
Proof.
  induction idx as [|i idx IH]; intros rows a; [reflexivity|].
  destruct rows as [|row rows]; [reflexivity|]. cbn. apply IH.
Qed.

(** [a[idx] op= v] for distinct positions inside the array. *)
Lemma inplace_rows_spec (op : Q -> Q -> Q) (a : list (list Q))
    (idx : list nat) (v : list Q) :
  NoDup idx -> Forall (fun i => (i < length a)%nat) idx ->
  exists a',
    inplace_rows op a idx v = Ok a' /\
    length a' = length a /\
    forall i row, a !! i = Some row ->
      a' !! i = Some (if decide (i ∈ idx) then zip_with op row v else row).
Proof.
  intros Hnd Hr. unfold inplace_rows.
  destruct (gather_in_range a idx Hr) as (rows & Hg & HF).
  rewrite Hg, bind_Ok. eexists. split; [reflexivity|].
  rewrite (foldl_insert_map (fun row => zip_with op row v)).
  pose proof (Forall2_length _ _ _ HF) as Hlen.
  destruct (foldl_insert_nodup
              (zip idx ((fun row => zip_with op row v) <$> rows)) a)
    as (Hl & Hin & Hout).
  { rewrite fst_zip by (rewrite length_fmap; lia). exact Hnd. }
  { apply Forall_forall. intros [j x] Hjx. cbn [fst].
    apply elem_of_zip_l in Hjx. rewrite Forall_forall in Hr. apply Hr, Hjx. }
  split; [exact Hl|]. intros i row Hi.
  destruct (decide (i ∈ idx)) as [Hin'|Hnin].
  - apply list_elem_of_lookup in Hin' as [k Hk].
    destruct (Forall2_lookup_l _ _ _ _ _ HF Hk) as (row' & Hrow' & Hrow'').
    assert (row' = row) by congruence. subst row'.
    apply Hin. apply list_elem_of_lookup. exists k.
    apply lookup_zip_Some. split; [exact Hk|].
    rewrite list_lookup_fmap, Hrow'. reflexivity.
  - rewrite Hout; [exact Hi|].
    rewrite fst_zip by (rewrite length_fmap; lia). exact Hnin.
Qed.

Lemma normalize_class_spec (num_classes : nat) (max_classes : list nat)
    (cls : nat) (targets : list (list Q)) :
  (cls < num_classes)%nat ->
  length max_classes = length targets ->
  exists targets',
    normalize_class (replicate num_classes BBOX_NORMALIZE_MEANS)
      (replicate num_classes BBOX_NORMALIZE_STDS) max_classes cls targets
    = Ok targets' /\
    length targets' = length targets /\
    forall i row mc, targets !! i = Some row -> max_classes !! i = Some mc ->
      targets' !! i
      = Some (if decide (mc = cls) then normalized_row row else row).
Proof.
  intros Hcls Hlen. unfold normalize_class. cbn zeta.
  set (idx := np_where ((fun c => c =? cls) <$> max_classes)).
  assert (Hnd : NoDup idx) by apply sorted_lt_NoDup, np_where_sorted.
  assert (Hin : forall i, i ∈ idx <-> max_classes !! i = Some cls).
  { intros i. unfold idx. rewrite elem_of_np_where, list_lookup_fmap.
    destruct (max_classes !! i) as [c|]; cbn; [|split; discriminate].
    split; intros H; injection H as H.
    - apply Nat.eqb_eq in H. congruence.
    - subst c. rewrite Nat.eqb_refl. reflexivity. }
  assert (Hr : Forall (fun i => (i < length targets)%nat) idx).
  { apply Forall_forall. intros i Hi. apply Hin in Hi.
    rewrite <- Hlen. eapply lookup_lt_Some, Hi. }
  rewrite (py_index_Some _ cls BBOX_NORMALIZE_MEANS
             (lookup_replicate_2 _ _ _ Hcls)), bind_Ok.
  destruct (inplace_rows_spec f64_minus targets idx BBOX_NORMALIZE_MEANS Hnd
              Hr)
    as (t1 & H1 & Hl1 & Hk1).
  rewrite H1, bind_Ok.
  rewrite (py_index_Some _ cls BBOX_NORMALIZE_STDS
             (lookup_replicate_2 _ _ _ Hcls)), bind_Ok.
  rewrite <- Hl1 in Hr.
  destruct (inplace_rows_spec f64_quot t1 idx BBOX_NORMALIZE_STDS Hnd Hr)
    as (t2 & H2 & Hl2 & Hk2).
  exists t2. split; [exact H2|]. split; [lia|].
  intros i row mc Hi Hmc.
  rewrite (Hk2 i _ (Hk1 i row Hi)).
  destruct (decide (i ∈ idx)) as [Hi'|Hi'].
  - rewrite decide_True; [reflexivity|].
    apply Hin in Hi'. congruence.
  - rewrite decide_False; [reflexivity|].
    intros ->. apply Hi', Hin, Hmc.
Qed.

(** The loop over the classes normalises each row once, by its class. *)
Lemma normalize_classes_spec (num_classes : nat) (max_classes : list nat)
    (targets : list (list Q)) :
  length max_classes = length targets ->
  exists targets',
    for_list (seq 1 (num_classes - 1)) (fun cls targets =>
      normalize_class (replicate num_classes BBOX_NORMALIZE_MEANS)
        (replicate num_classes BBOX_NORMALIZE_STDS) max_classes cls targets)
      targets = Ok targets' /\
    length targets' = length targets /\
    forall i row mc, targets !! i = Some row -> max_classes !! i = Some mc ->
      targets' !! i
      = Some (if decide (1 <= mc < num_classes)%nat
              then normalized_row row else row).
Proof.
  intros Hlen.
  pose (P := fun (c : nat) (t : list (list Q)) =>
    length t = length targets /\
    forall i row mc, targets !! i = Some row -> max_classes !! i = Some mc ->
      t !! i = Some (if decide (1 <= mc < c)%nat
                     then normalized_row row else row)).
  destruct (for_list_inv P
              (fun cls targets =>
                 normalize_class (replicate num_classes BBOX_NORMALIZE_MEANS)
                   (replicate num_classes BBOX_NORMALIZE_STDS)
                   max_classes cls targets)
              (num_classes - 1) 1 targets) as (t' & Hrun & Hl & Hk).
  - split; [reflexivity|]. intros i row mc Hi Hmc.
    rewrite decide_False by lia. exact Hi.
  - intros c t Hc [Hl Hk].
    destruct (normalize_class_spec num_classes max_classes c t)
      as (t1 & H1 & Hl1 & Hk1); [lia | lia |].
    exists t1. split; [exact H1|]. split; [lia|].
    intros i row mc Hi Hmc.
    rewrite (Hk1 i _ mc (Hk i row mc Hi Hmc) Hmc).
    destruct (decide (mc = c)) as [->|Hne].
    + rewrite decide_False by lia. rewrite decide_True by lia. reflexivity.
    + destruct (decide (1 <= mc < c)%nat).
      * rewrite decide_True by lia. reflexivity.
      * rewrite decide_False by lia. reflexivity.
  - exists t'. split; [exact Hrun|]. split; [exact Hl|].
    intros i row mc Hi Hmc. rewrite (Hk i row mc Hi Hmc).
    destruct (decide (1 <= mc < 1 + (num_classes - 1))%nat).
    + rewrite decide_True by lia. reflexivity.
    + rewrite decide_False by lia. reflexivity.
Qed.

Lemma for_list_app {S} (l1 l2 : list nat) (body : nat -> S -> result S)
    (s : S) :
  for_list (l1 ++ l2) body s = (for_list l1 body s ≫= for_list l2 body).
Proof.
  revert s. induction l1 as [|i l1 IH]; intros s; [reflexivity|].
  cbn [app for_list]. destruct (body i s) as [s'|e]; [|reflexivity].
  rewrite !bind_Ok. apply IH.
Qed.

(** The records up to [n] are normalised, the others are as they were. *)
Lemma normalize_bbox_targets_prefix (num_classes n : nat)
    (roi_db : list anchored) :
  (n <= length roi_db)%nat ->
  Forall (fun db => length (max_classes db) = length (bbox_targets db))
    roi_db ->
  exists out,
    normalize_bbox_targets num_classes n roi_db = Ok out /\
    length out = length roi_db /\
    forall k db, roi_db !! k = Some db ->
      exists db',
        out !! k = Some db' /\
        source db' = source db /\
        labels db' = labels db /\
        max_classes db' = max_classes db /\
        total_anchors db' = total_anchors db /\
        idx_inside db' = idx_inside db /\
        im_width db' = im_width db /\
        im_height db' = im_height db /\
        length (bbox_targets db') = length (bbox_targets db) /\
        forall i row mc,
          bbox_targets db !! i = Some row -> max_classes db !! i = Some mc ->
          bbox_targets db' !! i
          = Some (if decide ((k < n)%nat /\ (1 <= mc < num_classes)%nat)
                  then normalized_row row else row).
Proof.
  intros Hn Hal. unfold normalize_bbox_targets. cbn zeta.
  pose (P := fun (c : nat) (s : list anchored) =>
    length s = length roi_db /\
    forall k db, roi_db !! k = Some db ->
      exists db',
        s !! k = Some db' /\
        source db' = source db /\
        labels db' = labels db /\
        max_classes db' = max_classes db /\
        total_anchors db' = total_anchors db /\
        idx_inside db' = idx_inside db /\
        im_width db' = im_width db /\
        im_height db' = im_height db /\
        length (bbox_targets db') = length (bbox_targets db) /\
        ((c <= k)%nat -> db' = db) /\
        forall i row mc,
          bbox_targets db !! i = Some row -> max_classes db !! i = Some mc ->
          bbox_targets db' !! i
          = Some (if decide ((k < c)%nat /\ (1 <= mc < num_classes)%nat)
                  then normalized_row row else row)).
  match goal with
  | |- exists out, for_range n ?body roi_db = Ok out /\ _ =>
      destruct (for_range_inv P body n roi_db) as (out & Hrun & Hl & Hk)
  end.
  - split; [reflexivity|]. intros k db Hk. exists db.
    do 9 (split; [first [exact Hk | reflexivity]|]).
    split; [reflexivity|].
    intros i row mc Hi Hmc. rewrite decide_False by lia. exact Hi.
  - intros c s Hc [Hl Hk].
    destruct (lookup_lt_is_Some_2 roi_db c) as [db Hdb]; [lia|].
    destruct (Hk c db Hdb) as (db0 & Hs & _ & _ & _ & _ & _ & _ & _ & _
                               & Hsame & _).
    rewrite (Hsame (le_n c)) in Hs. clear Hsame db0.
    rewrite (py_index_Some _ _ _ Hs), bind_Ok.
    rewrite Forall_forall in Hal.
    pose proof (Hal db (list_elem_of_lookup_2 _ _ _ Hdb)) as Hlen.
    destruct (normalize_classes_spec num_classes (max_classes db)
                (bbox_targets db) Hlen) as (t' & Ht & Hlt & Hrows).
    rewrite Ht, bind_Ok. eexists. split; [reflexivity|].
    split; [rewrite length_insert; exact Hl|].
    intros k dbk Hdbk.
    destruct (decide (k = c)) as [->|Hne].
    + assert (dbk = db) by congruence. subst dbk.
      eexists. split.
      { apply list_lookup_insert_eq. lia. }
      cbn. do 7 (split; [reflexivity|]).
      split; [exact Hlt|]. split; [lia|].
      intros i row mc Hi Hmc. rewrite (Hrows i row mc Hi Hmc).
      destruct (decide (1 <= mc < num_classes)%nat).
      * rewrite decide_True by lia. reflexivity.
      * rewrite decide_False by lia. reflexivity.
    + destruct (Hk k dbk Hdbk)
        as (db' & Hs' & H1 & H2 & H3 & H4 & H5 & H6 & H7 & H8 & Hsame & Hr).
      exists db'. split.
      { rewrite list_lookup_insert_ne by congruence. exact Hs'. }
      do 8 (split; [assumption|]).
      split; [intros Hle; apply Hsame; lia|].
      intros i row mc Hi Hmc. rewrite (Hr i row mc Hi Hmc).
      destruct (decide ((k < c)%nat /\ (1 <= mc < num_classes)%nat)).
      * rewrite decide_True by lia. reflexivity.
      * rewrite decide_False by lia. reflexivity.
  - exists out. split; [exact Hrun|]. split; [exact Hl|].
    intros k db Hdb.
    destruct (Hk k db Hdb)
      as (db' & Hs' & H1 & H2 & H3 & H4 & H5 & H6 & H7 & H8 & _ & Hr).
    exists db'. do 9 (split; [assumption|]). exact Hr.
Qed.

(** X18 ([normalize_bbox_targets]).  On records whose targets are aligned
    with their [max_classes] and have four columns of magnitude at most
    [10^300] (no quotient overflows), with [num_image_entries] at most the
    number of records, the call returns as many records.  In each of the first
    [num_image_entries] the target rows whose [max_classes] entry lies in
    [1 .. num_classes - 1] have become [(row - means) / stds], each
    difference and quotient rounded to the nearest double: a target
    divided by the double 0.1 or 0.2, not ten or five times the target.
    Every other row (entry 0, or [num_classes] and above), every record
    after the first [num_image_entries] and every other field of every
    record are unchanged. *)
Theorem normalize_bbox_targets_rows (num_classes num_image_entries : nat)
    (roi_db : list anchored) :
  (num_image_entries <= length roi_db)%nat ->
  Forall (fun db =>
            length (max_classes db) = length (bbox_targets db) /\
            Forall (fun row =>
                      length row = 4%nat /\
                      Forall (fun x => - 10 ^ 300 <= x <= 10 ^ 300)%Q row)
              (bbox_targets db))
    roi_db ->
  exists out,
    normalize_bbox_targets num_classes num_image_entries roi_db = Ok out /\
    length out = length roi_db /\
    forall k db, roi_db !! k = Some db ->
      exists db',
        out !! k = Some db' /\
        source db' = source db /\
        labels db' = labels db /\
        max_classes db' = max_classes db /\
        total_anchors db' = total_anchors db /\
        idx_inside db' = idx_inside db /\
        im_width db' = im_width db /\
        im_height db' = im_height db /\
        length (bbox_targets db') = length (bbox_targets db) /\
        ((num_image_entries <= k)%nat -> db' = db) /\
        forall i row mc,
          bbox_targets db !! i = Some row -> max_classes db !! i = Some mc ->
          bbox_targets db' !! i
          = Some (if decide ((k < num_image_entries)%nat /\
                             (1 <= mc < num_classes)%nat)
                  then normalized_row row else row).
Proof.
  intros Hn Hal0.
  assert (Hal : Forall (fun db : anchored =>
                          length (max_classes db) = length (bbox_targets db))
                  roi_db).
  { eapply Forall_impl; [exact Hal0|]. intros db [H _]. exact H. }
  destruct (normalize_bbox_targets_prefix num_classes num_image_entries
              roi_db Hn Hal) as (out & Hrun & Hl & Hk).
  exists out. split; [exact Hrun|]. split; [exact Hl|].
  intros k db Hdb.
  destruct (Hk k db Hdb)
    as (db' & Hs' & H1 & H2 & H3 & H4 & H5 & H6 & H7 & H8 & Hr).
  exists db'. do 9 (split; [assumption|]). split; [|exact Hr].
  intros Hle.
  assert (Ht : bbox_targets db' = bbox_targets db).
  { apply list_eq. intros i.
    destruct (bbox_targets db !! i) as [row|] eqn:Hi.
    - rewrite Forall_forall in Hal.
      pose proof (Hal db (list_elem_of_lookup_2 _ _ _ Hdb)) as Hlen.
      destruct (lookup_lt_is_Some_2 (max_classes db) i) as [mc Hmc].
      { rewrite Hlen. eapply lookup_lt_Some, Hi. }
      rewrite (Hr i row mc Hi Hmc). rewrite decide_False by lia.
      reflexivity.
    - apply lookup_ge_None. rewrite H8. apply lookup_ge_None, Hi. }
  destruct db, db'. cbn in *. congruence.
Qed.

Lemma normalize_bbox_targets_rows_witness :
  (1 <= length [targeted [0; 1; 2]%nat
                  [[3 # 10; 2; 3; 4]; [3 # 10; 2; 3; 4]; [3 # 10; 2; 3; 4]]%Q;
                targeted [1]%nat [[1; 2; 3; 4]]%Q])%nat /\
  Forall2 Qeq
    (normalized_row [float_value (double (3 # 10)); 2; 3; 4]%Q)
    [6755399441055743 # 2251799813685248; 20; 15; 20]%Q /\
  exists out,
    normalize_bbox_targets 2 1
      [targeted [0; 1; 2]%nat
         [[3 # 10; 2; 3; 4]; [3 # 10; 2; 3; 4]; [3 # 10; 2; 3; 4]]%Q;
       targeted [1]%nat [[1; 2; 3; 4]]%Q] = Ok out /\
    length out = 2%nat /\
    out !! 1%nat = Some (targeted [1]%nat [[1; 2; 3; 4]]%Q).
Proof.
  split; [cbn; lia|].
  split; [vm_compute; repeat constructor|].
  destruct (normalize_bbox_targets_rows 2 1
              [targeted [0; 1; 2]%nat
                 [[3 # 10; 2; 3; 4]; [3 # 10; 2; 3; 4]; [3 # 10; 2; 3; 4]]%Q;
               targeted [1]%nat [[1; 2; 3; 4]]%Q])
    as (out & Hrun & Hl & Hk).
  - cbn. lia.
  - repeat constructor; vm_compute; discriminate.
  - exists out. split; [exact Hrun|]. split; [exact Hl|].
    destruct (Hk 1%nat _ eq_refl)
      as (db' & Hout & _ & _ & _ & _ & _ & _ & _ & _ & Hsame & _).
    rewrite Hout, (Hsame (le_n 1)). reflexivity.
Defined.

(** X19 ([normalize_bbox_targets]).  When [num_image_entries] exceeds the
    number of records, the call does not return: once the loop has passed
    over every record present, [roi_db[im_i]] raises IndexError for the
    first missing one. *)
Theorem normalize_bbox_targets_missing_record
    (num_classes num_image_entries : nat) (roi_db : list anchored) :
  (length roi_db < num_image_entries)%nat ->
  Forall (fun db => length (max_classes db) = length (bbox_targets db))
    roi_db ->
  normalize_bbox_targets num_classes num_image_entries roi_db
  = Raise IndexError.
Proof.
  intros Hn Hal.
  destruct (normalize_bbox_targets_prefix num_classes (length roi_db) roi_db
              (le_n _) Hal) as (out & Hrun & Hl & _).
  unfold normalize_bbox_targets, for_range in *. cbn zeta in *.
  replace num_image_entries
    with (length roi_db + S (num_image_entries - length roi_db - 1))%nat
    by lia.
  rewrite seq_app, for_list_app, Hrun, bind_Ok.
  cbn [seq for_list]. rewrite Nat.add_0_l.
  assert (Hnone : py_index out (length roi_db) = Raise IndexError).
  { unfold py_index. rewrite (lookup_ge_None_2 out (length roi_db)) by lia.
    reflexivity. }
  rewrite Hnone. reflexivity.
Qed.

Lemma normalize_bbox_targets_missing_record_witness :
  (length [targeted [1]%nat [[1; 2; 3; 4]]%Q] < 2)%nat /\
  normalize_bbox_targets 21 2 [targeted [1]%nat [[1; 2; 3; 4]]%Q]
  = Raise IndexError.
Proof.
  split; [cbn; lia|].
  apply (normalize_bbox_targets_missing_record 21 2
           [targeted [1]%nat [[1; 2; 3; 4]]%Q]).
  - cbn. lia.
  - repeat constructor.
Defined.

(** Records whose anchors all have the first box as their best one come back
    as they were. *)
Lemma normalize_bbox_targets_first_box (num_classes n : nat)
    (roi_db : list anchored) :
  (n <= length roi_db)%nat ->
  Forall (fun db =>
            length (max_classes db) = length (bbox_targets db) /\
            Forall (fun g => g = 0%nat) (max_classes db)) roi_db ->
  normalize_bbox_targets num_classes n roi_db = Ok roi_db.
Proof.
  intros Hn Hal.
  destruct (normalize_bbox_targets_prefix num_classes n roi_db Hn)
    as (out & Hrun & Hl & Hk).
  { eapply Forall_impl; [exact Hal|]. intros db [H _]. exact H. }
  rewrite Hrun. f_equal. apply list_eq. intros k.
  destruct (roi_db !! k) as [db|] eqn:Hdb.
  - destruct (Hk k db Hdb)
      as (db' & Hs' & H1 & H2 & H3 & H4 & H5 & H6 & H7 & H8 & Hr).
    rewrite Hs'. f_equal.
    rewrite Forall_forall in Hal.
    destruct (Hal db (list_elem_of_lookup_2 _ _ _ Hdb)) as [Hlen Hz].
    assert (Ht : bbox_targets db' = bbox_targets db).
    { apply list_eq. intros i.
      destruct (bbox_targets db !! i) as [row|] eqn:Hi.
      - destruct (lookup_lt_is_Some_2 (max_classes db) i) as [mc Hmc].
        { rewrite Hlen. eapply lookup_lt_Some, Hi. }
        rewrite (Hr i row mc Hi Hmc).
        rewrite Forall_forall in Hz.
        rewrite (Hz mc (list_elem_of_lookup_2 _ _ _ Hmc)).
        rewrite decide_False by lia. reflexivity.
      - apply lookup_ge_None. rewrite H8. apply lookup_ge_None, Hi. }
    destruct db, db'. cbn in *. congruence.
  - apply lookup_ge_None. rewrite Hl. apply lookup_ge_None, Hdb.
Qed.

(** X20 ([add_anchors], then [normalize_bbox_targets]).  On images with a
    single ground-truth box each, the records that [add_anchors] returns
    pass through [normalize_bbox_targets] unchanged, whatever the class of
    the box: [max_classes] holds the position of the best box, which is 0
    for every anchor, and the loop over the classes starts at 1. *)
Theorem normalize_after_add_anchors_single_box (np_log : Q -> Q)
    (self : ObjectLocalization) (all_anchors : list Box) (images : list roi)
    (roi_db : list anchored) (num_classes num_image_entries : nat) :
  add_anchors np_log self all_anchors images = Ok roi_db ->
  Forall (fun db => length (gt_bb db) = 1%nat) images ->
  (num_image_entries <= length roi_db)%nat ->
  normalize_bbox_targets num_classes num_image_entries roi_db = Ok roi_db.
Proof.
  intros Hadd Hone Hn.
  apply normalize_bbox_targets_first_box; [exact Hn|].
  unfold add_anchors in Hadd.
  destruct (_total_anchors self =? length all_anchors);
    [|discriminate Hadd].
  cbn [py_assert] in Hadd. rewrite bind_Ok in Hadd.
  apply mapM_Ok_inv in Hadd. clear Hn.
  induction Hadd as [|db db' images roi_db Hdb _ IH]; [constructor|].
  apply Forall_cons in Hone as [H1 Hone].
  constructor; [|apply IH; exact Hone].
  destruct (add_anchors_db_invariants _ _ _ _ _ Hdb)
    as (_ & _ & _ & _ & _ & _ & Hlt & Hlm & _ & Hg).
  split; [congruence|].
  eapply Forall_impl; [exact Hg|]. cbn beta. intros g Hlt'. lia.
Qed.

Lemma normalize_after_add_anchors_single_box_witness :
  exists roi_db,
    add_anchors log_near_one (small_set 2)
      [int_box 0 0 15 15; int_box 20 20 50 50]
      [one_box_image; far_box_image] = Ok roi_db /\
    normalize_bbox_targets 21 2 roi_db = Ok roi_db.
Proof.
  eexists. split.
  - vm_compute. reflexivity.
  - apply (normalize_after_add_anchors_single_box log_near_one (small_set 2)
             [int_box 0 0 15 15; int_box 20 20 50 50]
             [one_box_image; far_box_image]).
    + vm_compute. reflexivity.
    + repeat constructor.
    + cbn. lia.
Defined.

(** ** [_compute_targets] *)

Lemma _compute_targets_lookup (np_log : Q -> Q) (gt rp : list Box) (i : nat)
    (g r : Box) :
  gt !! i = Some g -> rp !! i = Some r ->
  _compute_targets np_log gt rp !! i
  = Some [ ((x_min g + (1 # 2) * (x_max g - x_min g + FRCN_EPS))
            - (x_min r + (1 # 2) * (x_max r - x_min r + FRCN_EPS)))
           / (x_max r - x_min r + FRCN_EPS);
           ((y_min g + (1 # 2) * (y_max g - y_min g + FRCN_EPS))
            - (y_min r + (1 # 2) * (y_max r - y_min r + FRCN_EPS)))
           / (y_max r - y_min r + FRCN_EPS);
           np_log ((x_max g - x_min g + FRCN_EPS)
                   / (x_max r - x_min r + FRCN_EPS));
           np_log ((y_max g - y_min g + FRCN_EPS)
                   / (y_max r - y_min r + FRCN_EPS)) ]%Q.
Proof.
  intros Hg Hr. unfold _compute_targets, _get_xywh.
  repeat (rewrite ?lookup_zip_with, ?list_lookup_fmap, ?Hg, ?Hr; cbn).
  reflexivity.
Qed.

(** X21 ([_compute_targets], [_get_xywh]).  The targets of valid boxes
    against themselves: the two centre offsets are 0 and the two logarithms
    are taken of 1. *)
Theorem compute_targets_self (np_log : Q -> Q) (bb : list Box) (i : nat)
    (b : Box) :
  valid_box b -> bb !! i = Some b ->
  exists dx dy rw rh,
    _compute_targets np_log bb bb !! i = Some [dx; dy; np_log rw; np_log rh] /\
    dx == 0 /\ dy == 0 /\ rw == 1 /\ rh == 1.
Proof.
  intros Hv Hb. unfold valid_box in Hv.
  rewrite (_compute_targets_lookup np_log bb bb i b b Hb Hb).
  do 4 eexists. split; [reflexivity|].
  unfold FRCN_EPS.
  repeat split; field; lra.
Qed.

Lemma compute_targets_self_witness :
  valid_box (int_box 20 20 50 50) /\
  exists dx dy rw rh,
    _compute_targets log_near_one
      [int_box 0 0 15 15; int_box 20 20 50 50]
      [int_box 0 0 15 15; int_box 20 20 50 50] !! 1%nat
    = Some [dx; dy; log_near_one rw; log_near_one rh] /\
    dx == 0 /\ dy == 0 /\ rw == 1 /\ rh == 1.
Proof.
  assert (Hv : valid_box (int_box 20 20 50 50)).
  { split; cbn; unfold Qle; cbn; lia. }
  split; [exact Hv|].
  apply (compute_targets_self log_near_one
           [int_box 0 0 15 15; int_box 20 20 50 50] 1 (int_box 20 20 50 50)
           Hv).
  reflexivity.
Defined.
